(** * ai-pr-review-voice: the review pipeline of [api/src], embedded in Rocq

    The development follows the TypeScript sources:
    - [api/src/lib/github.ts] and [api/src/lib/gemini-cli.ts] (reference
      resolution, workspace handling, diff derivation, context file, tool
      invocation and output recovery, cleanup),
    - [api/src/types.ts] (the zod schemas),
    - [api/src/lib/gemini.ts] (document indexing and the draft comment).

    A JavaScript string stands as the [string] of its UTF-8 bytes, which is
    how [exec] reads the output of a command and how [writeFileSync] writes a
    file; its JavaScript [length], counted in UTF-16 code units, is [units].
    Console output is left out.
    A computation that may throw returns a [completion]; code that touches the
    file system, runs a subprocess or calls a remote service is a function on
    a [World], whose external parts are section variables. *)

From Stdlib Require Import String Ascii List ZArith NArith QArith Lia Bool DecimalString.
From Stdlib Require Import DecimalPos DecimalN.
From stdpp Require Import gmap strings.
Import ListNotations.
Local Open Scope string_scope.
#[local] Set Warnings "-register-all,-abstract-large-number".
#[local] Arguments String.append _ _ : simpl nomatch.


(** ** JavaScript values that the sources rely on *)

Module JS.

(** What [catch (error)] can receive: an [Error] with a message, the
    [SyntaxError] of [JSON.parse], a [TypeError] (property access on [null],
    call of something that is no function), and the rejection of a
    promisified [exec], which carries [killed], [code], [stdout], [stderr]. *)
Inductive exn : Type :=
| Error (message : string)
| SyntaxError
| TypeError
| ExecException (killed : bool) (code : option string) (stdout stderr : string).

Inductive completion (A : Type) : Type :=
| Return (a : A)
| Throw (e : exn).
Arguments Return {A} a.
Arguments Throw {A} e.

Definition bind {A B} (m : completion A) (k : A -> completion B) : completion B :=
  match m with
  | Return a => k a
  | Throw e => Throw e
  end.

(** [try { body } catch (e) { handler }] *)
Definition try_catch {A} (body : completion A) (handler : exn -> completion A)
  : completion A :=
  match body with
  | Return a => Return a
  | Throw e => handler e
  end.

(** The double quote, which no literal of this file contains. *)
Definition dquote : string := String (ascii_of_nat 34) EmptyString.
Definition newline : string := String (ascii_of_nat 10) EmptyString.

(** A non-empty string is truthy. *)
Definition truthy_string (s : string) : bool :=
  match s with
  | EmptyString => false
  | String _ _ => true
  end.

(** The UTF-16 code units that the character opened by the byte [c] takes:
    two when [c] opens four bytes (a surrogate pair), one when it opens one,
    two or three; a byte that continues a character opens none. *)
Definition width (c : ascii) : nat :=
  let b := N_of_ascii c in
  if (b <? 128)%N then 1
  else if (b <? 192)%N then 0
  else if (b <? 240)%N then 1
  else 2.

(** [s.length] *)
Fixpoint units (s : string) : nat :=
  match s with
  | EmptyString => 0
  | String c s' => width c + units s'
  end.

(** U+FFFD, which [writeFileSync] writes for one half of a surrogate pair. *)
Definition REPLACEMENT : string :=
  String (ascii_of_nat 239) (String (ascii_of_nat 191) (String (ascii_of_nat 189) EmptyString)).

(** [s.substring(0, n)] as a file receives it: the characters are kept while
    their units fit; when one unit is left and the next character takes two,
    the string ends with the first half of its pair. *)
Fixpoint substring_to (n : nat) (s : string) : string :=
  match s with
  | EmptyString => EmptyString
  | String c s' =>
      let k := width c in
      if (k <=? n)%nat then String c (substring_to (n - k) s')
      else if (n =? 0)%nat then EmptyString
      else REPLACEMENT
  end.

(** Longest prefix of [s] whose characters satisfy [p], and the rest. *)
Fixpoint span (p : ascii -> bool) (s : string) : string * string :=
  match s with
  | EmptyString => (EmptyString, EmptyString)
  | String c s' =>
      if p c then let (a, b) := span p s' in (String c a, b)
      else (EmptyString, s)
  end.

(** [Some rest] when [s = pat ++ rest]. *)
Fixpoint strip_prefix (pat s : string) : option string :=
  match pat, s with
  | EmptyString, _ => Some s
  | String a pat', String b s' =>
      if Ascii.eqb a b then strip_prefix pat' s' else None
  | String _ _, EmptyString => None
  end.

Fixpoint forallb_string (p : ascii -> bool) (s : string) : bool :=
  match s with
  | EmptyString => true
  | String c s' => p c && forallb_string p s'
  end.

(** [pat] occurs somewhere in [s]. *)
Fixpoint occurs (pat s : string) : bool :=
  match strip_prefix pat s with
  | Some _ => true
  | None =>
      match s with
      | EmptyString => false
      | String _ s' => occurs pat s'
      end
  end.

(** The class [\d] of a regular expression without the unicode flag. *)
Definition is_digit (c : ascii) : bool :=
  let n := nat_of_ascii c in (48 <=? n)%nat && (n <=? 57)%nat.

(** The class [[^\/]]. *)
Definition not_slash (c : ascii) : bool := negb (Ascii.eqb c "/").

Definition digit_value (c : ascii) : N := N.of_nat (nat_of_ascii c - 48).

(** [parseInt(s, 10)] on a non-empty run of digits, as the mathematical
    integer. A JavaScript number holds it exactly up to [2^53]. *)
Definition parseInt_digits (s : string) : N :=
  fold_left (fun acc c => (10 * acc + digit_value c)%N) (list_ascii_of_string s) 0%N.

Definition MAX_SAFE : N := 2 ^ 53.

End JS.

(** ** [api/src/lib/github.ts] *)

Module Github.
Import JS.

Record PRInfo : Type := mkPRInfo {
  owner : string;
  repo : string;
  pullNumber : N
}.

(** One attempt of [/github\.com\/([^\/]+)\/([^\/]+)\/pull\/(\d+)/] at the
    start of [s]: the three groups. Each [[^\/]+] is followed by a literal
    slash, so the only run backtracking can settle on is the whole run up
    to the next slash; the final [\d+] is greedy and nothing follows it. *)
Definition match_here (s : string) : option (string * string * string) :=
  match strip_prefix "github.com/" s with
  | None => None
  | Some r1 =>
      let (g1, r2) := span not_slash r1 in
      if truthy_string g1 then
        match strip_prefix "/" r2 with
        | None => None
        | Some r3 =>
            let (g2, r4) := span not_slash r3 in
            if truthy_string g2 then
              match strip_prefix "/pull/" r4 with
              | None => None
              | Some r5 =>
                  let (g3, _) := span is_digit r5 in
                  if truthy_string g3 then Some (g1, g2, g3) else None
              end
            else None
        end
      else None
  end.

(** [url.match(regex)]: the leftmost position where the pattern matches. *)
Fixpoint regex_match (s : string) : option (string * string * string) :=
  match match_here s with
  | Some m => Some m
  | None =>
      match s with
      | EmptyString => None
      | String _ s' => regex_match s'
      end
  end.

Definition parsePRUrl (url : string) : completion PRInfo :=
  match regex_match url with
  | None => Throw (Error ("Invalid GitHub PR URL: " ++ url))
  | Some (g1, g2, g3) =>
      Return {| owner := g1; repo := g2; pullNumber := parseInt_digits g3 |}
  end.

End Github.

(** ** JSON values and [JSON.parse] *)

Module Json.
Import JS.

(** Numbers are kept as the exact rational that the literal denotes. *)
Inductive json : Type :=
| JNull
| JBool (b : bool)
| JNum (q : Q)
| JStr (s : string)
| JArr (items : list json)
| JObj (fields : list (string * json)).

(** [o[key]] on an object literal: a later duplicate key wins. *)
Fixpoint lookup (key : string) (fields : list (string * json)) : option json :=
  match fields with
  | [] => None
  | (k, v) :: rest =>
      match lookup key rest with
      | Some v' => Some v'
      | None => if String.eqb k key then Some v else None
      end
  end.

(** [v.name] for a name that no prototype defines: [undefined] ([None])
    on every value but an object that has it, a [TypeError] on [null]. *)
Definition get_prop (v : json) (name : string) : completion (option json) :=
  match v with
  | JNull => Throw TypeError
  | JObj fields => Return (lookup name fields)
  | _ => Return None
  end.

Definition truthy (v : json) : bool :=
  match v with
  | JNull => false
  | JBool b => b
  | JNum q => negb (Qeq_bool q 0)
  | JStr s => truthy_string s
  | JArr _ => true
  | JObj _ => true
  end.

Definition isArray (v : json) : bool :=
  match v with
  | JArr _ => true
  | _ => false
  end.

(** *** The grammar of ECMA-404 *)

Definition is_ws (c : ascii) : bool :=
  let n := nat_of_ascii c in
  (n =? 32)%nat || (n =? 9)%nat || (n =? 10)%nat || (n =? 13)%nat.

Fixpoint skip_ws (s : string) : string :=
  match s with
  | String c s' => if is_ws c then skip_ws s' else s
  | EmptyString => s
  end.

Definition hex_value (c : ascii) : option N :=
  let n := nat_of_ascii c in
  if (48 <=? n)%nat && (n <=? 57)%nat then Some (N.of_nat (n - 48))
  else if (65 <=? n)%nat && (n <=? 70)%nat then Some (N.of_nat (n - 55))
  else if (97 <=? n)%nat && (n <=? 102)%nat then Some (N.of_nat (n - 87))
  else None.

Definition byte (n : N) : ascii := ascii_of_N n.

(** A code unit written [\uXXXX], as the bytes of its UTF-8 form. *)
Definition utf8 (cp : N) : string :=
  if (cp <? 128)%N then String (byte cp) EmptyString
  else if (cp <? 2048)%N then
    String (byte (192 + cp / 64)) (String (byte (128 + cp mod 64)) EmptyString)
  else
    String (byte (224 + cp / 4096))
      (String (byte (128 + (cp / 64) mod 64))
         (String (byte (128 + cp mod 64)) EmptyString)).

Definition parse_escape (s : string) : option (string * string) :=
  match s with
  | String c rest =>
      match nat_of_ascii c with
      | 34 => Some (dquote, rest)
      | 92 => Some (String c EmptyString, rest)
      | 47 => Some ("/", rest)
      | 98 => Some (String (ascii_of_nat 8) EmptyString, rest)
      | 102 => Some (String (ascii_of_nat 12) EmptyString, rest)
      | 110 => Some (newline, rest)
      | 114 => Some (String (ascii_of_nat 13) EmptyString, rest)
      | 116 => Some (String (ascii_of_nat 9) EmptyString, rest)
      | 117 =>
          match rest with
          | String h1 (String h2 (String h3 (String h4 rest'))) =>
              match hex_value h1, hex_value h2, hex_value h3, hex_value h4 with
              | Some a, Some b, Some c', Some d =>
                  Some (utf8 (((a * 16 + b) * 16 + c') * 16 + d)%N, rest')
              | _, _, _, _ => None
              end
          | _ => None
          end
      | _ => None
      end
  | EmptyString => None
  end.

(** The characters of a string literal after its opening quote, up to the
    closing quote; control characters must be escaped. *)
Fixpoint parse_chars (fuel : nat) (s : string) : option (string * string) :=
  match fuel with
  | O => None
  | S fuel' =>
      match s with
      | EmptyString => None
      | String c rest =>
          let n := nat_of_ascii c in
          if (n =? 34)%nat then Some (EmptyString, rest)
          else if (n =? 92)%nat then
            match parse_escape rest with
            | Some (e, rest') =>
                match parse_chars fuel' rest' with
                | Some (t, rest'') => Some (e ++ t, rest'')
                | None => None
                end
            | None => None
            end
          else if (n <? 32)%nat then None
          else
            match parse_chars fuel' rest with
            | Some (t, rest') => Some (String c t, rest')
            | None => None
            end
      end
  end.

Definition digits_value (s : string) : Z := Z.of_N (parseInt_digits s).

(** [int], with no leading zero before another digit. *)
Definition parse_int (s : string) : option (string * string) :=
  let (ds, rest) := span is_digit s in
  match ds with
  | EmptyString => None
  | String c EmptyString => Some (ds, rest)
  | String c _ => if Ascii.eqb c "0" then None else Some (ds, rest)
  end.

Definition parse_frac (s : string) : option (string * string) :=
  match strip_prefix "." s with
  | Some rest =>
      let (ds, rest') := span is_digit rest in
      if truthy_string ds then Some (ds, rest') else None
  | None => Some (EmptyString, s)
  end.

(** An optional sign: whether it is a minus, and the rest. *)
Definition parse_sign (plus : bool) (s : string) : bool * string :=
  match strip_prefix "-" s with
  | Some r => (true, r)
  | None =>
      match (if plus then strip_prefix "+" s else None) with
      | Some r => (false, r)
      | None => (false, s)
      end
  end.

Definition parse_exp (s : string) : option (Z * string) :=
  match s with
  | String c rest =>
      if Ascii.eqb c "e" || Ascii.eqb c "E" then
        let (neg, rest1) := parse_sign true rest in
        let (ds, rest2) := span is_digit rest1 in
        if truthy_string ds
        then Some (if neg then (- digits_value ds)%Z else digits_value ds, rest2)
        else None
      else Some (0%Z, s)
  | EmptyString => Some (0%Z, s)
  end.

(** [m * 10^e] as a rational. *)
Definition decimal (m e : Z) : Q :=
  if (0 <=? e)%Z then inject_Z (m * 10 ^ e)
  else Qred (Qmake m (Z.to_pos (10 ^ (- e)))).

Definition parse_number (s : string) : option (Q * string) :=
  let (neg, s1) := parse_sign false s in
  match parse_int s1 with
  | None => None
  | Some (ip, s2) =>
      match parse_frac s2 with
      | None => None
      | Some (fp, s3) =>
          match parse_exp s3 with
          | None => None
          | Some (e, s4) =>
              let m := digits_value (ip ++ fp) in
              let q := decimal m (e - Z.of_nat (String.length fp)) in
              Some (if neg then Qopp q else q, s4)
          end
      end
  end.

Definition parse_string (s : string) : option (string * string) :=
  parse_chars (S (String.length s)) s.

Definition parse_literal (lit : string) (v : json) (s : string)
  : option (json * string) :=
  match strip_prefix lit s with
  | Some rest => Some (v, rest)
  | None => None
  end.

(** What the first character of a value announces. *)
Inductive lead : Type :=
| OpenBracket
| OpenBrace
| Quote
| LetterN
| LetterT
| LetterF
| Other.

Definition classify (c : ascii) : lead :=
  match nat_of_ascii c with
  | 91 => OpenBracket
  | 123 => OpenBrace
  | 34 => Quote
  | 110 => LetterN
  | 116 => LetterT
  | 102 => LetterF
  | _ => Other
  end.

(** [value], [elements] after an opening bracket, [members] after an
    opening brace. Every call spends one unit of [fuel]. *)
Fixpoint parse_value (fuel : nat) (s : string) {struct fuel}
  : option (json * string) :=
  match fuel with
  | O => None
  | S fuel' =>
      match skip_ws s with
      | EmptyString => None
      | String c rest =>
          match classify c with
          | OpenBracket =>
              match strip_prefix "]" (skip_ws rest) with
              | Some rest' => Some (JArr [], rest')
              | None =>
                  match parse_elements fuel' rest with
                  | Some (items, rest') => Some (JArr items, rest')
                  | None => None
                  end
              end
          | OpenBrace =>
              match strip_prefix "}" (skip_ws rest) with
              | Some rest' => Some (JObj [], rest')
              | None =>
                  match parse_members fuel' rest with
                  | Some (fields, rest') => Some (JObj fields, rest')
                  | None => None
                  end
              end
          | Quote =>
              match parse_string rest with
              | Some (str, rest') => Some (JStr str, rest')
              | None => None
              end
          | LetterN => parse_literal "null" JNull (String c rest)
          | LetterT => parse_literal "true" (JBool true) (String c rest)
          | LetterF => parse_literal "false" (JBool false) (String c rest)
          | Other =>
              match parse_number (String c rest) with
              | Some (q, rest') => Some (JNum q, rest')
              | None => None
              end
          end
      end
  end

with parse_elements (fuel : nat) (s : string) {struct fuel}
  : option (list json * string) :=
  match fuel with
  | O => None
  | S fuel' =>
      match parse_value fuel' s with
      | None => None
      | Some (v, rest) =>
          match strip_prefix "," (skip_ws rest) with
          | Some rest' =>
              match parse_elements fuel' rest' with
              | Some (vs, rest'') => Some (v :: vs, rest'')
              | None => None
              end
          | None =>
              match strip_prefix "]" (skip_ws rest) with
              | Some rest' => Some ([v], rest')
              | None => None
              end
          end
      end
  end

with parse_members (fuel : nat) (s : string) {struct fuel}
  : option (list (string * json) * string) :=
  match fuel with
  | O => None
  | S fuel' =>
      match strip_prefix dquote (skip_ws s) with
      | None => None
      | Some rest =>
          match parse_string rest with
          | None => None
          | Some (key, rest1) =>
              match strip_prefix ":" (skip_ws rest1) with
              | None => None
              | Some rest2 =>
                  match parse_value fuel' rest2 with
                  | None => None
                  | Some (v, rest3) =>
                      match strip_prefix "," (skip_ws rest3) with
                      | Some rest4 =>
                          match parse_members fuel' rest4 with
                          | Some (fs, rest5) => Some ((key, v) :: fs, rest5)
                          | None => None
                          end
                      | None =>
                          match strip_prefix "}" (skip_ws rest3) with
                          | Some rest4 => Some ([(key, v)], rest4)
                          | None => None
                          end
                      end
                  end
              end
          end
      end
  end.

(** [JSON.parse(text)]: one value, with white space around it and nothing
    else; [None] stands for the [SyntaxError]. Nesting costs two units of
    fuel for each character consumed, so twice the length is enough
    ([parse_fuel_adequate] below). *)
Definition parse (text : string) : option json :=
  match parse_value (2 * String.length text + 2) text with
  | Some (v, rest) =>
      match skip_ws rest with
      | EmptyString => Some v
      | String _ _ => None
      end
  | None => None
  end.

Definition JSON_parse (text : string) : completion json :=
  match parse text with
  | Some v => Return v
  | None => Throw SyntaxError
  end.

End Json.


(** ** [api/src/types.ts] *)

Module Types.
Import JS Json.

(** *** The zod schemas, as predicates on a parsed value *)

Definition is_string (v : json) : bool :=
  match v with
  | JStr _ => true
  | _ => false
  end.

Definition is_number (v : json) : bool :=
  match v with
  | JNum _ => true
  | _ => false
  end.

Definition required (check : json -> bool) (field : option json) : bool :=
  match field with
  | Some v => check v
  | None => false
  end.

(** [.optional()] admits [undefined], that is a missing key. *)
Definition optional (check : json -> bool) (field : option json) : bool :=
  match field with
  | Some v => check v
  | None => true
  end.

Definition one_of (names : list string) (v : json) : bool :=
  match v with
  | JStr s => existsb (String.eqb s) names
  | _ => false
  end.

Definition EvidenceSchema (v : json) : bool :=
  match v with
  | JObj o =>
      required is_string (lookup "filePath" o)
      && optional is_number (lookup "startLine" o)
      && optional is_number (lookup "endLine" o)
  | _ => false
  end.

Definition FindingStatusSchema : json -> bool := one_of ["PASS"; "FAIL"; "CLARIFY"].

Definition UserDecisionSchema : json -> bool := one_of ["APPROVED"; "DISMISSED"; "EDITED"].

Definition array_of (check : json -> bool) (v : json) : bool :=
  match v with
  | JArr items => forallb check items
  | _ => false
  end.

(** [z.number().min(0).max(1)] *)
Definition number_min0_max1 (v : json) : bool :=
  match v with
  | JNum c => Qle_bool 0 c && Qle_bool c 1
  | _ => false
  end.

Definition FindingSchema (v : json) : bool :=
  match v with
  | JObj o =>
      required is_string (lookup "id" o)
      && optional is_string (lookup "storyId" o)
      && optional is_string (lookup "criteriaId" o)
      && required FindingStatusSchema (lookup "status" o)
      && required is_string (lookup "summary" o)
      && optional is_string (lookup "reason" o)
      && optional is_string (lookup "suggestion" o)
      && required (array_of EvidenceSchema) (lookup "evidence" o)
      && required number_min0_max1 (lookup "confidence" o)
      && required is_string (lookup "proposedComment" o)
      && optional UserDecisionSchema (lookup "userDecision" o)
      && optional is_string (lookup "userNote" o)
  | _ => false
  end.

(** *** The inferred types. Line numbers are integers. *)

Record Evidence : Type := mkEvidence {
  filePath : string;
  startLine : option Z;
  endLine : option Z
}.

Inductive FindingStatus : Type := PASS | FAIL | CLARIFY.

Inductive UserDecision : Type := APPROVED | DISMISSED | EDITED.

Record Finding : Type := mkFinding {
  id : string;
  storyId : option string;
  criteriaId : option string;
  status : FindingStatus;
  summary : string;
  reason : option string;
  suggestion : option string;
  evidence : list Evidence;
  confidence : Q;
  proposedComment : string;
  userDecision : option UserDecision;
  userNote : option string
}.

End Types.

(** ** The process and what surrounds it *)

Module Sys.
Import JS.

Inductive node : Type :=
| Dir
| File (content : string).

Record ExecOptions : Type := mkExecOptions {
  cwd : option string;
  timeout : option N;
  maxBuffer : option N
}.

(** What the process does that can be observed from outside. *)
Inductive event : Type :=
| EvExec (command : string) (options : ExecOptions)
| EvSleep (ms : N)
| EvCall (method : string).

(** *** [path] (POSIX) *)

(** The pieces of a path between its separators. *)
Fixpoint segments (path : string) : list string :=
  match path with
  | EmptyString => [EmptyString]
  | String c rest =>
      if Ascii.eqb c "/" then EmptyString :: segments rest
      else
        match segments rest with
        | h :: t => String c h :: t
        | [] => [String c EmptyString]
        end
  end.

(** One turn of [normalizeString]: [res] holds the segments kept so far,
    the last one first. An empty segment and [.] are dropped; [..] removes
    the last segment kept, unless there is none or it is [..] itself, in
    which case it is kept when the path is relative. *)
Definition step (allowAboveRoot : bool) (res : list string) (segment : string)
  : list string :=
  if String.eqb segment "" || String.eqb segment "." then res
  else if String.eqb segment ".." then
    match res with
    | last :: before =>
        if String.eqb last ".." then (if allowAboveRoot then ".." :: res else res)
        else before
    | [] => if allowAboveRoot then [".."] else []
    end
  else segment :: res.

Definition normalizeString (path : string) (allowAboveRoot : bool) : string :=
  String.concat "/" (rev (fold_left (step allowAboveRoot) (segments path) [])).

Definition starts_with_slash (path : string) : bool :=
  match path with
  | String c _ => Ascii.eqb c "/"
  | EmptyString => false
  end.

Fixpoint ends_with_slash (path : string) : bool :=
  match path with
  | EmptyString => false
  | String c EmptyString => Ascii.eqb c "/"
  | String _ rest => ends_with_slash rest
  end.

(** [path.normalize(path)] *)
Definition normalize (path : string) : string :=
  if truthy_string path then
    let isAbsolute := starts_with_slash path in
    let trailingSeparator := ends_with_slash path in
    let res := normalizeString path (negb isAbsolute) in
    if truthy_string res
    then (if isAbsolute then "/" else "") ++ res ++ (if trailingSeparator then "/" else "")
    else if isAbsolute then "/" else if trailingSeparator then "./" else "."
  else ".".

(** [path.join(dir, name)]: the arguments that are not empty, joined by a
    separator and normalised. *)
Definition join (dir name : string) : string :=
  let joined :=
    if truthy_string dir
    then (if truthy_string name then dir ++ "/" ++ name else dir)
    else name in
  if truthy_string joined then normalize joined else ".".

(** [x] is [p] or lies below it. *)
Definition within (p x : string) : bool :=
  String.eqb x p ||
  match strip_prefix (p ++ "/") x with
  | Some _ => true
  | None => false
  end.

Section World.
(** The state of everything outside the process: remote repositories,
    the review engine, the retrieval service, the clock. *)
Variable Ext : Type.

Record World : Type := mkWorld {
  fs : gmap string node;
  ext : Ext;
  trace : list event
}.

Definition M (A : Type) : Type := World -> World * completion A.

(** An outside party acts on the files and on its own state, and answers
    or fails. *)
Definition oracle (A : Type) : Type :=
  gmap string node -> Ext -> gmap string node * Ext * completion A.

Definition ret {A} (a : A) : M A := fun w => (w, Return a).

Definition throw {A} (e : exn) : M A := fun w => (w, Throw e).

Definition bindM {A B} (m : M A) (k : A -> M B) : M B :=
  fun w =>
    match m w with
    | (w', Return a) => k a w'
    | (w', Throw e) => (w', Throw e)
    end.

Definition lift {A} (c : completion A) : M A := fun w => (w, c).

(** [try { body } catch (e) { handler e }] *)
Definition tryM {A} (body : M A) (handler : exn -> M A) : M A :=
  fun w =>
    match body w with
    | (w', Return a) => (w', Return a)
    | (w', Throw e) => handler e w'
    end.

(** [try { body } finally { fin }]: [fin] runs on every exit of [body];
    an exception of [fin] replaces the completion of [body]. *)
Definition try_finally {A} (body : M A) (fin : M unit) : M A :=
  fun w =>
    match body w with
    | (w', r) =>
        match fin w' with
        | (w'', Return _) => (w'', r)
        | (w'', Throw e) => (w'', Throw e)
        end
    end.

Definition log (ev : event) : M unit :=
  fun w => (mkWorld (fs w) (ext w) (trace w ++ [ev]), Return tt).

Definition ask {A} (o : oracle A) : M A :=
  fun w =>
    match o (fs w) (ext w) with
    | (fs', ext', r) => (mkWorld fs' ext' (trace w), r)
    end.

(** *** [fs] *)

Definition existsSync (p : string) : M bool :=
  fun w => (w, Return (bool_decide (is_Some (fs w !! p)))).

(** [rmSync(p, { recursive: true, force: true })], on a file system that
    lets the process delete what it created. *)
Definition rmSync (p : string) : M unit :=
  fun w =>
    (mkWorld (filter (fun kv => within p kv.1 = false) (fs w)) (ext w) (trace w),
     Return tt).

Definition unlinkSync (p : string) : M unit :=
  fun w => (mkWorld (delete p (fs w)) (ext w) (trace w), Return tt).

Definition mkdirSync (p : string) : M unit :=
  fun w => (mkWorld (<[p := Dir]> (fs w)) (ext w) (trace w), Return tt).

(** Whether the platform lets [p] be written in the current state. *)
Variable writable : string -> gmap string node -> bool.

Definition writeFileSync (p content : string) : M unit :=
  fun w =>
    if writable p (fs w)
    then (mkWorld (<[p := File content]> (fs w)) (ext w) (trace w), Return tt)
    else (w, Throw (Error ("EACCES: " ++ p))).

(** *** [child_process] *)

Variable run : string -> ExecOptions -> oracle (string * string).

(** [promisify(exec)(command, options)], resolving to [(stdout, stderr)]. *)
Definition execAsync (command : string) (options : ExecOptions)
  : M (string * string) :=
  bindM (log (EvExec command options)) (fun _ => ask (run command options)).

(** [await new Promise(resolve => setTimeout(resolve, ms))] *)
Definition sleep (ms : N) : M unit := log (EvSleep ms).

End World.

Arguments mkWorld {Ext}.
Arguments fs {Ext}.
Arguments ext {Ext}.
Arguments trace {Ext}.
Arguments ret {Ext A}.
Arguments throw {Ext A}.
Arguments bindM {Ext A B}.
Arguments lift {Ext A}.
Arguments tryM {Ext A}.
Arguments try_finally {Ext A}.
Arguments log {Ext}.
Arguments ask {Ext A}.
Arguments existsSync {Ext}.
Arguments rmSync {Ext}.
Arguments unlinkSync {Ext}.
Arguments mkdirSync {Ext}.
Arguments writeFileSync {Ext}.
Arguments execAsync {Ext}.
Arguments sleep {Ext}.

#[global] Instance M_ret {Ext} : MRet (M Ext) := fun A a => ret a.
#[global] Instance M_bind {Ext} : MBind (M Ext) := fun A B k m => bindM m k.

End Sys.

(** ** The two bracket patterns of the output recovery *)

Module RegExp.

(** The text after the first opening bracket. *)
Fixpoint after_open (s : string) : option string :=
  match s with
  | EmptyString => None
  | String c rest => if Ascii.eqb c "[" then Some rest else after_open rest
  end.

(** The prefix of [s] that ends with its last closing bracket. *)
Fixpoint upto_last_close (s : string) : option string :=
  match s with
  | EmptyString => None
  | String c rest =>
      match upto_last_close rest with
      | Some t => Some (String c t)
      | None => if Ascii.eqb c "]" then Some "]" else None
      end
  end.

(** The prefix of [s] that ends with its first closing bracket. *)
Fixpoint upto_first_close (s : string) : option string :=
  match s with
  | EmptyString => None
  | String c rest =>
      if Ascii.eqb c "]" then Some "]"
      else
        match upto_first_close rest with
        | Some t => Some (String c t)
        | None => None
        end
  end.

(** [s.match(/\[[\s\S]*\]/)]: greedy, from the first opening bracket to the
    last closing bracket after it. No later start can succeed where the first
    fails, since whatever follows a later bracket follows the first. *)
Definition match_greedy (s : string) : option string :=
  match after_open s with
  | Some rest =>
      match upto_last_close rest with
      | Some t => Some (String "[" t)
      | None => None
      end
  | None => None
  end.

(** [s.match(/\[[\s\S]*?\]/)]: lazy, from the first opening bracket to the
    first closing bracket after it. *)
Definition match_lazy (s : string) : option string :=
  match after_open s with
  | Some rest =>
      match upto_first_close rest with
      | Some t => Some (String "[" t)
      | None => None
      end
  | None => None
  end.

End RegExp.

(** ** [api/src/lib/gemini-cli.ts] *)

Module GeminiCli.
Import JS Json RegExp Sys.

Record PRInfo : Type := mkPRInfo {
  owner : string;
  repo : string;
  pullNumber : N;
  cloneUrl : string
}.

Definition parsePRUrl (url : string) : completion PRInfo :=
  match Github.regex_match url with
  | None => Throw (Error ("Invalid GitHub PR URL: " ++ url))
  | Some (g1, g2, g3) =>
      Return {| owner := g1;
                repo := g2;
                pullNumber := parseInt_digits g3;
                cloneUrl := "https://github.com/" ++ g1 ++ "/" ++ g2 ++ ".git" |}
  end.

(** A number inside a template literal. *)
Definition show (n : N) : string := NilZero.string_of_uint (N.to_uint n).

(** [s.replace(pat, by)] for a string pattern: the first occurrence. *)
Fixpoint replace (pat by_ s : string) : string :=
  match strip_prefix pat s with
  | Some rest => by_ ++ rest
  | None =>
      match s with
      | EmptyString => EmptyString
      | String c s' => String c (replace pat by_ s')
      end
  end.

Definition unlines (ls : list string) : string :=
  String.concat EmptyString (map (fun l => l ++ newline) ls).

(** *** The review context *)

Definition DIFF_LIMIT : nat := 30000.

Definition TRUNCATION_MARKER : string :=
  newline ++ "... [diff truncated due to size]".

Definition truncateDiff (diff : string) : string :=
  if (DIFF_LIMIT <? units diff)%nat
  then substring_to DIFF_LIMIT diff ++ TRUNCATION_MARKER
  else diff.

Definition given (o : option string) : bool :=
  match o with
  | Some s => truthy_string s
  | None => false
  end.

Definition text_of (o : option string) : string :=
  match o with
  | Some s => s
  | None => EmptyString
  end.

Definition contextHead (prTitle prDescription : string)
  (requirementFileName : option string) : string :=
  unlines
    [ "# PR Review Context";
      "";
      "## PR Title";
      prTitle;
      "";
      "## PR Description";
      prDescription;
      "";
      "## Your Task";
      "You are reviewing this Pull Request. Analyze the code changes and provide findings.";
      "";
      if given requirementFileName
      then unlines
             [ "";
               "## Requirements Document";
               "Read the file " ++ dquote ++ text_of requirementFileName ++ dquote
               ++ " in this directory and verify the code changes comply with those requirements." ]
      else "";
      "";
      "## Changes (Diff)";
      "```diff" ].

Definition contextTail (requirementFileName : option string) : string :=
  unlines
    [ "";
      "```";
      "";
      "## Output Format";
      "Return a JSON array of findings. Each finding must have:";
      "- id: " ++ dquote ++ "F1" ++ dquote ++ ", " ++ dquote ++ "F2" ++ dquote ++ ", etc.";
      "- status: " ++ dquote ++ "PASS" ++ dquote ++ ", " ++ dquote ++ "FAIL" ++ dquote
      ++ ", or " ++ dquote ++ "CLARIFY" ++ dquote ++ "  ";
      "- summary: brief description";
      "- reason: explanation for FAIL/CLARIFY";
      "- suggestion: fix suggestion";
      "- evidence: array of { filePath, startLine, endLine }";
      "- confidence: 0 to 1";
      "- proposedComment: GitHub comment text";
      "";
      "Focus on:";
      "1. Code correctness and logic errors";
      "2. Security vulnerabilities";
      "3. Performance issues";
      "4. Best practices violations";
      "5. Missing error handling";
      if given requirementFileName then "6. Requirements compliance" else "";
      "";
      "Return ONLY the JSON array, no other text." ].

(** The text written to [GEMINI.md]. *)
Definition contextContent (prTitle prDescription diff : string)
  (requirementFileName : option string) : string :=
  contextHead prTitle prDescription requirementFileName
  ++ truncateDiff diff
  ++ contextTail requirementFileName.

(** *** Output recovery *)

(** [findings.length]: a [TypeError] on [null]. *)
Definition read_length (v : json) : completion unit :=
  match v with
  | JNull => Throw TypeError
  | _ => Return tt
  end.

(** [text.match(re)], which only a string provides. *)
Definition match_method (text : json) (re : string -> option string)
  : completion (option string) :=
  match text with
  | JStr s => Return (re s)
  | _ => Throw TypeError
  end.

Definition parse_findings (jsonMatch : string) : completion json :=
  bind (JSON_parse jsonMatch) (fun findings =>
  bind (read_length findings) (fun _ =>
  Return findings)).

(** The body of the inner [try]: the whole output as a document, its
    [response] field, else the document itself when it is an array. *)
Definition extract_from_response (stdout : string) : completion json :=
  bind (JSON_parse stdout) (fun response =>
  bind (get_prop response "response") (fun field =>
  let otherwise :=
    if isArray response then Return response else Return (JArr []) in
  match field with
  | Some text =>
      if truthy text then
        bind (match_method text match_greedy) (fun jsonMatch =>
        match jsonMatch with
        | Some m => parse_findings m
        | None => otherwise
        end)
      else otherwise
  | None => otherwise
  end)).

(** The inner [catch]: the first bracketed piece of the raw output. *)
Definition extract_from_raw (stdout : string) : completion json :=
  match match_lazy stdout with
  | Some m => try_catch (parse_findings m) (fun _ => Return (JArr []))
  | None => Return (JArr [])
  end.

Definition recover_output (stdout : string) : completion json :=
  try_catch (extract_from_response stdout) (fun _ => extract_from_raw stdout).

(** [error.stdout] *)
Definition error_stdout (error : exn) : option string :=
  match error with
  | ExecException _ _ out _ => Some out
  | _ => None
  end.

(** The outer [catch]: whatever the failed process had printed. *)
Definition recover_partial (error : exn) : completion json :=
  if given (error_stdout error) then
    match match_lazy (text_of (error_stdout error)) with
    | Some m => try_catch (JSON_parse m) (fun _ => Return (JArr []))
    | None => Return (JArr [])
    end
  else Return (JArr []).

Definition prompt : string :=
  "Read the GEMINI.md file and perform the PR review. Return ONLY a valid JSON array of findings with id, status, summary, reason, suggestion, evidence, confidence, proposedComment fields.".

Definition gemini_command : string :=
  "gemini -p " ++ dquote ++ prompt ++ dquote ++ " --output-format json".

Definition TEN_MB : N := 10 * 1024 * 1024.

Section Pipeline.
Variable Ext : Type.
Variable writable : string -> gmap string node -> bool.
Variable run : string -> ExecOptions -> oracle Ext (string * string).
(** [process.cwd()] *)
Variable process_cwd : string.

Definition TEMP_DIR : string := join process_cwd "temp".

Definition repoDir_of (prInfo : PRInfo) : string :=
  join TEMP_DIR
    (owner prInfo ++ "-" ++ repo prInfo ++ "-pr" ++ show (pullNumber prInfo)).

Definition setupTempDir (prInfo : PRInfo) : M Ext string :=
  let repoDir := repoDir_of prInfo in
  stale ← existsSync repoDir;
  (if stale : bool then rmSync repoDir else mret tt);;
  present ← existsSync TEMP_DIR;
  (if present : bool then mret tt else mkdirSync TEMP_DIR);;
  mret repoDir.

Definition cloneAndCheckoutPR (prInfo : PRInfo) (repoDir : string)
  (githubToken : option string) : M Ext unit :=
  let cloneUrl :=
    if given githubToken
    then replace "https://" ("https://" ++ text_of githubToken ++ "@") (cloneUrl prInfo)
    else cloneUrl prInfo in
  let n := show (pullNumber prInfo) in
  execAsync run ("git clone --depth 50 " ++ cloneUrl ++ " " ++ repoDir)
    (mkExecOptions None None None);;
  execAsync run ("git fetch origin pull/" ++ n ++ "/head:pr-" ++ n)
    (mkExecOptions (Some repoDir) None None);;
  execAsync run ("git checkout pr-" ++ n)
    (mkExecOptions (Some repoDir) None None);;
  mret tt.

Definition diff_command (base : string) : string := "git diff " ++ base.

Definition diff_options (repoDir : string) : ExecOptions :=
  mkExecOptions (Some repoDir) None (Some TEN_MB).

Definition getDiffFromRepo (repoDir : string) : M Ext string :=
  tryM
    (out ← execAsync run (diff_command "origin/main...HEAD") (diff_options repoDir);
     mret out.1)
    (fun _ =>
       tryM
         (out ← execAsync run (diff_command "origin/master...HEAD") (diff_options repoDir);
          mret out.1)
         (fun _ =>
            out ← execAsync run (diff_command "HEAD~1") (diff_options repoDir);
            mret out.1)).

Definition copyRequirementFile (repoDir fileBuffer fileName : string)
  : M Ext string :=
  let destPath := join repoDir ("REQUIREMENTS-" ++ fileName) in
  writeFileSync writable destPath fileBuffer;;
  mret ("REQUIREMENTS-" ++ fileName).

Definition createGeminiContext (repoDir prTitle prDescription diff : string)
  (requirementFileName : option string) : M Ext unit :=
  writeFileSync writable (join repoDir "GEMINI.md")
    (contextContent prTitle prDescription diff requirementFileName).

Definition runGeminiCLI (repoDir : string) : M Ext json :=
  tryM
    (out ← execAsync run gemini_command
              (mkExecOptions (Some repoDir) (Some 120000%N) (Some TEN_MB));
     lift (recover_output out.1))
    (fun error => lift (recover_partial error)).

Definition cleanup (repoDir : string) : M Ext unit :=
  present ← existsSync repoDir;
  if present : bool then rmSync repoDir else mret tt.

Definition reviewWithGeminiCLI (prUrl prTitle prDescription : string)
  (requirementFile : option (string * string)) (githubToken : option string)
  : M Ext json :=
  prInfo ← lift (parsePRUrl prUrl);
  repoDir ← setupTempDir prInfo;
  try_finally
    (cloneAndCheckoutPR prInfo repoDir githubToken;;
     requirementFileName ←
       match requirementFile with
       | Some (buffer, name) =>
           name' ← copyRequirementFile repoDir buffer name; mret (Some name')
       | None => mret None
       end;
     diff ← getDiffFromRepo repoDir;
     createGeminiContext repoDir prTitle prDescription diff requirementFileName;;
     runGeminiCLI repoDir)
    (cleanup repoDir).

End Pipeline.

End GeminiCli.

(** ** [api/src/lib/gemini.ts] *)

Module Gemini.
Import JS Sys Types.

(** *** [generateDraftComment] *)

Definition UserDecision_eqb (a b : UserDecision) : bool :=
  match a, b with
  | APPROVED, APPROVED | DISMISSED, DISMISSED | EDITED, EDITED => true
  | _, _ => false
  end.

(** [f.userDecision === 'APPROVED' || !f.userDecision] *)
Definition approved (f : Finding) : bool :=
  match userDecision f with
  | Some d => UserDecision_eqb d APPROVED
  | None => false
  end
  || match userDecision f with
     | Some _ => false
     | None => true
     end.

Definition status_text (s : FindingStatus) : string :=
  match s with
  | PASS => "PASS"
  | FAIL => "FAIL"
  | CLARIFY => "CLARIFY"
  end.

Definition icon (s : FindingStatus) : string :=
  match s with
  | PASS => "✅"
  | FAIL => "❌"
  | CLARIFY => "❓"
  end.

(** A line number inside a template literal. *)
Definition show_line (z : Z) : string := NilZero.string_of_int (Z.to_int z).

(** A line number is truthy unless it is missing or zero. *)
Definition truthy_line (o : option Z) : bool :=
  match o with
  | Some z => negb (z =? 0)%Z
  | None => false
  end.

Definition line_of (o : option Z) : string :=
  match o with
  | Some z => show_line z
  | None => EmptyString
  end.

Definition truthy_text (o : option string) : bool :=
  match o with
  | Some s => truthy_string s
  | None => false
  end.

Definition text_of (o : option string) : string :=
  match o with
  | Some s => s
  | None => EmptyString
  end.

(** One turn of the loop: [comment] after the additions for [finding]. *)
Definition add_finding (comment : string) (finding : Finding) : string :=
  let comment :=
    comment ++ "### " ++ icon (status finding) ++ " " ++ status_text (status finding)
    ++ ": " ++ summary finding ++ newline in
  let comment :=
    match evidence finding with
    | ev :: _ =>
        let comment := comment ++ "- File: `" ++ filePath ev ++ "`" in
        let comment :=
          if truthy_line (startLine ev)
          then comment ++ " (line " ++ line_of (startLine ev)
               ++ (if truthy_line (endLine ev) then "-" ++ line_of (endLine ev) else "")
               ++ ")"
          else comment in
        comment ++ newline
    | [] => comment
    end in
  let comment :=
    if truthy_text (reason finding)
    then comment ++ "- Reason: " ++ text_of (reason finding) ++ newline
    else comment in
  let comment :=
    if truthy_text (suggestion finding)
    then comment ++ "- Suggestion: " ++ text_of (suggestion finding) ++ newline
    else comment in
  comment ++ newline.

Definition NO_ISSUES : string :=
  "## PR Review" ++ newline ++ newline ++ "✅ No issues found.".

Definition generateDraftComment (findings : list Finding) : string :=
  let approvedFindings := List.filter approved findings in
  if (List.length approvedFindings =? 0)%nat then NO_ISSUES
  else
    fold_left add_finding approvedFindings
      ("## PR Review Summary" ++ newline ++ newline).

(** *** [uploadToFileSearch] *)

Definition TEMP_DIR : string := "/tmp/ai-pr-review".

Definition maxAttempts : nat := 30.

Section FileSearch.
Variable Ext : Type.
Variable writable : string -> gmap string node -> bool.
(** [process.env.GEMINI_API_KEY] *)
Variable GEMINI_API_KEY : option string.
(** [Date.now()] *)
Variable now : oracle Ext N.
(** The long-running operation of the SDK and its [done] flag. *)
Variable Operation : Type.
Variable done : Operation -> bool.
(** [ai.fileSearchStores.create], [ai.fileSearchStores.uploadToFileSearchStore]
    and [ai.operations.get]. *)
Variable create : string -> oracle Ext string.
Variable upload : string -> string -> string -> oracle Ext Operation.
Variable get : Operation -> oracle Ext Operation.

Definition getAI : M Ext unit :=
  if truthy_text GEMINI_API_KEY then mret tt
  else throw (Error "GEMINI_API_KEY environment variable is required").

Definition call {A} (method : string) (o : oracle Ext A) : M Ext A :=
  log (EvCall method);; ask o.

(** [while (!operation.done && attempts < maxAttempts)], with
    [remaining = maxAttempts - attempts]. *)
Fixpoint wait_loop (remaining : nat) (operation : Operation) : M Ext Operation :=
  if negb (done operation) then
    match remaining with
    | O => mret operation
    | S remaining' =>
        sleep 2000;;
        operation' ← call "operations.get" (get operation);
        wait_loop remaining' operation'
    end
  else mret operation.

(** What precedes the [try]: the client, the store, the temporary file. *)
Definition prepare (fileBuffer fileName : string) : M Ext (string * string) :=
  getAI;;
  t0 ← ask now;
  storeName ← call "fileSearchStores.create" (create ("pr-review-" ++ GeminiCli.show t0));
  t1 ← ask now;
  let tempFilePath := join TEMP_DIR (GeminiCli.show t1 ++ "-" ++ fileName) in
  writeFileSync writable tempFilePath fileBuffer;;
  mret (storeName, tempFilePath).

(** The [try ... finally] statement. *)
Definition upload_and_wait (storeName tempFilePath fileName : string)
  : M Ext string :=
  try_finally
    (operation ← call "fileSearchStores.uploadToFileSearchStore"
                   (upload tempFilePath storeName fileName);
     operation ← wait_loop maxAttempts operation;
     if negb (done operation) then throw (Error "File processing timeout")
     else mret storeName)
    (present ← existsSync tempFilePath;
     if present : bool then unlinkSync tempFilePath else mret tt).

Definition uploadToFileSearch (fileBuffer fileName : string) : M Ext string :=
  p ← prepare fileBuffer fileName;
  upload_and_wait p.1 p.2 fileName.

End FileSearch.

End Gemini.

(** ** [api/src/lib/github.ts]: the requests *)

Module GithubApi.
Import JS Sys Github.

(** What the pull-request endpoint answers with: the fields of the
    document that the sources read. A [null] body is [None]. *)
Record PullData : Type := mkPullData {
  data_title : string;
  data_body : option string;
  data_additions : N;
  data_deletions : N;
  data_changed_files : N
}.

(** A [Response]: [ok], [status], [statusText], and what [json()]
    resolves to. *)
Record Response : Type := mkResponse {
  ok : bool;
  status : N;
  statusText : string;
  json : completion PullData
}.

Record PRDetails : Type := mkPRDetails {
  title : string;
  body : string;
  additions : N;
  deletions : N;
  changedFiles : N
}.

Definition apiUrl_of (prInfo : PRInfo) : string :=
  "https://api.github.com/repos/" ++ owner prInfo ++ "/" ++ repo prInfo
  ++ "/pulls/" ++ GeminiCli.show (pullNumber prInfo).

(** The headers object, in insertion order. *)
Definition headers_of (accept : string) (githubToken : option string)
  : list (string * string) :=
  [("Accept", accept); ("User-Agent", "AI-PR-Review-App")]
  ++ (if GeminiCli.given githubToken
      then [("Authorization", "Bearer " ++ GeminiCli.text_of githubToken)]
      else []).

(** [data.body || ''] *)
Definition body_or_empty (b : option string) : string :=
  match b with
  | Some s => if truthy_string s then s else EmptyString
  | None => EmptyString
  end.

Section Requests.
Variable Ext : Type.
(** [fetch(url, { headers })] *)
Variable fetch : string -> list (string * string) -> oracle Ext Response.

Definition request (url : string) (headers : list (string * string))
  : M Ext Response :=
  log (EvCall ("fetch " ++ url));; ask (fetch url headers).

Definition fetchPRDetails (prUrl : string) (githubToken : option string)
  : M Ext PRDetails :=
  prInfo ← lift (parsePRUrl prUrl);
  let apiUrl := apiUrl_of prInfo in
  let headers := headers_of "application/vnd.github.v3+json" githubToken in
  response ← request apiUrl headers;
  if negb (ok response)
  then throw (Error ("Failed to fetch PR details: " ++ GeminiCli.show (status response)
                     ++ " " ++ statusText response))
  else
    data ← lift (json response);
    mret {| title := data_title data;
            body := body_or_empty (data_body data);
            additions := data_additions data;
            deletions := data_deletions data;
            changedFiles := data_changed_files data |}.

End Requests.

End GithubApi.

(** ** [api/src/index.ts] *)

Module Index.
Import JS Sys.

(** The body of a response: [{ error }] or the review result. *)
Inductive payload : Type :=
| ErrorBody (error : string)
| ResultBody (prUrl : string) (findings : Json.json) (talkScript draftComment : string).

Definition NO_FINDINGS_SCRIPT : string :=
  "No issues found in this pull request. Everything looks good!".

(** [findings.length > 0] on the value that the review returned: the
    number of items of an array, the length of a string, a [TypeError] on
    [null], [undefined > 0] on a number or a boolean; an object may have a
    [length] of its own, which [positive] compares with zero. *)
Definition has_items (positive : Json.json -> bool) (findings : Json.json)
  : completion bool :=
  match findings with
  | Json.JNull => Throw TypeError
  | Json.JArr items => Return (negb (List.length items =? 0)%nat)
  | Json.JStr s => Return (truthy_string s)
  | Json.JObj fields =>
      match Json.lookup "length" fields with
      | Some l => Return (positive l)
      | None => Return false
      end
  | _ => Return false
  end.

(** [error instanceof Error ? error.message : 'Unknown error occurred']:
    every exception of the model is an [Error]; the message of the ones that
    carry none here is left to [other_message]. *)
Definition message_of (other_message : exn -> string) (error : exn) : string :=
  match error with
  | Error message => message
  | _ => other_message error
  end.

Section Handler.
Variable Ext : Type.
Variable writable : string -> gmap string node -> bool.
Variable run : string -> ExecOptions -> oracle Ext (string * string).
Variable process_cwd : string.
Variable fetch : string -> list (string * string) -> oracle Ext GithubApi.Response.
(** [process.env.GITHUB_TOKEN] *)
Variable GITHUB_TOKEN : option string.
(** [generateTalkScript] and [generateDraftComment] of [lib/gemini], on the
    findings as the review returned them. *)
Variable generateTalkScript : Json.json -> M Ext string.
Variable generateDraftComment : Json.json -> M Ext string.
Variable other_message : exn -> string.
(** [l > 0] for a value [l] of any type. *)
Variable positive : Json.json -> bool.

(** The handler of [POST /api/submit-pr], from the fields of the form:
    [prUrl] ([None] when the field is absent) and the requirement file, as
    its content and name. It answers with a status code and a body. *)
Definition submit_pr (prUrl : option string) (requirementFile : option (string * string))
  : M Ext (N * payload) :=
  tryM
    (if negb (GeminiCli.given prUrl)
     then mret (400%N, ErrorBody "prUrl is required")
     else
       let prUrl := GeminiCli.text_of prUrl in
       if negb (occurs "github.com" prUrl) || negb (occurs "/pull/" prUrl)
       then mret (400%N, ErrorBody "Invalid GitHub PR URL format")
       else
         prDetails ← GithubApi.fetchPRDetails Ext fetch prUrl GITHUB_TOKEN;
         let requirementFileData :=
           match requirementFile with
           | Some (content, name) =>
               if truthy_string content then Some (content, name) else None
           | None => None
           end in
         findings ← GeminiCli.reviewWithGeminiCLI Ext writable run process_cwd prUrl
                      (GithubApi.title prDetails) (GithubApi.body prDetails)
                      requirementFileData GITHUB_TOKEN;
         nonempty ← lift (has_items positive findings);
         talkScript ← (if nonempty : bool then generateTalkScript findings
                       else mret NO_FINDINGS_SCRIPT);
         draftComment ← generateDraftComment findings;
         mret (200%N, ResultBody prUrl findings talkScript draftComment))
    (fun error => mret (500%N, ErrorBody (message_of other_message error))).

End Handler.

End Index.

(** ** [api/src/lib/gemini.ts]: the review through the API *)

Module GeminiReview.
Import JS Json RegExp Sys.

(** The lines of a template literal, joined by line breaks. *)
Definition lines (ls : list string) : string := String.concat newline ls.

Definition PROMPT_TITLE : string :=
  lines
    [ "You are a senior code reviewer. Review the following Pull Request diff.";
      "";
      "## PR Title";
      "" ].

Definition PROMPT_DESCRIPTION : string :=
  lines
    [ "";
      "";
      "## PR Description";
      "" ].

Definition PROMPT_DIFF : string :=
  lines
    [ "";
      "";
      "## Diff";
      "```diff";
      "" ].

Definition PROMPT_AFTER_DIFF : string :=
  lines
    [ "";
      "```";
      "";
      "" ].

Definition PROMPT_REQUIREMENTS : string :=
  lines
    [ "";
      "## IMPORTANT - Requirements Compliance Check";
      "Use the File Search tool to find relevant requirements from the uploaded requirement document.";
      "Compare the code changes against those requirements and verify compliance.";
      "Each finding should reference specific requirements from the document when applicable.";
      "" ].

Definition PROMPT_INSTRUCTIONS : string :=
  lines
    [ "";
      "";
      "## Instructions";
      "Analyze the code changes and produce a JSON array of findings. Each finding should have:";
      "- id: unique identifier like " ++ dquote ++ "F1" ++ dquote ++ ", " ++ dquote ++ "F2" ++ dquote ++ ", etc.";
      "- status: " ++ dquote ++ "PASS" ++ dquote ++ " if the change is correct, " ++ dquote ++ "FAIL" ++ dquote ++ " if there's an issue, " ++ dquote ++ "CLARIFY" ++ dquote ++ " if more info needed";
      "- summary: brief 1-sentence description";
      "- reason: explanation for FAIL/CLARIFY status";
      "- suggestion: suggested fix for FAIL status";
      "- evidence: array of { filePath, startLine, endLine } showing where the issue is";
      "- confidence: number between 0 and 1";
      "- proposedComment: GitHub-friendly comment text";
      "";
      "Focus on:";
      "1. Code correctness and logic errors";
      "2. Security vulnerabilities  ";
      "3. Performance issues";
      "4. Best practices violations";
      "5. Missing error handling";
      "" ].

Definition PROMPT_COMPLIANCE : string :=
  lines
    [ "6. Requirements compliance - verify code meets the requirements from the document" ].

Definition PROMPT_END : string :=
  lines
    [ "";
      "";
      "Return ONLY a valid JSON array of findings." ].

(** The template literal of [reviewPR]. *)
Definition review_prompt (diff prTitle prDescription : string)
  (fileSearchStoreName : option string) : string :=
  PROMPT_TITLE ++ prTitle
  ++ PROMPT_DESCRIPTION ++ prDescription
  ++ PROMPT_DIFF ++ diff
  ++ PROMPT_AFTER_DIFF
  ++ (if GeminiCli.given fileSearchStoreName then PROMPT_REQUIREMENTS else "")
  ++ PROMPT_INSTRUCTIONS
  ++ (if GeminiCli.given fileSearchStoreName then PROMPT_COMPLIANCE else "")
  ++ PROMPT_END.

(** [config.tools]: the stores of the file search tool, none when the
    configuration has no tool. *)
Definition tools_of (fileSearchStoreName : option string) : list string :=
  if GeminiCli.given fileSearchStoreName
  then [GeminiCli.text_of fileSearchStoreName]
  else [].

(** [response.text || ''] *)
Definition text_or_empty (t : option string) : string :=
  match t with
  | Some s => s
  | None => EmptyString
  end.

Section Review.
Variable Ext : Type.
Variable GEMINI_API_KEY : option string.
(** [ai.models.generateContent({ model, contents, config })], resolving to
    the [text] of the response. *)
Variable generateContent : string -> string -> list string -> oracle Ext (option string).

Definition reviewPR (diff prTitle prDescription : string)
  (fileSearchStoreName : option string) : M Ext json :=
  Gemini.getAI Ext GEMINI_API_KEY;;
  let prompt := review_prompt diff prTitle prDescription fileSearchStoreName in
  response ← Gemini.call Ext "models.generateContent"
               (generateContent "gemini-2.5-flash" prompt (tools_of fileSearchStoreName));
  let text := text_or_empty response in
  match match_greedy text with
  | None => mret (JArr [])
  | Some jsonMatch =>
      lift (try_catch (JSON_parse jsonMatch) (fun _ => Return (JArr [])))
  end.

End Review.

End GeminiReview.

(** ** The review screen of the frontend ([App.tsx]) *)

Module Frontend.
Import JS Types.

Record ReviewResult : Type := mkReviewResult {
  prUrl : string;
  result_findings : list Finding;
  talkScript : option string;
  result_draftComment : option string
}.

(** The state of [ReviewScreen]: its three [useState] cells. *)
Record ReviewScreen : Type := mkReviewScreen {
  isMicActive : bool;
  draftComment : string;
  findings : list Finding
}.

(** The initial values: [result?.draftComment || ''] and
    [result?.findings || []]. *)
Definition mount (result : option ReviewResult) : ReviewScreen :=
  {| isMicActive := false;
     draftComment :=
       match result with
       | Some r => Gemini.text_of (result_draftComment r)
       | None => EmptyString
       end;
     findings :=
       match result with
       | Some r => result_findings r
       | None => []
       end |}.

(** The [action] of a button: ['APPROVED'] or ['DISMISSED']. *)
Inductive FindingAction : Type := ActionApproved | ActionDismissed.

Definition decision_of (action : FindingAction) : UserDecision :=
  match action with
  | ActionApproved => APPROVED
  | ActionDismissed => DISMISSED
  end.

(** [{ ...f, userDecision: action }] *)
Definition with_decision (f : Finding) (action : FindingAction) : Finding :=
  {| id := id f;
     storyId := storyId f;
     criteriaId := criteriaId f;
     status := status f;
     summary := summary f;
     reason := reason f;
     suggestion := suggestion f;
     evidence := evidence f;
     confidence := confidence f;
     proposedComment := proposedComment f;
     userDecision := Some (decision_of action);
     userNote := userNote f |}.

(** [setFindings(prev => prev.map(f => f.id === id ? {...} : f))] *)
Definition handleFindingAction (id' : string) (action : FindingAction)
  (s : ReviewScreen) : ReviewScreen :=
  {| isMicActive := isMicActive s;
     draftComment := draftComment s;
     findings :=
       map (fun f => if String.eqb (id f) id' then with_decision f action else f)
         (findings s) |}.

(** The [onChange] of the text area: [setDraftComment(e.target.value)]. *)
Definition editDraft (value : string) (s : ReviewScreen) : ReviewScreen :=
  {| isMicActive := isMicActive s;
     draftComment := value;
     findings := findings s |}.

End Frontend.

(** * Properties *)

(** ** Strings *)

Section StringFacts.
Import JS.

Lemma append_nil_r (s : string) : s ++ "" = s.
Proof. induction s as [|c s IH]; simpl; [reflexivity | now rewrite IH]. Qed.

Lemma append_assoc (a b c : string) : (a ++ b) ++ c = a ++ b ++ c.
Proof. induction a as [|x a IH]; simpl; [reflexivity | now rewrite IH]. Qed.

Lemma length_append (a b : string) :
  String.length (a ++ b) = (String.length a + String.length b)%nat.
Proof. induction a as [|x a IH]; simpl; [reflexivity | now rewrite IH]. Qed.

Lemma strip_prefix_app (p s : string) : strip_prefix p (p ++ s) = Some s.
Proof.
  induction p as [|c p IH]; simpl; [reflexivity |].
  now rewrite Ascii.eqb_refl.
Qed.

Lemma strip_prefix_Some (p s r : string) : strip_prefix p s = Some r -> s = p ++ r.
Proof.
  revert s; induction p as [|c p IH]; intros s H; simpl in *.
  - congruence.
  - destruct s as [|d s]; [discriminate |].
    destruct (Ascii.eqb c d) eqn:E; [| discriminate].
    apply Ascii.eqb_eq in E; subst d. now rewrite (IH _ H).
Qed.

Lemma span_app (p : ascii -> bool) (s a b : string) :
  span p s = (a, b) -> s = a ++ b /\ forallb_string p a = true.
Proof.
  revert a b; induction s as [|c s IH]; intros a b H; simpl in H.
  - inversion H; subst; auto.
  - destruct (p c) eqn:E.
    + destruct (span p s) as [a' b'] eqn:S. inversion H; subst.
      destruct (IH _ _ eq_refl) as [-> Hall]. simpl. rewrite E, Hall. auto.
    + inversion H; subst; auto.
Qed.

(** The head of [s] does not satisfy [p]. *)
Definition stops (p : ascii -> bool) (s : string) : bool :=
  match s with
  | EmptyString => true
  | String c _ => negb (p c)
  end.

Lemma span_exact (p : ascii -> bool) (a b : string) :
  forallb_string p a = true -> stops p b = true -> span p (a ++ b) = (a, b).
Proof.
  intros Ha Hb; induction a as [|c a IH]; simpl in *.
  - destruct b as [|d b]; [reflexivity |]. simpl in *.
    now destruct (p d).
  - apply andb_true_iff in Ha as [Hc Ha]. now rewrite Hc, (IH Ha).
Qed.

Lemma span_maximal (p : ascii -> bool) (s a b : string) :
  span p s = (a, b) -> stops p b = true.
Proof.
  revert a b; induction s as [|c s IH]; intros a b H; simpl in H.
  - now inversion H.
  - destruct (p c) eqn:E.
    + destruct (span p s) as [a' b'] eqn:S. inversion H; subst. eauto.
    + inversion H; subst. simpl. now rewrite E.
Qed.

Lemma span_longer (p : ascii -> bool) (a b : string) :
  forallb_string p a = true ->
  exists t, fst (span p (a ++ b)) = a ++ t /\ forallb_string p t = true.
Proof.
  intros Ha; induction a as [|c a IH]; simpl in *.
  - exists (fst (span p b)). split; [reflexivity |].
    destruct (span p b) as [x y] eqn:S. now apply span_app in S.
  - apply andb_true_iff in Ha as [Hc Ha]. rewrite Hc.
    destruct (IH Ha) as [t [Ht Hall]].
    destruct (span p (a ++ b)) as [x y]. simpl in *. subst x. eauto.
Qed.

Lemma truthy_append (a b : string) :
  truthy_string a = true -> truthy_string (a ++ b) = true.
Proof. now destruct a. Qed.

Lemma width_cases (c : ascii) : width c = 0%nat \/ width c = 1%nat \/ width c = 2%nat.
Proof.
  unfold width.
  destruct (N_of_ascii c <? 128)%N; [now right; left |].
  destruct (N_of_ascii c <? 192)%N; [now left |].
  destruct (N_of_ascii c <? 240)%N; [now right; left | now right; right].
Qed.

Lemma units_append (a b : string) : units (a ++ b) = (units a + units b)%nat.
Proof. induction a as [|x a IH]; simpl; [reflexivity | rewrite IH; lia]. Qed.

Lemma substring_to_units (n : nat) (s : string) :
  units (substring_to n s) = Nat.min n (units s).
Proof.
  revert n; induction s as [|c s IH]; intros n; cbn [substring_to units].
  - lia.
  - cbv zeta. destruct (Nat.leb_spec (width c) n) as [L|L].
    + cbn [units]. rewrite IH. lia.
    + destruct (Nat.eqb_spec n 0) as [->|N0]; [reflexivity |].
      destruct (width_cases c) as [W|[W|W]]; rewrite W in *; try lia.
      assert (n = 1%nat) as -> by lia. reflexivity.
Qed.

Lemma substring_to_all (n : nat) (s : string) :
  (units s <= n)%nat -> substring_to n s = s.
Proof.
  revert n; induction s as [|c s IH]; intros n H; cbn [substring_to units] in *.
  - reflexivity.
  - cbv zeta. destruct (Nat.leb_spec (width c) n) as [L|L]; [| lia].
    rewrite IH; [reflexivity | lia].
Qed.

End StringFacts.

(** ** Reference resolution *)

Section ReferenceResolution.
Import JS Github.

Definition segment_ok (s : string) : bool :=
  truthy_string s && forallb_string not_slash s.

Definition number_ok (s : string) : bool :=
  truthy_string s && forallb_string is_digit s.

(** A string that holds the pattern: [pre], the host, owner, repository,
    the number, and whatever follows. *)
Definition locator (pre o r ds rest : string) : string :=
  pre ++ "github.com/" ++ o ++ "/" ++ r ++ "/pull/" ++ ds ++ rest.

Lemma occurs_tail (p : string) (c : ascii) (s : string) :
  occurs p (String c s) = false -> occurs p s = false.
Proof.
  simpl. destruct (strip_prefix p (String c s)); [discriminate | auto].
Qed.

Lemma occurs_head (p s : string) :
  occurs p s = false -> strip_prefix p s = None.
Proof.
  destruct s; simpl; destruct (strip_prefix p _); auto; discriminate.
Qed.

Ltac split_eqb E :=
  repeat (match type of E with context [Ascii.eqb ?a ?b] =>
            let H := fresh "H" in
            destruct (Ascii.eqb a b) eqn:H;
            try (vm_compute in H; discriminate H); try discriminate E end).

(** The host name has no border: an occurrence cannot begin inside [pre]
    and end inside the occurrence that follows [pre]. *)
Lemma host_not_straddling (pre x : string) :
  pre <> "" -> occurs "github.com/" pre = false ->
  strip_prefix "github.com/" (pre ++ "github.com/" ++ x) = None.
Proof.
  intros Hne Hocc. apply occurs_head in Hocc.
  destruct (strip_prefix "github.com/" (pre ++ "github.com/" ++ x)) eqn:E;
    [exfalso | reflexivity].
  do 11 (destruct pre as [|? pre];
         [ try congruence; cbn -[Ascii.eqb] in E; split_eqb E; fail |]).
  cbn -[Ascii.eqb] in E, Hocc.
  split_eqb E. discriminate Hocc.
Qed.

Lemma regex_match_skips (pre x : string) :
  occurs "github.com/" pre = false ->
  regex_match (pre ++ "github.com/" ++ x) = regex_match ("github.com/" ++ x).
Proof.
  induction pre as [|c pre IH]; intros Hocc; [reflexivity |].
  change (regex_match ((String c pre) ++ "github.com/" ++ x))
    with (match match_here (String c pre ++ "github.com/" ++ x) with
          | Some m => Some m
          | None => regex_match (pre ++ "github.com/" ++ x)
          end).
  unfold match_here at 1.
  rewrite host_not_straddling by (congruence || assumption).
  apply IH. eapply occurs_tail; eassumption.
Qed.

Lemma segment_ok_inv (s : string) :
  segment_ok s = true -> truthy_string s = true /\ forallb_string not_slash s = true.
Proof. unfold segment_ok. now rewrite andb_true_iff. Qed.

Lemma number_ok_inv (s : string) :
  number_ok s = true -> truthy_string s = true /\ forallb_string is_digit s = true.
Proof. unfold number_ok. now rewrite andb_true_iff. Qed.

(** At the host, the groups are the two slash-free runs and the longest run
    of digits. *)
Lemma match_here_locator (o r ds rest : string) :
  segment_ok o = true -> segment_ok r = true -> number_ok ds = true ->
  match_here (locator "" o r ds rest)
  = Some (o, r, fst (span is_digit (ds ++ rest))).
Proof.
  intros [Ho1 Ho2]%segment_ok_inv [Hr1 Hr2]%segment_ok_inv [Hd1 Hd2]%number_ok_inv.
  change (locator "" o r ds rest)
    with ("github.com/" ++ o ++ "/" ++ r ++ "/pull/" ++ ds ++ rest).
  unfold match_here.
  rewrite strip_prefix_app.
  rewrite (span_exact not_slash o) by (assumption || reflexivity).
  rewrite Ho1. rewrite (strip_prefix_app "/").
  rewrite (span_exact not_slash r) by (assumption || reflexivity).
  rewrite Hr1. rewrite (strip_prefix_app "/pull/").
  destruct (span_longer is_digit ds rest Hd2) as [t [Ht _]].
  destruct (span is_digit (ds ++ rest)) as [g3 r6]. simpl in *. subst g3.
  now rewrite (truthy_append _ _ Hd1).
Qed.

Lemma match_here_sound (s o r ds : string) :
  match_here s = Some (o, r, ds) ->
  exists rest, s = locator "" o r ds rest
               /\ segment_ok o = true /\ segment_ok r = true /\ number_ok ds = true.
Proof.
  unfold match_here, locator, segment_ok, number_ok. intros H.
  destruct (strip_prefix "github.com/" s) as [r1|] eqn:E1; [| discriminate].
  destruct (span not_slash r1) as [g1 r2] eqn:S1.
  destruct (truthy_string g1) eqn:T1; [| discriminate].
  destruct (strip_prefix "/" r2) as [r3|] eqn:E2; [| discriminate].
  destruct (span not_slash r3) as [g2 r4] eqn:S2.
  destruct (truthy_string g2) eqn:T2; [| discriminate].
  destruct (strip_prefix "/pull/" r4) as [r5|] eqn:E3; [| discriminate].
  destruct (span is_digit r5) as [g3 r6] eqn:S3.
  destruct (truthy_string g3) eqn:T3; [| discriminate].
  inversion H; subst; clear H.
  apply strip_prefix_Some in E1, E2, E3.
  apply span_app in S1 as [-> A1], S2 as [-> A2], S3 as [-> A3].
  exists r6. subst. rewrite T1, T2, T3, A1, A2, A3.
  cbn [String.append]. repeat split; reflexivity.
Qed.

Lemma regex_match_sound (s o r ds : string) :
  regex_match s = Some (o, r, ds) ->
  exists pre rest, s = locator pre o r ds rest
                   /\ segment_ok o = true /\ segment_ok r = true /\ number_ok ds = true.
Proof.
  induction s as [|c s IH]; intros H.
  - simpl in H. discriminate.
  - change (regex_match (String c s))
      with (match match_here (String c s) with
            | Some m => Some m
            | None => regex_match s
            end) in H.
    destruct (match_here (String c s)) as [m|] eqn:E.
    + inversion H; subst. apply match_here_sound in E as [rest [E ?]].
      exists "", rest. auto.
    + destruct (IH H) as [pre [rest [-> ?]]].
      exists (String c pre), rest. auto.
Qed.

Lemma regex_match_complete (pre o r ds rest : string) :
  segment_ok o = true -> segment_ok r = true -> number_ok ds = true ->
  regex_match (locator pre o r ds rest) <> None.
Proof.
  intros Ho Hr Hd. induction pre as [|c pre IH].
  - pose proof (match_here_locator o r ds rest Ho Hr Hd) as M.
    destruct (locator "" o r ds rest); cbn [regex_match]; rewrite M; discriminate.
  - change (locator (String c pre) o r ds rest)
      with (String c (locator pre o r ds rest)).
    change (regex_match (String c (locator pre o r ds rest)))
      with (match match_here (String c (locator pre o r ds rest)) with
            | Some m => Some m
            | None => regex_match (locator pre o r ds rest)
            end).
    destruct (match_here _); [discriminate | exact IH].
Qed.

Lemma regex_match_leftmost (pre o r ds rest : string) :
  occurs "github.com/" pre = false ->
  segment_ok o = true -> segment_ok r = true -> number_ok ds = true ->
  stops is_digit rest = true ->
  regex_match (locator pre o r ds rest) = Some (o, r, ds).
Proof.
  intros Hpre Ho Hr Hd Hrest. unfold locator.
  rewrite regex_match_skips by assumption.
  pose proof (match_here_locator o r ds rest Ho Hr Hd) as M.
  apply number_ok_inv in Hd as [_ Hd].
  rewrite (span_exact is_digit ds rest Hd Hrest) in M. simpl in M.
  unfold locator in M. cbn [String.append] in M |- *.
  cbn [regex_match]. now rewrite M.
Qed.

(** The pattern matches at the start of [s]. *)
Definition begins (s : string) : Prop :=
  exists o r ds rest,
    s = locator "" o r ds rest
    /\ segment_ok o = true /\ segment_ok r = true /\ number_ok ds = true.

(** The pattern matches at no position of [pre ++ tail] that lies in [pre]. *)
Definition leftmost (pre tail : string) : Prop :=
  forall a b, pre = a ++ b -> b <> "" -> ~ begins (b ++ tail).

Lemma match_here_begins (s : string) : match_here s <> None <-> begins s.
Proof.
  split.
  - destruct (match_here s) as [[[o r] ds]|] eqn:E; [intros _ | congruence].
    apply match_here_sound in E as (rest & E & ?). exists o, r, ds, rest. auto.
  - intros (o & r & ds & rest & -> & Ho & Hr & Hd).
    rewrite (match_here_locator o r ds rest Ho Hr Hd). discriminate.
Qed.

Lemma regex_match_cons (c : ascii) (s : string) :
  regex_match (String c s)
  = match match_here (String c s) with
    | Some m => Some m
    | None => regex_match s
    end.
Proof. reflexivity. Qed.

Lemma regex_match_here (s : string) (m : string * string * string) :
  match_here s = Some m -> regex_match s = Some m.
Proof. intros E. destruct s; cbn [regex_match]; now rewrite E. Qed.

Lemma leftmost_tail (c : ascii) (pre tail : string) :
  leftmost (String c pre) tail -> leftmost pre tail.
Proof. intros L a b -> B. now apply (L (String c a) b). Qed.

Lemma regex_match_skips_unmatched (pre tail : string) :
  leftmost pre tail -> regex_match (pre ++ tail) = regex_match tail.
Proof.
  induction pre as [|c pre IH]; intros L; [reflexivity |].
  cbn [append]. rewrite regex_match_cons.
  destruct (match_here (String c (pre ++ tail))) eqn:E.
  - exfalso. apply (L "" (String c pre) eq_refl); [discriminate |].
    apply match_here_begins. cbn [append]. congruence.
  - apply IH. eapply leftmost_tail; eassumption.
Qed.

Lemma no_host_leftmost (pre x : string) :
  occurs "github.com/" pre = false -> leftmost pre ("github.com/" ++ x).
Proof.
  intros Hocc a b -> B (o & r & ds & rest & E & _).
  assert (occurs "github.com/" b = false) as Hb.
  { clear -Hocc. induction a as [|c a IH]; [exact Hocc |].
    apply IH. eapply occurs_tail. exact Hocc. }
  pose proof (host_not_straddling b x B Hb) as S.
  rewrite E in S.
  change (locator "" o r ds rest)
    with ("github.com/" ++ o ++ "/" ++ r ++ "/pull/" ++ ds ++ rest) in S.
  rewrite strip_prefix_app in S. discriminate.
Qed.

(** Whether the pattern matches somewhere in [pre], decided by search. *)
Fixpoint matches_within (pre tail : string) : bool :=
  match pre with
  | EmptyString => false
  | String c pre' =>
      match match_here (pre ++ tail) with
      | Some _ => true
      | None => matches_within pre' tail
      end
  end.

Lemma leftmost_by_search (pre tail : string) :
  matches_within pre tail = false -> leftmost pre tail.
Proof.
  induction pre as [|c pre IH]; intros H a b E B.
  - destruct a; [| discriminate]. cbn [append] in E. congruence.
  - cbn [matches_within] in H.
    destruct (match_here (String c pre ++ tail)) eqn:M; [discriminate |].
    destruct a as [|x a]; cbn [append] in E.
    + subst b. intros G. apply match_here_begins in G. congruence.
    + injection E as -> ->. now apply (IH H a b).
Qed.

Lemma regex_match_leftmost_sound (s o r ds : string) :
  regex_match s = Some (o, r, ds) ->
  exists pre rest,
    s = locator pre o r ds rest
    /\ segment_ok o = true /\ segment_ok r = true /\ number_ok ds = true
    /\ stops is_digit rest = true
    /\ leftmost pre (locator "" o r ds rest).
Proof.
  induction s as [|c s IH]; intros H; [discriminate |].
  rewrite regex_match_cons in H.
  destruct (match_here (String c s)) as [m|] eqn:E.
  - injection H as ->. pose proof E as E'.
    apply match_here_sound in E as (rest & E & Ho & Hr & Hd).
    exists "", rest. repeat (split; [assumption |]). split.
    + rewrite E in E'. rewrite (match_here_locator o r ds rest Ho Hr Hd) in E'.
      injection E' as E'.
      destruct (span is_digit (ds ++ rest)) as [g3 r6] eqn:S. cbn [fst] in E'. subst g3.
      pose proof (span_maximal _ _ _ _ S) as Hs.
      apply span_app in S as [S _].
      assert (r6 = rest) as ->; [| exact Hs].
      clear -S. induction ds as [|x ds IHd]; cbn [append] in S; [congruence |].
      injection S as S. auto.
    + intros a b Eab B. destruct a; destruct b; cbn [append] in Eab; congruence.
  - destruct (IH H) as (pre & rest & -> & Ho & Hr & Hd & Hs & L).
    exists (String c pre), rest. repeat (split; [try reflexivity; assumption |]).
    intros a b Eab B. destruct a as [|x a]; cbn [append] in Eab.
    + subst b. intros G. apply match_here_begins in G.
      apply G. exact E.
    + injection Eab as -> ->. now apply (L a b).
Qed.

(** The form of the specification, [.../<owner>/<repo>/pull/<n>] on the
    host: the segments between slashes, read from the end. *)
Fixpoint split_slash (s : string) : list string :=
  match s with
  | EmptyString => [EmptyString]
  | String c s' =>
      if Ascii.eqb c "/" then EmptyString :: split_slash s'
      else
        match split_slash s' with
        | h :: t => String c h :: t
        | [] => [String c EmptyString]
        end
  end.

Definition spec_locator_form (s : string) : bool :=
  match rev (split_slash s) with
  | n :: p :: r :: o :: h :: _ =>
      number_ok n && String.eqb p "pull" && truthy_string r && truthy_string o
      && String.eqb h "github.com"
  | _ => false
  end.

Definition holds_pattern (url : string) : Prop :=
  exists pre o r ds rest,
    url = locator pre o r ds rest
    /\ segment_ok o = true /\ segment_ok r = true /\ number_ok ds = true.

(** C7, as amended. A string that holds the pattern
    [github.com/<owner>/<repo>/pull/<digits>], whatever precedes or follows
    it, resolves to the owner, repository and number of the leftmost match,
    whose digits run as far as they go (the number is exact below 2^53); this
    includes a locator with a trailing [/files], and one in which the host
    name occurs before the match. What is resolved is always read off the
    string in that way. A string that does not hold the pattern is refused
    with the invalid-URL error. Both copies of [parsePRUrl] agree. *)
Theorem parsePRUrl_resolves_pattern :
  (forall pre o r ds rest,
      segment_ok o = true -> segment_ok r = true -> number_ok ds = true ->
      stops is_digit rest = true ->
      leftmost pre (locator "" o r ds rest) ->
      (parseInt_digits ds < MAX_SAFE)%N ->
      Github.parsePRUrl (locator pre o r ds rest)
      = Return (Github.mkPRInfo o r (parseInt_digits ds))
      /\ GeminiCli.parsePRUrl (locator pre o r ds rest)
         = Return (GeminiCli.mkPRInfo o r (parseInt_digits ds)
                     ("https://github.com/" ++ o ++ "/" ++ r ++ ".git")))
  /\ (forall pre o r ds rest,
        occurs "github.com/" pre = false -> leftmost pre (locator "" o r ds rest))
  /\ (forall url info,
        Github.parsePRUrl url = Return info ->
        GeminiCli.parsePRUrl url
        = Return (GeminiCli.mkPRInfo (Github.owner info) (Github.repo info)
                    (Github.pullNumber info)
                    ("https://github.com/" ++ Github.owner info ++ "/"
                     ++ Github.repo info ++ ".git"))
        /\ exists pre ds rest,
             url = locator pre (Github.owner info) (Github.repo info) ds rest
             /\ segment_ok (Github.owner info) = true
             /\ segment_ok (Github.repo info) = true
             /\ number_ok ds = true
             /\ stops is_digit rest = true
             /\ leftmost pre (locator "" (Github.owner info) (Github.repo info) ds rest)
             /\ Github.pullNumber info = parseInt_digits ds)
  /\ (forall url,
        holds_pattern url <-> exists info, Github.parsePRUrl url = Return info)
  /\ (forall url,
        ~ holds_pattern url ->
        Github.parsePRUrl url = Throw (Error ("Invalid GitHub PR URL: " ++ url))
        /\ GeminiCli.parsePRUrl url
           = Throw (Error ("Invalid GitHub PR URL: " ++ url))).
Proof.
  split; [| split; [| split; [| split]]].
  - intros pre o r ds rest Ho Hr Hd Hrest L _.
    unfold Github.parsePRUrl, GeminiCli.parsePRUrl.
    change (locator pre o r ds rest) with (pre ++ locator "" o r ds rest).
    rewrite (regex_match_skips_unmatched _ _ L).
    pose proof (match_here_locator o r ds rest Ho Hr Hd) as M.
    apply number_ok_inv in Hd as [_ Hd].
    rewrite (span_exact is_digit ds rest Hd Hrest) in M. cbn [fst] in M.
    now rewrite (regex_match_here _ _ M).
  - intros pre o r ds rest. apply no_host_leftmost.
  - intros url info H. unfold Github.parsePRUrl, GeminiCli.parsePRUrl in *.
    destruct (regex_match url) as [[[g1 g2] g3]|] eqn:E; [| discriminate].
    injection H as <-. cbn [Github.owner Github.repo Github.pullNumber].
    split; [reflexivity |].
    apply regex_match_leftmost_sound in E as (pre & rest & E & ? & ? & ? & ? & ?).
    exists pre, g3, rest. auto 10.
  - intros url; split.
    + intros (pre & o & r & ds & rest & -> & Ho & Hr & Hd).
      pose proof (regex_match_complete pre o r ds rest Ho Hr Hd) as C.
      unfold Github.parsePRUrl.
      destruct (regex_match (locator pre o r ds rest)) as [[[g1 g2] g3]|];
        [eauto | congruence].
    + intros [info H]. unfold Github.parsePRUrl in H.
      destruct (regex_match url) as [[[g1 g2] g3]|] eqn:E; [| discriminate].
      apply regex_match_sound in E as (pre & rest & E & ?).
      exists pre, g1, g2, g3, rest. auto.
  - intros url Hno. unfold Github.parsePRUrl, GeminiCli.parsePRUrl.
    destruct (regex_match url) as [[[g1 g2] g3]|] eqn:E; [| auto].
    exfalso. apply Hno. apply regex_match_sound in E as (pre & rest & E & ?).
    exists pre, g1, g2, g3, rest. auto.
Qed.

(** A plain locator, and one in which the host name occurs before the
    match. *)
Lemma parsePRUrl_resolves_acme :
  (Github.parsePRUrl "https://github.com/acme/widgets/pull/42"
   = Return (Github.mkPRInfo "acme" "widgets" 42)
   /\ GeminiCli.parsePRUrl "https://github.com/acme/widgets/pull/42"
      = Return (GeminiCli.mkPRInfo "acme" "widgets" 42
                  "https://github.com/acme/widgets.git"))
  /\ (Github.parsePRUrl
        "https://github.com/login?return_to=https://github.com/acme/widgets/pull/42"
      = Return (Github.mkPRInfo "acme" "widgets" 42)
      /\ GeminiCli.parsePRUrl
           "https://github.com/login?return_to=https://github.com/acme/widgets/pull/42"
         = Return (GeminiCli.mkPRInfo "acme" "widgets" 42
                     "https://github.com/acme/widgets.git")).
Proof.
  split.
  - exact (proj1 parsePRUrl_resolves_pattern "https://" "acme" "widgets" "42" ""
             eq_refl eq_refl eq_refl eq_refl
             (no_host_leftmost "https://" _ eq_refl) eq_refl).
  - exact (proj1 parsePRUrl_resolves_pattern
             "https://github.com/login?return_to=https://" "acme" "widgets" "42" ""
             eq_refl eq_refl eq_refl eq_refl
             (leftmost_by_search "https://github.com/login?return_to=https://" _ eq_refl)
             eq_refl).
Defined.

(** C7: the locator with [/files], which the comment above [parsePRUrl] lists
    as supported, is not of the form [.../<owner>/<repo>/pull/<n>] and
    resolves all the same; so does a number followed by other text. *)
Lemma parsePRUrl_accepts_longer_locators :
  spec_locator_form "https://github.com/acme/widgets/pull/42/files" = false
  /\ Github.parsePRUrl "https://github.com/acme/widgets/pull/42/files"
     = Return (Github.mkPRInfo "acme" "widgets" 42)
  /\ spec_locator_form "https://github.com/acme/widgets/pull/42abc" = false
  /\ Github.parsePRUrl "https://github.com/acme/widgets/pull/42abc"
     = Return (Github.mkPRInfo "acme" "widgets" 42).
Proof. repeat split; reflexivity. Qed.

Example spec_locator_form_acme :
  spec_locator_form "https://github.com/acme/widgets/pull/42" = true.
Proof. reflexivity. Qed.

Example parsePRUrl_rejects :
  Github.parsePRUrl "https://github.com/acme/widgets/issues/42"
  = Throw (Error "Invalid GitHub PR URL: https://github.com/acme/widgets/issues/42")
  /\ Github.parsePRUrl "https://github.com/acme/widgets/pull/abc"
     = Throw (Error "Invalid GitHub PR URL: https://github.com/acme/widgets/pull/abc")
  /\ Github.parsePRUrl "https://gitlab.com/acme/widgets/pull/42"
     = Throw (Error "Invalid GitHub PR URL: https://gitlab.com/acme/widgets/pull/42").
Proof. repeat split; reflexivity. Qed.

End ReferenceResolution.

(** ** The size cap of the diff in the review context *)

Section DiffCap.
Import JS Sys GeminiCli.

(** The next character begins at the head of [s]. *)
Definition boundary (s : string) : bool :=
  match s with
  | EmptyString => true
  | String c _ => negb (width c =? 0)%nat
  end.

(** [kept] is the first [n] characters of [s], as JavaScript counts them: it
    takes [n] units, and either it is the text of [s] up to the start of a
    character, or one unit was left for a character of two, and [kept] is the
    text before that character followed by the replacement character. *)
Definition first_units (n : nat) (s kept : string) : Prop :=
  units kept = n
  /\ ((exists rest, s = kept ++ rest /\ boundary rest = true)
      \/ (exists whole c rest,
            kept = whole ++ REPLACEMENT /\ s = whole ++ String c rest /\ width c = 2%nat)).

Lemma substring_to_first (n : nat) (s : string) :
  (n <= units s)%nat -> first_units n s (substring_to n s).
Proof.
  intros H. split; [rewrite substring_to_units; lia |].
  revert n H; induction s as [|c s IH]; intros n H; cbn [substring_to units] in *.
  - left. now exists "".
  - cbv zeta. destruct (Nat.leb_spec (width c) n) as [L|L].
    + destruct (IH (n - width c)%nat ltac:(lia)) as [(rest & E & B)|(whole & d & rest & K & E & W)].
      * left. exists rest. split; [| exact B]. cbn [append]. now rewrite <- E.
      * right. exists (String c whole), d, rest. cbn [append].
        split; [now rewrite K |]. split; [now rewrite <- E | exact W].
    + destruct (Nat.eqb_spec n 0) as [->|N0].
      * left. exists (String c s). split; [reflexivity |]. cbn [boundary].
        destruct (Nat.eqb_spec (width c) 0) as [W|W]; [lia | reflexivity].
      * right. exists "", c, s. split; [reflexivity |]. split; [reflexivity |].
        destruct (width_cases c) as [W|[W|W]]; lia.
Qed.

Lemma truncateDiff_short (diff : string) :
  (units diff <= DIFF_LIMIT)%nat -> truncateDiff diff = diff.
Proof.
  intros H. unfold truncateDiff.
  destruct (Nat.ltb_spec DIFF_LIMIT (units diff)); [lia | reflexivity].
Qed.

Lemma truncateDiff_long (diff : string) :
  (DIFF_LIMIT < units diff)%nat ->
  truncateDiff diff = substring_to DIFF_LIMIT diff ++ TRUNCATION_MARKER.
Proof.
  intros H. unfold truncateDiff.
  destruct (Nat.ltb_spec DIFF_LIMIT (units diff)); [reflexivity | lia].
Qed.

Lemma truncateDiff_units (diff : string) :
  (units (truncateDiff diff) <= DIFF_LIMIT + units TRUNCATION_MARKER)%nat.
Proof.
  unfold truncateDiff.
  destruct (Nat.ltb_spec DIFF_LIMIT (units diff)) as [H|H].
  - rewrite units_append, substring_to_units. lia.
  - lia.
Qed.

(** A diff of [n] characters of one byte, and one of [n] characters of [k]
    bytes that begin with [lead]. *)
Definition sample_diff (n : nat) : string := Nat.iter n (String "+") EmptyString.

Definition wide_diff (lead : nat) (k n : nat) : string :=
  Nat.iter n
    (fun s => String (ascii_of_nat lead) (Nat.iter k (String (ascii_of_nat 128)) s))
    EmptyString.

(** C5. When [GEMINI.md] can be written, [createGeminiContext] writes it, in
    the workspace, with the diff between the head and the tail of the
    template, capped at 30,000 characters as JavaScript counts them ([length],
    in UTF-16 code units): a diff of at most 30,000 is there unchanged, with
    no marker; a longer one is cut to its first 30,000, followed by the
    marker; what stands there is never longer than 30,000 plus the 33 of the
    marker. A cut that falls inside a character of two units leaves the
    replacement character in the file for its first half. *)
Theorem diff_in_context_is_capped (Ext : Type)
  (writable : string -> gmap string node -> bool)
  (repoDir prTitle prDescription diff : string)
  (requirementFileName : option string) (w : World Ext) :
  writable (join repoDir "GEMINI.md") (fs w) = true ->
  let after :=
    createGeminiContext Ext writable repoDir prTitle prDescription diff
      requirementFileName w in
  let shown := truncateDiff diff in
  after.2 = Return tt
  /\ fs after.1 !! join repoDir "GEMINI.md"
     = Some (File (contextHead prTitle prDescription requirementFileName
                   ++ shown ++ contextTail requirementFileName))
  /\ DIFF_LIMIT = 30000%nat
  /\ ((units diff <= DIFF_LIMIT)%nat -> shown = diff)
  /\ ((DIFF_LIMIT < units diff)%nat ->
      exists kept, shown = kept ++ TRUNCATION_MARKER /\ first_units DIFF_LIMIT diff kept)
  /\ (units shown <= DIFF_LIMIT + units TRUNCATION_MARKER)%nat
  /\ units TRUNCATION_MARKER = 33%nat.
Proof.
  intros W after shown. subst after shown.
  unfold createGeminiContext, writeFileSync. rewrite W. cbn [fst snd fs].
  split; [reflexivity |].
  split; [apply lookup_insert_eq |].
  split; [reflexivity |].
  split; [apply truncateDiff_short |].
  split; [| split; [apply truncateDiff_units | reflexivity]].
  intros H. exists (substring_to DIFF_LIMIT diff).
  split; [now apply truncateDiff_long |].
  apply substring_to_first. lia.
Qed.

Lemma diff_in_context_is_capped_long :
  exists kept,
    truncateDiff (sample_diff 30001) = kept ++ TRUNCATION_MARKER
    /\ first_units DIFF_LIMIT (sample_diff 30001) kept.
Proof.
  apply (proj1 (proj2 (proj2 (proj2 (proj2
           (diff_in_context_is_capped unit (fun _ _ => true) "/srv/api/temp/acme-widgets-pr42"
              "title" "description" (sample_diff 30001) None
              (mkWorld ∅ tt []) eq_refl)))))).
  apply Nat.ltb_lt. vm_compute. reflexivity.
Defined.

(** At the limit and around it; a diff of 15,001 letters of two bytes is not
    cut, one of 15,001 characters of four bytes is, and one of a letter and
    15,000 such characters is cut inside the last of them. *)
Example truncateDiff_at_limit :
  String.eqb (truncateDiff (sample_diff 30000)) (sample_diff 30000) = true
  /\ String.eqb (truncateDiff (sample_diff 30001))
       (sample_diff 30000 ++ TRUNCATION_MARKER) = true
  /\ String.eqb (truncateDiff (wide_diff 195 1 15001)) (wide_diff 195 1 15001) = true
  /\ String.eqb (truncateDiff (wide_diff 240 3 15001))
       (wide_diff 240 3 15000 ++ TRUNCATION_MARKER) = true
  /\ String.eqb (truncateDiff ("+" ++ wide_diff 240 3 15000))
       ("+" ++ wide_diff 240 3 14999 ++ REPLACEMENT ++ TRUNCATION_MARKER) = true.
Proof.
  do 4 (split; [vm_compute; reflexivity |]). vm_compute; reflexivity.
Qed.

End DiffCap.

(** ** The draft comment *)

Section DraftComment.
Import JS Types Gemini.

(** What one included finding contributes to the comment. *)
Definition block (f : Finding) : string := add_finding EmptyString f.

Definition SUMMARY_HEAD : string := "## PR Review Summary" ++ newline ++ newline.

Definition blocks (fs : list Finding) : string :=
  String.concat EmptyString (map block fs).

Lemma add_finding_appends (comment : string) (f : Finding) :
  add_finding comment f = comment ++ block f.
Proof.
  unfold block, add_finding.
  destruct (evidence f) as [|ev evs];
    destruct (truthy_text (reason f)), (truthy_text (suggestion f));
    try destruct (truthy_line (startLine ev));
    cbv zeta; repeat rewrite append_assoc; reflexivity.
Qed.

Lemma concat_cons (x : string) (xs : list string) :
  String.concat "" (x :: xs) = x ++ String.concat "" xs.
Proof.
  destruct xs as [|y ys]; simpl; [now rewrite append_nil_r | reflexivity].
Qed.

Lemma concat_app (xs ys : list string) :
  String.concat "" (xs ++ ys) = String.concat "" xs ++ String.concat "" ys.
Proof.
  induction xs as [|x xs IH]; [reflexivity |].
  change ((x :: xs) ++ ys)%list with (x :: (xs ++ ys))%list.
  now rewrite !concat_cons, IH, append_assoc.
Qed.

Lemma fold_add_finding (fs : list Finding) (comment : string) :
  fold_left add_finding fs comment = comment ++ blocks fs.
Proof.
  unfold blocks. revert comment; induction fs as [|f fs IH]; intros comment.
  - simpl. now rewrite append_nil_r.
  - cbn [fold_left map]. rewrite IH, add_finding_appends, concat_cons.
    now rewrite append_assoc.
Qed.

Lemma approved_iff (f : Finding) :
  approved f = true <-> userDecision f = Some APPROVED \/ userDecision f = None.
Proof.
  unfold approved. destruct (userDecision f) as [[]|]; simpl; split;
    intros H; try discriminate; auto;
    destruct H as [H|H]; try discriminate; inversion H.
Qed.

Lemma generateDraftComment_render (findings : list Finding) :
  generateDraftComment findings
  = match List.filter approved findings with
    | [] => NO_ISSUES
    | included => SUMMARY_HEAD ++ blocks included
    end.
Proof.
  unfold generateDraftComment.
  destruct (List.filter approved findings) as [|f fs] eqn:E; [reflexivity |].
  cbn [length Nat.eqb]. apply fold_add_finding.
Qed.

(** A finding that the filter refuses leaves no trace in the comment. *)
Lemma generateDraftComment_skips (before after : list Finding) (f : Finding) :
  approved f = false ->
  generateDraftComment (before ++ f :: after) = generateDraftComment (before ++ after).
Proof.
  intros H. rewrite !generateDraftComment_render.
  rewrite !List.filter_app. cbn [List.filter]. now rewrite H.
Qed.

Lemma generateDraftComment_shows (findings : list Finding) (f : Finding) :
  In f findings -> approved f = true ->
  exists before after,
    generateDraftComment findings = before ++ block f ++ after.
Proof.
  intros Hin Happ.
  assert (Hf : In f (List.filter approved findings)) by (apply filter_In; auto).
  rewrite generateDraftComment_render.
  apply in_split in Hf as [l1 [l2 E]]. rewrite E.
  destruct (l1 ++ f :: l2)%list eqn:E'; [now destruct l1 |].
  rewrite <- E'. unfold blocks.
  rewrite map_app, concat_app. cbn [map]. rewrite concat_cons.
  exists (SUMMARY_HEAD ++ String.concat "" (map block l1)),
         (String.concat "" (map block l2)).
  now rewrite !append_assoc.
Qed.

(** The text of one finding in the comment: its heading, the line of its
    first evidence entry, its reason and its suggestion where it has them,
    and an empty line. *)
Definition heading (f : Finding) : string :=
  "### " ++ icon (status f) ++ " " ++ status_text (status f) ++ ": " ++ summary f
  ++ newline.

Definition lines_shown (ev : Evidence) : string :=
  if truthy_line (startLine ev)
  then " (line " ++ line_of (startLine ev)
       ++ (if truthy_line (endLine ev) then "-" ++ line_of (endLine ev) else "")
       ++ ")"
  else "".

Definition file_line (f : Finding) : string :=
  match evidence f with
  | ev :: _ => "- File: `" ++ filePath ev ++ "`" ++ lines_shown ev ++ newline
  | [] => ""
  end.

Definition reason_line (f : Finding) : string :=
  if truthy_text (reason f) then "- Reason: " ++ text_of (reason f) ++ newline else "".

Definition suggestion_line (f : Finding) : string :=
  if truthy_text (suggestion f)
  then "- Suggestion: " ++ text_of (suggestion f) ++ newline
  else "".

Definition entry (f : Finding) : string :=
  heading f ++ file_line f ++ reason_line f ++ suggestion_line f ++ newline.

Definition entries (fs : list Finding) : string :=
  String.concat EmptyString (map entry fs).

Lemma add_finding_entry (comment : string) (f : Finding) :
  add_finding comment f = comment ++ entry f.
Proof.
  unfold add_finding, entry, heading, file_line, reason_line, suggestion_line,
    lines_shown.
  destruct (evidence f) as [|ev evs];
    destruct (truthy_text (reason f)), (truthy_text (suggestion f));
    try destruct (truthy_line (startLine ev));
    cbv zeta; repeat rewrite append_assoc; cbn [append];
    repeat rewrite append_assoc; reflexivity.
Qed.

Lemma block_entry (f : Finding) : block f = entry f.
Proof. unfold block. now rewrite add_finding_entry. Qed.

Lemma blocks_entries (fs : list Finding) : blocks fs = entries fs.
Proof.
  unfold blocks, entries. induction fs as [|f fs IH]; [reflexivity |].
  cbn [map]. now rewrite !concat_cons, IH, block_entry.
Qed.

Lemma summary_is_not_no_issues (s : string) : SUMMARY_HEAD ++ s <> NO_ISSUES.
Proof. intros H. cbv in H. discriminate H. Qed.

(** C8. The comment is built from exactly the findings whose decision is
    APPROVED or unset, in their order: when there is one, the comment is the
    summary heading followed by the text of each of them, so each of them
    appears and a DISMISSED finding contributes nothing (the comment is the
    same without it); when there is none, and only then, the comment is the
    literal no-issues message. The comment is determined by the findings
    that are included: lists with the same included findings give the same
    comment. *)
Theorem draft_comment_from_approved_or_undecided (findings : list Finding) :
  (forall f, approved f = true
             <-> userDecision f = Some APPROVED \/ userDecision f = None)
  /\ generateDraftComment findings
     = match List.filter approved findings with
       | [] => "## PR Review" ++ newline ++ newline ++ "✅ No issues found."
       | included => "## PR Review Summary" ++ newline ++ newline ++ entries included
       end
  /\ (forall f, In f findings ->
                userDecision f = Some APPROVED \/ userDecision f = None ->
                exists before after,
                  generateDraftComment findings = before ++ entry f ++ after)
  /\ (forall before f after,
         findings = (before ++ f :: after)%list ->
         userDecision f = Some DISMISSED ->
         generateDraftComment findings = generateDraftComment (before ++ after))
  /\ ((forall f, In f findings -> approved f = false)
      <-> generateDraftComment findings
          = "## PR Review" ++ newline ++ newline ++ "✅ No issues found.")
  /\ (forall findings',
        List.filter approved findings' = List.filter approved findings ->
        generateDraftComment findings' = generateDraftComment findings).
Proof.
  split; [apply approved_iff |].
  split.
  { rewrite generateDraftComment_render.
    destruct (List.filter approved findings); [reflexivity |].
    now rewrite blocks_entries. }
  split.
  { intros f Hin Hd. rewrite <- block_entry.
    apply generateDraftComment_shows; [assumption |]. now apply approved_iff. }
  split.
  { intros before f after -> Hd. apply generateDraftComment_skips.
    unfold approved. now rewrite Hd. }
  split.
  { rewrite generateDraftComment_render. split.
    - intros Hnone.
      destruct (List.filter approved findings) as [|f fs] eqn:E; [reflexivity |].
      assert (Hf : In f (List.filter approved findings)) by (rewrite E; now left).
      apply filter_In in Hf as [Hin Happ]. rewrite (Hnone f Hin) in Happ.
      discriminate.
    - intros H f Hin. destruct (approved f) eqn:A; [exfalso | reflexivity].
      assert (Hf : In f (List.filter approved findings)) by (apply filter_In; auto).
      destruct (List.filter approved findings) as [|g gs]; [destruct Hf |].
      exact (summary_is_not_no_issues _ H). }
  intros findings' E. now rewrite !generateDraftComment_render, E.
Qed.

Definition sample_finding (name : string) (d : option UserDecision) : Finding :=
  {| id := name;
     storyId := None;
     criteriaId := None;
     status := FAIL;
     summary := "Missing null check";
     reason := Some "The handler reads a field of an optional value";
     suggestion := None;
     evidence := [mkEvidence "src/a.ts" (Some 10%Z) (Some 12%Z)];
     confidence := 9 # 10;
     proposedComment := "Please add a null check";
     userDecision := d;
     userNote := None |}.

Lemma draft_comment_drops_dismissed :
  generateDraftComment
    [sample_finding "F1" None; sample_finding "F2" (Some DISMISSED);
     sample_finding "F3" (Some APPROVED)]
  = generateDraftComment [sample_finding "F1" None; sample_finding "F3" (Some APPROVED)].
Proof.
  exact (proj1 (proj2 (proj2 (proj2
           (draft_comment_from_approved_or_undecided
              [sample_finding "F1" None; sample_finding "F2" (Some DISMISSED);
               sample_finding "F3" (Some APPROVED)]))))
           [sample_finding "F1" None] (sample_finding "F2" (Some DISMISSED))
           [sample_finding "F3" (Some APPROVED)] eq_refl eq_refl).
Defined.

Example draft_comment_sample :
  generateDraftComment [sample_finding "F1" None]
  = "## PR Review Summary" ++ newline ++ newline
    ++ "### ❌ FAIL: Missing null check" ++ newline
    ++ "- File: `src/a.ts` (line 10-12)" ++ newline
    ++ "- Reason: The handler reads a field of an optional value" ++ newline
    ++ newline.
Proof. reflexivity. Qed.

(** C10. A finding whose decision is EDITED is refused by the filter, which
    admits APPROVED and unset only; it contributes nothing to the comment,
    exactly like a DISMISSED one. *)
Theorem edited_finding_is_left_out (before after : list Finding) (f : Finding) :
  userDecision f = Some EDITED ->
  approved f = false
  /\ generateDraftComment (before ++ f :: after)
     = generateDraftComment (before ++ after)
  /\ generateDraftComment [f] = NO_ISSUES.
Proof.
  intros Hd.
  assert (H : approved f = false) by (unfold approved; now rewrite Hd).
  split; [exact H |].
  split; [now apply generateDraftComment_skips |].
  unfold generateDraftComment. cbn [List.filter]. now rewrite H.
Qed.

Lemma edited_finding_is_left_out_sample :
  approved (sample_finding "F2" (Some EDITED)) = false
  /\ generateDraftComment
       ([sample_finding "F1" None] ++ sample_finding "F2" (Some EDITED) :: [])
     = generateDraftComment ([sample_finding "F1" None] ++ [])
  /\ generateDraftComment [sample_finding "F2" (Some EDITED)] = NO_ISSUES.
Proof.
  apply (edited_finding_is_left_out [sample_finding "F1" None] []
           (sample_finding "F2" (Some EDITED))).
  reflexivity.
Defined.

End DraftComment.

(** ** The fuel of the parser *)

Section JsonFuel.
Import JS Json.

Lemma skip_ws_length (s : string) : (String.length (skip_ws s) <= String.length s)%nat.
Proof.
  induction s as [|c s IH]; cbn [skip_ws]; [lia |].
  destruct (is_ws c); cbn [String.length]; lia.
Qed.

Lemma strip_prefix_length (p s r : string) :
  strip_prefix p s = Some r -> String.length s = (String.length p + String.length r)%nat.
Proof. intros H. apply strip_prefix_Some in H. subst. apply length_append. Qed.

Lemma span_length (p : ascii -> bool) (s a b : string) :
  span p s = (a, b) -> String.length s = (String.length a + String.length b)%nat.
Proof. intros H. apply span_app in H as [-> _]. apply length_append. Qed.

Lemma parse_escape_consumes (s e r : string) :
  parse_escape s = Some (e, r) -> (String.length r < String.length s)%nat.
Proof.
  destruct s as [|c s]; [discriminate |]. unfold parse_escape.
  destruct c as [[] [] [] [] [] [] [] []]; cbn;
    try discriminate; try (intros H; inversion H; subst; lia).
  destruct s as [|h1 [|h2 [|h3 [|h4 s]]]]; try discriminate.
  destruct (hex_value h1), (hex_value h2), (hex_value h3), (hex_value h4);
    try discriminate.
  intros H; inversion H; subst. cbn [String.length]. lia.
Qed.

Lemma parse_chars_consumes (fuel : nat) (s t r : string) :
  parse_chars fuel s = Some (t, r) -> (String.length r < String.length s)%nat.
Proof.
  revert s t r; induction fuel as [|fuel IH]; intros s t r; [discriminate |].
  cbn [parse_chars]. destruct s as [|c s]; [discriminate |].
  destruct (nat_of_ascii c =? 34)%nat.
  { intros H; inversion H; subst. cbn [String.length]. lia. }
  destruct (nat_of_ascii c =? 92)%nat.
  { destruct (parse_escape s) as [[e s1]|] eqn:E; [| discriminate].
    destruct (parse_chars fuel s1) as [[t1 r1]|] eqn:C; [| discriminate].
    intros H; inversion H; subst.
    apply parse_escape_consumes in E. apply IH in C. cbn [String.length]. lia. }
  destruct (nat_of_ascii c <? 32)%nat; [discriminate |].
  destruct (parse_chars fuel s) as [[t1 r1]|] eqn:C; [| discriminate].
  intros H; inversion H; subst. apply IH in C. cbn [String.length]. lia.
Qed.

Lemma parse_chars_stable (f1 : nat) (s : string) (f2 : nat) :
  (String.length s + 1 <= f1)%nat -> (f1 <= f2)%nat ->
  parse_chars f1 s = parse_chars f2 s.
Proof.
  revert s f2; induction f1 as [|f1 IH]; intros s [|f2] H1 H2; try lia.
  cbn [parse_chars]. destruct s as [|c s]; [reflexivity |].
  cbn [String.length] in H1.
  destruct (nat_of_ascii c =? 34)%nat; [reflexivity |].
  destruct (nat_of_ascii c =? 92)%nat.
  - destruct (parse_escape s) as [[e s1]|] eqn:E; [| reflexivity].
    apply parse_escape_consumes in E. rewrite (IH s1 f2) by lia. reflexivity.
  - destruct (nat_of_ascii c <? 32)%nat; [reflexivity |].
    rewrite (IH s f2) by lia. reflexivity.
Qed.

(** The fuel of [parse_string] is enough as well. *)
Lemma parse_string_adequate (s : string) (fuel : nat) :
  (String.length s + 1 <= fuel)%nat -> parse_chars fuel s = parse_string s.
Proof.
  intros H. unfold parse_string. symmetry. apply parse_chars_stable; lia.
Qed.

Lemma parse_int_consumes (s ds r : string) :
  parse_int s = Some (ds, r) -> (String.length r < String.length s)%nat.
Proof.
  unfold parse_int. destruct (span is_digit s) as [a b] eqn:S.
  apply span_length in S.
  destruct a as [|c [|d a]]; [discriminate | |].
  - intros H; inversion H; subst. cbn [String.length] in S. lia.
  - destruct (Ascii.eqb c "0"); [discriminate |].
    intros H; inversion H; subst. cbn [String.length] in S. lia.
Qed.

Lemma parse_frac_consumes (s ds r : string) :
  parse_frac s = Some (ds, r) -> (String.length r <= String.length s)%nat.
Proof.
  unfold parse_frac. destruct (strip_prefix "." s) as [rest|] eqn:P.
  - apply strip_prefix_length in P.
    destruct (span is_digit rest) as [a b] eqn:S. apply span_length in S.
    destruct (truthy_string a); [| discriminate].
    intros H; inversion H; subst. lia.
  - intros H; inversion H; subst. lia.
Qed.

Lemma parse_sign_consumes (plus : bool) (s : string) :
  (String.length (parse_sign plus s).2 <= String.length s)%nat.
Proof.
  unfold parse_sign. destruct (strip_prefix "-" s) as [r|] eqn:P.
  - apply strip_prefix_length in P. cbn [snd]. lia.
  - destruct plus; [| cbn [snd]; lia].
    destruct (strip_prefix "+" s) as [r|] eqn:Q; cbn [snd]; [| lia].
    apply strip_prefix_length in Q. lia.
Qed.

Lemma parse_exp_consumes (s r : string) (e : Z) :
  parse_exp s = Some (e, r) -> (String.length r <= String.length s)%nat.
Proof.
  unfold parse_exp. destruct s as [|c s]; [intros H; inversion H; lia |].
  destruct (Ascii.eqb c "e" || Ascii.eqb c "E");
    [| intros H; inversion H; subst; lia].
  pose proof (parse_sign_consumes true s) as Hs.
  destruct (parse_sign true s) as [neg s1]. cbn [snd] in Hs.
  destruct (span is_digit s1) as [a b] eqn:S. apply span_length in S.
  destruct (truthy_string a); [| discriminate].
  intros H; inversion H; subst. cbn [String.length]. lia.
Qed.

Lemma parse_number_consumes (s r : string) (q : Q) :
  parse_number s = Some (q, r) -> (String.length r < String.length s)%nat.
Proof.
  unfold parse_number.
  pose proof (parse_sign_consumes false s) as Hs.
  destruct (parse_sign false s) as [neg s1]. cbn [snd] in Hs.
  destruct (parse_int s1) as [[ip s2]|] eqn:I; [| discriminate].
  destruct (parse_frac s2) as [[fp s3]|] eqn:F; [| discriminate].
  destruct (parse_exp s3) as [[e s4]|] eqn:E; [| discriminate].
  apply parse_int_consumes in I. apply parse_frac_consumes in F.
  apply parse_exp_consumes in E.
  intros H; inversion H; subst. lia.
Qed.

Lemma parse_literal_consumes (lit : string) (v v' : json) (s r : string) :
  lit <> "" -> parse_literal lit v s = Some (v', r) -> (String.length r < String.length s)%nat.
Proof.
  intros Hne. unfold parse_literal.
  destruct (strip_prefix lit s) as [rest|] eqn:P; [| discriminate].
  apply strip_prefix_length in P. intros H; inversion H; subst.
  destruct lit; [congruence |]. cbn [String.length] in P. lia.
Qed.

Lemma parse_string_consumes (s t r : string) :
  parse_string s = Some (t, r) -> (String.length r < String.length s)%nat.
Proof. apply parse_chars_consumes. Qed.

(** A value takes at least one character; elements and members, which
    begin after their opening bracket, take at least one as well. *)
Lemma parse_consumes (fuel : nat) :
  (forall s v r, parse_value fuel s = Some (v, r) -> (String.length r < String.length s)%nat)
  /\ (forall s vs r, parse_elements fuel s = Some (vs, r) -> (String.length r < String.length s)%nat)
  /\ (forall s fs r, parse_members fuel s = Some (fs, r) -> (String.length r < String.length s)%nat).
Proof.
  induction fuel as [|fuel (IHv & IHe & IHm)];
    [repeat split; intros; discriminate |].
  split; [| split].
  - intros s v r. cbn [parse_value].
    pose proof (skip_ws_length s) as Hs.
    destruct (skip_ws s) as [|c rest]; [discriminate |].
    cbn [String.length] in Hs.
    destruct (classify c).
    + pose proof (skip_ws_length rest) as Hr.
      destruct (strip_prefix "]" (skip_ws rest)) as [rest'|] eqn:P.
      * apply strip_prefix_length in P. intros H; inversion H; subst. lia.
      * destruct (parse_elements fuel rest) as [[items rest']|] eqn:E; [| discriminate].
        apply IHe in E. intros H; inversion H; subst. lia.
    + pose proof (skip_ws_length rest) as Hr.
      destruct (strip_prefix "}" (skip_ws rest)) as [rest'|] eqn:P.
      * apply strip_prefix_length in P. intros H; inversion H; subst. lia.
      * destruct (parse_members fuel rest) as [[fields rest']|] eqn:E; [| discriminate].
        apply IHm in E. intros H; inversion H; subst. lia.
    + destruct (parse_string rest) as [[str rest']|] eqn:E; [| discriminate].
      apply parse_string_consumes in E. intros H; inversion H; subst. lia.
    + intros H. apply parse_literal_consumes in H; [| discriminate].
      cbn [String.length] in H. lia.
    + intros H. apply parse_literal_consumes in H; [| discriminate].
      cbn [String.length] in H. lia.
    + intros H. apply parse_literal_consumes in H; [| discriminate].
      cbn [String.length] in H. lia.
    + destruct (parse_number (String c rest)) as [[q rest']|] eqn:E; [| discriminate].
      apply parse_number_consumes in E. cbn [String.length] in E.
      intros H; inversion H; subst. lia.
  - intros s vs r. cbn [parse_elements].
    destruct (parse_value fuel s) as [[v rest]|] eqn:V; [| discriminate].
    apply IHv in V. pose proof (skip_ws_length rest) as Hr.
    destruct (strip_prefix "," (skip_ws rest)) as [rest'|] eqn:P.
    + apply strip_prefix_length in P.
      destruct (parse_elements fuel rest') as [[vs' rest'']|] eqn:E; [| discriminate].
      apply IHe in E. intros H; inversion H; subst. lia.
    + destruct (strip_prefix "]" (skip_ws rest)) as [rest'|] eqn:Q; [| discriminate].
      apply strip_prefix_length in Q. intros H; inversion H; subst. lia.
  - intros s fs r. cbn [parse_members].
    pose proof (skip_ws_length s) as Hs.
    destruct (strip_prefix dquote (skip_ws s)) as [rest|] eqn:P0; [| discriminate].
    apply strip_prefix_length in P0.
    destruct (parse_string rest) as [[key rest1]|] eqn:K; [| discriminate].
    apply parse_string_consumes in K.
    pose proof (skip_ws_length rest1) as H1.
    destruct (strip_prefix ":" (skip_ws rest1)) as [rest2|] eqn:P1; [| discriminate].
    apply strip_prefix_length in P1.
    destruct (parse_value fuel rest2) as [[v rest3]|] eqn:V; [| discriminate].
    apply IHv in V. pose proof (skip_ws_length rest3) as H3.
    destruct (strip_prefix "," (skip_ws rest3)) as [rest4|] eqn:P3.
    + apply strip_prefix_length in P3.
      destruct (parse_members fuel rest4) as [[fs' rest5]|] eqn:E; [| discriminate].
      apply IHm in E. intros H; inversion H; subst. lia.
    + destruct (strip_prefix "}" (skip_ws rest3)) as [rest4|] eqn:Q; [| discriminate].
      apply strip_prefix_length in Q. intros H; inversion H; subst. lia.
Qed.

(** Past twice the length of the text, more fuel changes nothing. *)
Lemma parse_fuel_stable (f1 : nat) :
  (forall s f2, (2 * String.length s + 1 <= f1)%nat -> (f1 <= f2)%nat ->
                parse_value f1 s = parse_value f2 s)
  /\ (forall s f2, (2 * String.length s + 2 <= f1)%nat -> (f1 <= f2)%nat ->
                   parse_elements f1 s = parse_elements f2 s)
  /\ (forall s f2, (2 * String.length s + 2 <= f1)%nat -> (f1 <= f2)%nat ->
                   parse_members f1 s = parse_members f2 s).
Proof.
  induction f1 as [|f1 (IHv & IHe & IHm)]; [repeat split; intros; lia |].
  split; [| split].
  - intros s [|f2] H1 H2; [lia |]. cbn [parse_value].
    pose proof (skip_ws_length s) as Hs.
    destruct (skip_ws s) as [|c rest]; [reflexivity |].
    cbn [String.length] in Hs.
    rewrite (IHe rest f2) by lia. rewrite (IHm rest f2) by lia. reflexivity.
  - intros s [|f2] H1 H2; [lia |]. cbn [parse_elements].
    rewrite (IHv s f2) by lia.
    destruct (parse_value f2 s) as [[v rest]|] eqn:V; [| reflexivity].
    apply (proj1 (parse_consumes f2)) in V.
    pose proof (skip_ws_length rest) as Hr.
    destruct (strip_prefix "," (skip_ws rest)) as [rest'|] eqn:P; [| reflexivity].
    apply strip_prefix_length in P. cbn [String.length] in P.
    rewrite (IHe rest' f2) by lia. reflexivity.
  - intros s [|f2] H1 H2; [lia |]. cbn [parse_members].
    pose proof (skip_ws_length s) as Hs.
    destruct (strip_prefix dquote (skip_ws s)) as [rest|] eqn:P0; [| reflexivity].
    apply strip_prefix_length in P0.
    destruct (parse_string rest) as [[key rest1]|] eqn:K; [| reflexivity].
    apply parse_string_consumes in K.
    pose proof (skip_ws_length rest1) as Hr1.
    destruct (strip_prefix ":" (skip_ws rest1)) as [rest2|] eqn:P1; [| reflexivity].
    apply strip_prefix_length in P1.
    rewrite (IHv rest2 f2) by lia.
    destruct (parse_value f2 rest2) as [[v rest3]|] eqn:V; [| reflexivity].
    apply (proj1 (parse_consumes f2)) in V.
    pose proof (skip_ws_length rest3) as Hr3.
    destruct (strip_prefix "," (skip_ws rest3)) as [rest4|] eqn:P3; [| reflexivity].
    apply strip_prefix_length in P3. cbn [String.length] in P3.
    rewrite (IHm rest4 f2) by lia. reflexivity.
Qed.

(** The fuel that [parse] provides is enough: any larger amount gives the
    same value, or the same refusal. *)
Theorem parse_fuel_adequate (text : string) (fuel : nat) :
  (2 * String.length text + 2 <= fuel)%nat ->
  parse_value fuel text = parse_value (2 * String.length text + 2) text.
Proof.
  intros H. symmetry. apply (proj1 (parse_fuel_stable (2 * String.length text + 2))); lia.
Qed.

Example parse_numbers :
  parse "-1.5e+2" = Some (JNum (-150 # 1))
  /\ parse "1E-2" = Some (JNum (1 # 100))
  /\ parse "0" = Some (JNum 0)
  /\ parse "+1" = None /\ parse "-" = None /\ parse "1e" = None
  /\ parse "1." = None /\ parse "01" = None /\ parse ".5" = None
  /\ parse "[1,]" = None /\ parse "[1 2]" = None /\ parse "nul" = None
  /\ parse " [ ] " = Some (JArr []) /\ parse "{}" = Some (JObj []).
Proof. repeat split; vm_compute; reflexivity. Qed.

End JsonFuel.

(** ** Output recovery *)

Section OutputRecovery.
Import JS Json RegExp Types Sys GeminiCli.

(** *** Sample outputs of the review engine *)

Definition quoted (s : string) : string := dquote ++ s ++ dquote.

Definition member (key value : string) : string := quoted key ++ ":" ++ value.

(** The text of a string inside a JSON string literal. *)
Fixpoint escape (s : string) : string :=
  match s with
  | EmptyString => EmptyString
  | String c s' =>
      if (nat_of_ascii c =? 34)%nat || (nat_of_ascii c =? 92)%nat
      then String (ascii_of_nat 92) (String c (escape s'))
      else String c (escape s')
  end.

Definition evidence_text : string :=
  "[{" ++ member "filePath" (quoted "src/a.ts") ++ "," ++ member "startLine" "10"
  ++ "," ++ member "endLine" "12" ++ "}]".

Definition finding_text (name : string) : string :=
  "{" ++ member "id" (quoted name) ++ ","
  ++ member "status" (quoted "FAIL") ++ ","
  ++ member "summary" (quoted "Missing null check") ++ ","
  ++ member "evidence" evidence_text ++ ","
  ++ member "confidence" "0.9" ++ ","
  ++ member "proposedComment" (quoted "Please add a null check") ++ "}".

Definition finding_value (name : string) : json :=
  JObj [ ("id", JStr name);
         ("status", JStr "FAIL");
         ("summary", JStr "Missing null check");
         ("evidence",
          JArr [JObj [("filePath", JStr "src/a.ts");
                      ("startLine", JNum (10 # 1));
                      ("endLine", JNum (12 # 1))]]);
         ("confidence", JNum (9 # 10));
         ("proposedComment", JStr "Please add a null check") ].

(** A document whose [response] field holds the findings amid other text. *)
Definition wrapped_output : string :=
  "{" ++ member "response"
           (quoted (escape ("noise [" ++ finding_text "F1" ++ "] noise")))
  ++ "}".

(** The findings as the whole output. *)
Definition direct_output : string := "[" ++ finding_text "F2" ++ "]".

Definition not_json : string := "not json at all".

(** A finding outside the schema: unknown status, confidence above one,
    no summary, no evidence, no comment. *)
Definition invalid_finding_text : string :=
  "{" ++ member "id" (quoted "F9") ++ "," ++ member "status" (quoted "BOGUS")
  ++ "," ++ member "confidence" "1.5" ++ "}".

Definition invalid_finding_value : json :=
  JObj [("id", JStr "F9"); ("status", JStr "BOGUS"); ("confidence", JNum (3 # 2))].

Definition mixed_output : string :=
  "[" ++ finding_text "F1" ++ "," ++ invalid_finding_text ++ "]".

Example sample_outputs_parse :
  parse direct_output = Some (JArr [finding_value "F2"])
  /\ parse wrapped_output
     = Some (JObj [("response", JStr ("noise [" ++ finding_text "F1" ++ "] noise"))])
  /\ parse not_json = None
  /\ parse mixed_output = Some (JArr [finding_value "F1"; invalid_finding_value])
  /\ FindingSchema (finding_value "F1") = true
  /\ FindingSchema invalid_finding_value = false.
Proof. repeat split; vm_compute; reflexivity. Qed.

(** *** What a text that opens with a bracket parses to *)

Lemma parse_value_open_bracket (fuel : nat) (t rest : string) (v : json) :
  parse_value fuel (String "[" t) = Some (v, rest) -> isArray v = true.
Proof.
  destruct fuel as [|fuel]; [discriminate |].
  cbn [parse_value].
  change (skip_ws (String "[" t)) with (String "[" t).
  cbv beta iota.
  change (classify "[") with OpenBracket. cbv beta iota.
  destruct (strip_prefix "]" (skip_ws t)) as [rest'|].
  - intros H; inversion H; reflexivity.
  - destruct (parse_elements fuel t) as [[items rest']|]; [| discriminate].
    intros H; inversion H; reflexivity.
Qed.

Lemma parse_open_bracket (t : string) (v : json) :
  parse (String "[" t) = Some v -> exists items, v = JArr items.
Proof.
  unfold parse.
  destruct (parse_value _ (String "[" t)) as [[v' rest]|] eqn:E; [| discriminate].
  apply parse_value_open_bracket in E.
  destruct (skip_ws rest); [| discriminate].
  intros H; inversion H; subst. destruct v; try discriminate. eauto.
Qed.

Lemma match_lazy_opens (s m : string) :
  match_lazy s = Some m -> exists t, m = String "[" t.
Proof.
  unfold match_lazy. destruct (after_open s); [| discriminate].
  destruct (upto_first_close _); [| discriminate].
  intros H; inversion H; eauto.
Qed.

Lemma match_greedy_opens (s m : string) :
  match_greedy s = Some m -> exists t, m = String "[" t.
Proof.
  unfold match_greedy. destruct (after_open s); [| discriminate].
  destruct (upto_last_close _); [| discriminate].
  intros H; inversion H; eauto.
Qed.

(** [JSON.parse] of a bracketed match, followed by the read of [length]. *)
Lemma parse_findings_bracket (t : string) :
  parse_findings (String "[" t)
  = match parse (String "[" t) with
    | Some v => Return v
    | None => Throw SyntaxError
    end.
Proof.
  unfold parse_findings, JSON_parse.
  destruct (parse (String "[" t)) as [v|] eqn:E; [| reflexivity].
  apply parse_open_bracket in E as [items ->]. reflexivity.
Qed.

Definition is_sequence (c : completion json) : Prop :=
  exists items, c = Return (JArr items).

Lemma empty_is_sequence : is_sequence (Return (JArr [])).
Proof. now exists []. Qed.

Lemma parsed_bracket_is_sequence (t : string) (v : json) :
  parse (String "[" t) = Some v -> is_sequence (Return v).
Proof. intros [items ->]%parse_open_bracket. now exists items. Qed.

(** *** The three stages *)

(** The inner [catch], spelled out. *)
Lemma extract_from_raw_eq (stdout : string) :
  extract_from_raw stdout
  = match match_lazy stdout with
    | Some m =>
        match parse m with
        | Some v => Return v
        | None => Return (JArr [])
        end
    | None => Return (JArr [])
    end.
Proof.
  unfold extract_from_raw.
  destruct (match_lazy stdout) as [m|] eqn:E; [| reflexivity].
  destruct (match_lazy_opens _ _ E) as [t ->].
  rewrite parse_findings_bracket. now destruct (parse (String "[" t)).
Qed.

Lemma extract_from_raw_sequence (stdout : string) :
  is_sequence (extract_from_raw stdout).
Proof.
  rewrite extract_from_raw_eq.
  destruct (match_lazy stdout) as [m|] eqn:E; [| apply empty_is_sequence].
  destruct (match_lazy_opens _ _ E) as [t ->].
  destruct (parse (String "[" t)) as [v|] eqn:P; [| apply empty_is_sequence].
  eapply parsed_bracket_is_sequence; eassumption.
Qed.

Lemma extract_from_response_sequence (stdout : string) (v : json) :
  extract_from_response stdout = Return v -> is_sequence (Return v).
Proof.
  unfold extract_from_response, JSON_parse.
  destruct (parse stdout) as [response|]; [| discriminate].
  cbn [bind].
  assert (Hother : forall v,
             (if isArray response then Return response else Return (JArr [])) = Return v ->
             is_sequence (Return v)).
  { intros v'. destruct response; cbn [isArray]; intros H; inversion H; subst;
      solve [apply empty_is_sequence | eexists; reflexivity]. }
  destruct (get_prop response "response") as [[text|]|]; cbn [bind];
    [| apply Hother | discriminate].
  destruct (truthy text); [| apply Hother].
  destruct text; cbn [match_method bind]; try discriminate.
  destruct (match_greedy s) as [m|] eqn:G; [| apply Hother].
  destruct (match_greedy_opens _ _ G) as [t ->].
  rewrite parse_findings_bracket.
  destruct (parse (String "[" t)) eqn:P; [| discriminate].
  intros H; inversion H; subst. eapply parsed_bracket_is_sequence; eassumption.
Qed.

Lemma recover_output_sequence (stdout : string) :
  is_sequence (recover_output stdout).
Proof.
  unfold recover_output, try_catch.
  destruct (extract_from_response stdout) as [v|e] eqn:E.
  - eapply extract_from_response_sequence; eassumption.
  - apply extract_from_raw_sequence.
Qed.

(** The outer [catch], spelled out. *)
Lemma recover_partial_eq (error : exn) :
  recover_partial error
  = match error_stdout error with
    | Some out =>
        match match_lazy out with
        | Some m =>
            match parse m with
            | Some v => Return v
            | None => Return (JArr [])
            end
        | None => Return (JArr [])
        end
    | None => Return (JArr [])
    end.
Proof.
  unfold recover_partial, given.
  destruct (error_stdout error) as [out|]; [| reflexivity].
  destruct out as [|c out]; [reflexivity |].
  cbn [truthy_string text_of].
  destruct (match_lazy (String c out)); [| reflexivity].
  unfold try_catch, JSON_parse. now destruct (parse _).
Qed.

Lemma recover_partial_sequence (error : exn) :
  is_sequence (recover_partial error).
Proof.
  rewrite recover_partial_eq.
  destruct (error_stdout error) as [out|]; [| apply empty_is_sequence].
  destruct (match_lazy out) as [m|] eqn:E; [| apply empty_is_sequence].
  destruct (match_lazy_opens _ _ E) as [t ->].
  destruct (parse (String "[" t)) as [v|] eqn:P; [| apply empty_is_sequence].
  eapply parsed_bracket_is_sequence; eassumption.
Qed.

(** *** The invocation *)

Definition gemini_options (repoDir : string) : ExecOptions :=
  mkExecOptions (Some repoDir) (Some 120000%N) (Some TEN_MB).

(** What [runGeminiCLI] completes with, by the outcome of the subprocess. *)
Definition outcome_findings (r : completion (string * string)) : completion json :=
  match r with
  | Return out => recover_output out.1
  | Throw error => recover_partial error
  end.

Lemma runGeminiCLI_eq (Ext : Type) (run : string -> ExecOptions -> oracle Ext (string * string))
  (repoDir : string) (w : World Ext) :
  runGeminiCLI Ext run repoDir w
  = let '(fs', ext', r) := run gemini_command (gemini_options repoDir) (fs w) (ext w) in
    (mkWorld fs' ext' (trace w ++ [EvExec gemini_command (gemini_options repoDir)]),
     outcome_findings r).
Proof.
  unfold runGeminiCLI, tryM, execAsync, mbind, M_bind, bindM, log, ask, lift.
  fold (gemini_options repoDir). cbn [fs ext trace].
  destruct (run gemini_command (gemini_options repoDir) (fs w) (ext w))
    as [[fs' ext'] [out|e]]; cbn [outcome_findings]; [| reflexivity].
  destruct (recover_output_sequence out.1) as [items ->]. reflexivity.
Qed.

Lemma runGeminiCLI_result (Ext : Type)
  (run : string -> ExecOptions -> oracle Ext (string * string))
  (repoDir : string) (w : World Ext) :
  (runGeminiCLI Ext run repoDir w).2
  = outcome_findings (run gemini_command (gemini_options repoDir) (fs w) (ext w)).2.
Proof.
  rewrite runGeminiCLI_eq.
  now destruct (run gemini_command (gemini_options repoDir) (fs w) (ext w)) as [[? ?] ?].
Qed.

(** Stage 1: the [response] field of the document. *)
Lemma recover_from_response_field (stdout text m : string)
  (fields : list (string * json)) (v : json) :
  parse stdout = Some (JObj fields) ->
  lookup "response" fields = Some (JStr text) ->
  match_greedy text = Some m ->
  parse m = Some v ->
  recover_output stdout = Return v.
Proof.
  intros P L G Pm.
  unfold recover_output, extract_from_response, JSON_parse.
  rewrite P. cbn [bind get_prop]. rewrite L.
  assert (T : truthy (JStr text) = true).
  { cbn [truthy]. destruct text; [discriminate G | reflexivity]. }
  rewrite T. cbn [match_method bind]. rewrite G.
  destruct (match_greedy_opens _ _ G) as [t ->].
  rewrite parse_findings_bracket, Pm. reflexivity.
Qed.

(** Stage 2: the document itself, when it is an array. *)
Lemma recover_direct_array (stdout : string) (items : list json) :
  parse stdout = Some (JArr items) ->
  recover_output stdout = Return (JArr items).
Proof.
  intros P. unfold recover_output, extract_from_response, JSON_parse.
  rewrite P. reflexivity.
Qed.




(** *** The first bracketed piece of a text *)

Definition lacks (c : ascii) (s : string) : bool :=
  forallb_string (fun x => negb (Ascii.eqb x c)) s.

Lemma after_open_spec (s rest : string) :
  after_open s = Some rest ->
  exists pre, s = pre ++ "[" ++ rest /\ lacks "[" pre = true.
Proof.
  induction s as [|c s IH]; cbn [after_open]; [discriminate |].
  destruct (Ascii.eqb c "[") eqn:E.
  - intros H; inversion H; subst. apply Ascii.eqb_eq in E; subst c.
    now exists "".
  - intros H. destruct (IH H) as [pre [-> Hpre]].
    exists (String c pre). split; [reflexivity |].
    unfold lacks in *. cbn [forallb_string]. now rewrite E, Hpre.
Qed.

Lemma upto_first_close_spec (s t : string) :
  upto_first_close s = Some t ->
  exists body post,
    s = body ++ "]" ++ post /\ t = body ++ "]" /\ lacks "]" body = true.
Proof.
  revert t; induction s as [|c s IH]; intros t; cbn [upto_first_close];
    [discriminate |].
  destruct (Ascii.eqb c "]") eqn:E.
  - intros H; inversion H; subst. apply Ascii.eqb_eq in E; subst c.
    now exists "", s.
  - destruct (upto_first_close s) as [t'|]; [| discriminate].
    intros H; inversion H; subst.
    destruct (IH t' eq_refl) as [body [post [-> [-> Hb]]]].
    exists (String c body), post. repeat split.
    unfold lacks in *. cbn [forallb_string]. now rewrite E, Hb.
Qed.

Lemma match_lazy_first (s m : string) :
  match_lazy s = Some m ->
  exists pre body post,
    s = pre ++ "[" ++ body ++ "]" ++ post
    /\ lacks "[" pre = true /\ lacks "]" body = true
    /\ m = "[" ++ body ++ "]".
Proof.
  unfold match_lazy.
  destruct (after_open s) as [rest|] eqn:A; [| discriminate].
  destruct (upto_first_close rest) as [t|] eqn:C; [| discriminate].
  intros H; inversion H; subst.
  apply after_open_spec in A as [pre [-> Hpre]].
  apply upto_first_close_spec in C as [body [post [-> [-> Hb]]]].
  exists pre, body, post. repeat split; assumption || reflexivity.
Qed.






(** *** No validation on the way out *)

(** Whatever the chain returns is the empty sequence or, as it stands, the
    value that [JSON.parse] gave for a piece of the output. *)
Lemma recover_output_verbatim (stdout : string) (v : json) :
  recover_output stdout = Return v ->
  v = JArr []
  \/ exists text,
       parse text = Some v
       /\ (text = stdout
           \/ match_lazy stdout = Some text
           \/ exists fields t,
                parse stdout = Some (JObj fields)
                /\ lookup "response" fields = Some (JStr t)
                /\ match_greedy t = Some text).
Proof.
  unfold recover_output, try_catch.
  destruct (extract_from_response stdout) as [v'|e] eqn:E.
  - intros H; inversion H; subst v'; clear H. revert E.
    unfold extract_from_response, JSON_parse.
    destruct (parse stdout) as [response|] eqn:P; [| discriminate].
    cbn [bind].
    match goal with
    | |- _ -> ?Q =>
        assert (Hother :
                  (if isArray response then Return response else Return (JArr []))
                  = Return v -> Q)
    end.
    { destruct (isArray response); intros H; inversion H; subst; [right | now left].
      exists stdout. auto. }
    destruct response as [| | | |items|fields]; cbn [get_prop bind];
      try exact Hother; try discriminate.
    destruct (lookup "response" fields) as [text|] eqn:L; [| exact Hother].
    destruct (truthy text); [| exact Hother].
    destruct text as [| | |s| |]; cbn [match_method bind]; try discriminate.
    destruct (match_greedy s) as [m|] eqn:G; [| exact Hother].
    destruct (match_greedy_opens _ _ G) as [t Hm]. rewrite Hm.
    rewrite parse_findings_bracket.
    destruct (parse (String "[" t)) as [v'|] eqn:Pm; [| discriminate].
    intros H; inversion H; subst v'. right. exists (String "[" t).
    split; [assumption |]. right; right. exists fields, s. subst m. auto.
  - rewrite extract_from_raw_eq.
    destruct (match_lazy stdout) as [m|] eqn:Lz;
      [| intros H; inversion H; now left].
    destruct (parse m) as [v'|] eqn:Pm; intros H; inversion H; subst;
      [right | now left].
    exists m. auto.
Qed.

Lemma required_inv (check : json -> bool) (o : option json) :
  required check o = true -> exists v, o = Some v /\ check v = true.
Proof. destruct o as [v|]; [eauto | discriminate]. Qed.

Lemma one_of_inv (names : list string) (v : json) :
  one_of names v = true -> exists s, v = JStr s /\ In s names.
Proof.
  destruct v; try discriminate. cbn [one_of]. intros H.
  apply existsb_exists in H as [x [Hin Hx]].
  apply String.eqb_eq in Hx. subst. eauto.
Qed.

(** What [FindingSchema] demands of a value. *)
Lemma FindingSchema_demands (v : json) :
  FindingSchema v = true ->
  exists o,
    v = JObj o
    /\ (exists s, lookup "status" o = Some (JStr s)
                  /\ (s = "PASS" \/ s = "FAIL" \/ s = "CLARIFY"))
    /\ (exists c, lookup "confidence" o = Some (JNum c) /\ (0 <= c <= 1)%Q)
    /\ (exists s, lookup "id" o = Some (JStr s))
    /\ (exists s, lookup "summary" o = Some (JStr s))
    /\ (exists l, lookup "evidence" o = Some (JArr l)
                  /\ forallb EvidenceSchema l = true)
    /\ (exists s, lookup "proposedComment" o = Some (JStr s)).
Proof.
  destruct v as [| | | | |o]; try discriminate. cbn [FindingSchema].
  rewrite !andb_true_iff.
  intros [[[[[[[[[[[Hid _] _] Hst] Hsum] _] _] Hev] Hc] Hpc] _] _].
  exists o. split; [reflexivity |].
  apply required_inv in Hid as [vid [Eid Cid]], Hst as [vst [Est Cst]],
    Hsum as [vsum [Esum Csum]], Hev as [vev [Eev Cev]],
    Hc as [vc [Ec Cc]], Hpc as [vpc [Epc Cpc]].
  repeat split.
  - apply one_of_inv in Cst as [s [-> Hin]]. exists s. split; [assumption |].
    cbn [In] in Hin. intuition.
  - destruct vc; try discriminate. cbn [number_min0_max1] in Cc.
    apply andb_true_iff in Cc as [H0 H1]. apply Qle_bool_iff in H0, H1. eauto.
  - destruct vid; try discriminate. eauto.
  - destruct vsum; try discriminate. eauto.
  - destruct vev; try discriminate. eauto.
  - destruct vpc; try discriminate. eauto.
Qed.

(** A subprocess with a fixed outcome, and a world with nothing in it. *)
Definition answering (r : completion (string * string))
  : string -> ExecOptions -> oracle unit (string * string) :=
  fun _ _ files e => (files, e, r).

Definition empty_world : World unit := mkWorld ∅ tt [].

(** C2: the output [mixed_output] holds a finding with an unknown status, a
    confidence of 1.5 and no summary, evidence or comment; [FindingSchema]
    refuses it, and [runGeminiCLI] returns it with the valid one. *)
Lemma invalid_finding_is_returned :
  (runGeminiCLI unit (answering (Return (mixed_output, ""))) "/work" empty_world).2
  = Return (JArr [finding_value "F1"; invalid_finding_value])
  /\ FindingSchema (finding_value "F1") = true
  /\ FindingSchema invalid_finding_value = false
  /\ lookup "status" [("id", JStr "F9"); ("status", JStr "BOGUS");
                      ("confidence", JNum (3 # 2))] = Some (JStr "BOGUS")
  /\ Qle_bool (3 # 2) 1 = false.
Proof.
  split; [rewrite runGeminiCLI_result; vm_compute; reflexivity |].
  repeat split; vm_compute; reflexivity.
Qed.

(** C2, as amended. The findings are returned as [JSON.parse] gave them,
    without validation: the result is the empty sequence or the parsed value
    of a piece of the output (the whole output, the bracketed piece of its
    [response] field, or the first bracketed piece of the raw text), every
    element kept; a direct array comes back whole. [FindingSchema], which
    demands a status among PASS, FAIL and CLARIFY, a confidence within
    [0, 1] and the required fields, is applied nowhere on this path. *)
Theorem findings_returned_as_parsed :
  (forall stdout v,
      recover_output stdout = Return v ->
      v = JArr []
      \/ exists text,
           parse text = Some v
           /\ (text = stdout
               \/ match_lazy stdout = Some text
               \/ exists fields t,
                    parse stdout = Some (JObj fields)
                    /\ lookup "response" fields = Some (JStr t)
                    /\ match_greedy t = Some text))
  /\ (forall Ext run repoDir (w : World Ext) out items,
         (run gemini_command (gemini_options repoDir) (fs w) (ext w)).2 = Return out ->
         parse out.1 = Some (JArr items) ->
         (runGeminiCLI Ext run repoDir w).2 = Return (JArr items))
  /\ (forall v,
         FindingSchema v = true ->
         exists o,
           v = JObj o
           /\ (exists s, lookup "status" o = Some (JStr s)
                         /\ (s = "PASS" \/ s = "FAIL" \/ s = "CLARIFY"))
           /\ (exists c, lookup "confidence" o = Some (JNum c) /\ (0 <= c <= 1)%Q)
           /\ (exists s, lookup "id" o = Some (JStr s))
           /\ (exists s, lookup "summary" o = Some (JStr s))
           /\ (exists l, lookup "evidence" o = Some (JArr l)
                         /\ forallb EvidenceSchema l = true)
           /\ (exists s, lookup "proposedComment" o = Some (JStr s))).
Proof.
  split; [exact recover_output_verbatim |].
  split; [| exact FindingSchema_demands].
  intros Ext run repoDir w out items H P.
  rewrite runGeminiCLI_result, H. cbn [outcome_findings].
  now apply recover_direct_array.
Qed.

Lemma findings_returned_as_parsed_mixed :
  (runGeminiCLI unit (answering (Return (mixed_output, ""))) "/work" empty_world).2
  = Return (JArr [finding_value "F1"; invalid_finding_value]).
Proof.
  apply (proj1 (proj2 findings_returned_as_parsed) unit
           (answering (Return (mixed_output, ""))) "/work" empty_world
           (mixed_output, "")).
  - reflexivity.
  - vm_compute. reflexivity.
Defined.

(** *** The invocation never throws *)


(** The rejection of [exec] after the time limit: the child was killed. *)
Definition timed_out (stdout : string) : completion (string * string) :=
  Throw (ExecException true None stdout "").





End OutputRecovery.

(** ** Diff derivation *)

Section DiffDerivation.
Import JS Sys GeminiCli.
Variable Ext : Type.
Variable run : string -> ExecOptions -> oracle Ext (string * string).

Definition PRIMARY : string := "origin/main...HEAD".
Definition SECONDARY : string := "origin/master...HEAD".
Definition LAST_RESORT : string := "HEAD~1".

(** One attempt: [git diff base] in the workspace. *)
Definition attempt (base repoDir : string) (w : World Ext)
  : World Ext * completion (string * string) :=
  execAsync run (diff_command base) (diff_options repoDir) w.

Definition attempted (base repoDir : string) : event :=
  EvExec (diff_command base) (diff_options repoDir).

Lemma attempt_trace (base repoDir : string) (w : World Ext) :
  trace (attempt base repoDir w).1 = (trace w ++ [attempted base repoDir])%list.
Proof.
  unfold attempt, execAsync, bindM, log, ask. cbn [fs ext trace].
  now destruct (run _ _ (fs w) (ext w)) as [[? ?] ?].
Qed.

Lemma getDiffFromRepo_eq (repoDir : string) (w : World Ext) :
  getDiffFromRepo Ext run repoDir w
  = match attempt PRIMARY repoDir w with
    | (w1, Return out) => (w1, Return out.1)
    | (w1, Throw _) =>
        match attempt SECONDARY repoDir w1 with
        | (w2, Return out) => (w2, Return out.1)
        | (w2, Throw _) =>
            match attempt LAST_RESORT repoDir w2 with
            | (w3, Return out) => (w3, Return out.1)
            | (w3, Throw e) => (w3, Throw e)
            end
        end
    end.
Proof.
  unfold getDiffFromRepo, tryM, mbind, M_bind, mret, M_ret, bindM, ret.
  unfold attempt, PRIMARY, SECONDARY, LAST_RESORT.
  destruct (execAsync run (diff_command "origin/main...HEAD") _ w)
    as [w1 [out1|e1]]; [reflexivity |].
  destruct (execAsync run (diff_command "origin/master...HEAD") _ w1)
    as [w2 [out2|e2]]; [reflexivity |].
  now destruct (execAsync run (diff_command "HEAD~1") _ w2) as [w3 [out3|e3]].
Qed.

(** C6. The bases are tried in the order [origin/main], [origin/master],
    the preceding commit. The first attempt that succeeds gives the diff, and
    the trace then ends with the attempts made so far and no other; the
    operation throws only when all three attempts threw, with the error of
    the last. *)
Theorem diff_bases_in_order (repoDir : string) (w : World Ext) :
  let a1 := attempt PRIMARY repoDir w in
  let a2 := attempt SECONDARY repoDir a1.1 in
  let a3 := attempt LAST_RESORT repoDir a2.1 in
  (forall out,
      a1.2 = Return out ->
      getDiffFromRepo Ext run repoDir w = (a1.1, Return out.1)
      /\ trace a1.1 = (trace w ++ [attempted PRIMARY repoDir])%list)
  /\ (forall e1 out,
         a1.2 = Throw e1 -> a2.2 = Return out ->
         getDiffFromRepo Ext run repoDir w = (a2.1, Return out.1)
         /\ trace a2.1
            = (trace w ++ [attempted PRIMARY repoDir; attempted SECONDARY repoDir])%list)
  /\ (forall e1 e2 r,
         a1.2 = Throw e1 -> a2.2 = Throw e2 -> a3.2 = r ->
         getDiffFromRepo Ext run repoDir w
         = (a3.1, match r with
                  | Return out => Return out.1
                  | Throw e3 => Throw e3
                  end)
         /\ trace a3.1
            = (trace w ++ [attempted PRIMARY repoDir; attempted SECONDARY repoDir;
                           attempted LAST_RESORT repoDir])%list)
  /\ (forall w' e,
         getDiffFromRepo Ext run repoDir w = (w', Throw e) ->
         exists e1 e2, a1.2 = Throw e1 /\ a2.2 = Throw e2 /\ a3.2 = Throw e).
Proof.
  intros a1 a2 a3.
  pose proof (attempt_trace PRIMARY repoDir w) as T1.
  pose proof (attempt_trace SECONDARY repoDir a1.1) as T2.
  pose proof (attempt_trace LAST_RESORT repoDir a2.1) as T3.
  fold a1 in T1, T2. fold a2 in T2, T3. fold a3 in T3.
  rewrite getDiffFromRepo_eq. fold a1.
  destruct a1 as [w1 r1] eqn:E1. cbn [fst snd] in *. subst a2.
  destruct (attempt SECONDARY repoDir w1) as [w2 r2] eqn:E2. cbn [fst snd] in *.
  subst a3.
  destruct (attempt LAST_RESORT repoDir w2) as [w3 r3] eqn:E3. cbn [fst snd] in *.
  rewrite T1 in T2. rewrite T2 in T3.
  repeat rewrite <- app_assoc in T2. repeat rewrite <- app_assoc in T3.
  cbn [app] in T2, T3.
  split; [| split; [| split]].
  - intros out ->. auto.
  - intros e1 out -> ->. auto.
  - intros e1 e2 r -> -> ->. split; [now destruct r | assumption].
  - intros w' e H.
    destruct r1 as [o1|x1]; [discriminate |].
    destruct r2 as [o2|x2]; [discriminate |].
    destruct r3 as [o3|x3]; [discriminate |].
    inversion H; subst. eauto.
Qed.

End DiffDerivation.

Section DiffDerivationSample.
Import JS Sys GeminiCli.

(** A clone whose default branch is [master]: only the second base exists. *)
Definition only_master : string -> ExecOptions -> oracle unit (string * string) :=
  fun command _ files e =>
    if String.eqb command "git diff origin/master...HEAD"
    then (files, e, Return ("diff --git a/x b/x", ""))
    else (files, e,
          Throw (ExecException false (Some "128") ""
                   "fatal: ambiguous argument: unknown revision")).

Lemma diff_bases_in_order_secondary :
  getDiffFromRepo unit only_master "/work" empty_world
  = (mkWorld ∅ tt [attempted PRIMARY "/work"; attempted SECONDARY "/work"],
     Return "diff --git a/x b/x")
  /\ trace (mkWorld (∅ : gmap string node) tt
              [attempted PRIMARY "/work"; attempted SECONDARY "/work"])
     = ([] ++ [attempted PRIMARY "/work"; attempted SECONDARY "/work"])%list.
Proof.
  exact (proj1 (proj2 (diff_bases_in_order unit only_master "/work" empty_world))
           (ExecException false (Some "128") ""
              "fatal: ambiguous argument: unknown revision")
           ("diff --git a/x b/x", "") eq_refl eq_refl).
Defined.

End DiffDerivationSample.

(** ** The workspace is released on every exit *)

Section Workspace.
Import JS Json Sys GeminiCli.
Variable Ext : Type.
Variable writable : string -> gmap string node -> bool.
Variable run : string -> ExecOptions -> oracle Ext (string * string).
Variable process_cwd : string.

Lemma within_refl (p : string) : within p p = true.
Proof. unfold within. now rewrite String.eqb_refl. Qed.

Lemma rmSync_removes (p x : string) (w : World Ext) :
  within p x = true -> fs (rmSync p w).1 !! x = None.
Proof.
  intros H. unfold rmSync. cbn [fst fs].
  apply map_lookup_filter_None. right. intros v _. cbn. congruence.
Qed.

(** [cleanup] returns, and leaves no directory at [repoDir]. *)
Lemma cleanup_removes (repoDir : string) (w : World Ext) :
  (cleanup Ext repoDir w).2 = Return tt
  /\ fs (cleanup Ext repoDir w).1 !! repoDir = None.
Proof.
  unfold cleanup, mbind, M_bind, bindM, existsSync, mret, M_ret, ret.
  destruct (bool_decide (is_Some (fs w !! repoDir))) eqn:B.
  - split; [reflexivity |]. apply rmSync_removes, within_refl.
  - split; [reflexivity |]. cbn [fst].
    apply bool_decide_eq_false in B.
    destruct (fs w !! repoDir) eqn:L; [| reflexivity].
    exfalso. apply B. eauto.
Qed.

(** When the directory is there, everything below it goes with it. *)
Lemma cleanup_removes_tree (repoDir x : string) (w : World Ext) :
  is_Some (fs w !! repoDir) -> within repoDir x = true ->
  fs (cleanup Ext repoDir w).1 !! x = None.
Proof.
  intros Hd Hx.
  unfold cleanup, mbind, M_bind, bindM, existsSync, mret, M_ret, ret.
  rewrite bool_decide_eq_true_2 by assumption.
  now apply rmSync_removes.
Qed.

(** The world after [try { body } finally { fin }] is a world that [fin]
    has just left. *)
Lemma try_finally_world (A : Type) (body : M Ext A) (fin : M Ext unit) (w : World Ext) :
  exists w1, (try_finally body fin w).1 = (fin w1).1.
Proof.
  unfold try_finally. destruct (body w) as [w1 r]. exists w1.
  now destruct (fin w1) as [w2 [[]|e]].
Qed.

Lemma try_finally_result (A : Type) (body : M Ext A) (fin : M Ext unit) (w : World Ext) :
  (forall w1, (fin w1).2 = Return tt) ->
  (try_finally body fin w).2 = (body w).2.
Proof.
  intros Hfin. unfold try_finally. destruct (body w) as [w1 r].
  specialize (Hfin w1). destruct (fin w1) as [w2 [[]|e]]; [reflexivity |].
  discriminate.
Qed.

Lemma setupTempDir_returns (prInfo : PRInfo) (w : World Ext) :
  (setupTempDir Ext process_cwd prInfo w).2 = Return (repoDir_of process_cwd prInfo).
Proof.
  unfold setupTempDir, mbind, M_bind, bindM, existsSync, mret, M_ret, ret.
  destruct (bool_decide (is_Some (fs w !! repoDir_of process_cwd prInfo)));
    cbn [rmSync fs];
    match goal with
    | |- context [bool_decide ?P] => destruct (bool_decide P)
    end; reflexivity.
Qed.

(** The stages that the [finally] wraps. *)
Definition guarded_stages (prInfo : PRInfo) (repoDir prTitle prDescription : string)
  (requirementFile : option (string * string)) (githubToken : option string)
  : M Ext json :=
  cloneAndCheckoutPR Ext run prInfo repoDir githubToken;;
  requirementFileName ←
    match requirementFile with
    | Some (buffer, name) =>
        name' ← copyRequirementFile Ext writable repoDir buffer name; mret (Some name')
    | None => mret None
    end;
  diff ← getDiffFromRepo Ext run repoDir;
  createGeminiContext Ext writable repoDir prTitle prDescription diff requirementFileName;;
  runGeminiCLI Ext run repoDir.

Lemma mbind_lift (A B : Type) (c : completion A) (k : A -> M Ext B) (w : World Ext) :
  (lift c ≫= k) w
  = match c with
    | Return a => k a w
    | Throw e => (w, Throw e)
    end.
Proof. now destruct c. Qed.

Lemma mbind_returns (A B : Type) (m : M Ext A) (k : A -> M Ext B)
  (w : World Ext) (a : A) :
  (m w).2 = Return a -> (m ≫= k) w = k a (m w).1.
Proof.
  unfold mbind, M_bind, bindM. destruct (m w) as [w' r]. cbn. now intros ->.
Qed.

Lemma reviewWithGeminiCLI_eq (prUrl prTitle prDescription : string)
  (requirementFile : option (string * string)) (githubToken : option string)
  (w : World Ext) :
  reviewWithGeminiCLI Ext writable run process_cwd prUrl prTitle prDescription
    requirementFile githubToken w
  = match parsePRUrl prUrl with
    | Return prInfo =>
        try_finally
          (guarded_stages prInfo (repoDir_of process_cwd prInfo) prTitle
             prDescription requirementFile githubToken)
          (cleanup Ext (repoDir_of process_cwd prInfo))
          (setupTempDir Ext process_cwd prInfo w).1
    | Throw e => (w, Throw e)
    end.
Proof.
  unfold reviewWithGeminiCLI.
  rewrite mbind_lift.
  destruct (parsePRUrl prUrl) as [prInfo|e]; [| reflexivity].
  rewrite (mbind_returns _ _ _ _ _ _ (setupTempDir_returns prInfo w)).
  reflexivity.
Qed.

(** C1. Whatever the subprocesses and the file system do, when
    [reviewWithGeminiCLI] returns or throws, no directory is left at the
    workspace path of the pull request: the stages from the clone to the tool
    invocation run inside [try], and [cleanup] runs in its [finally], on the
    result of the stages as on any exception of theirs, which it passes on
    unchanged. A locator that does not resolve throws before any directory
    is touched. *)
Theorem workspace_released_on_every_exit
  (prUrl prTitle prDescription : string)
  (requirementFile : option (string * string)) (githubToken : option string)
  (w : World Ext) :
  let final :=
    reviewWithGeminiCLI Ext writable run process_cwd prUrl prTitle prDescription
      requirementFile githubToken w in
  match parsePRUrl prUrl with
  | Return prInfo =>
      let repoDir := repoDir_of process_cwd prInfo in
      fs final.1 !! repoDir = None
      /\ final.2
         = (guarded_stages prInfo repoDir prTitle prDescription requirementFile
              githubToken (setupTempDir Ext process_cwd prInfo w).1).2
  | Throw e => final = (w, Throw e)
  end.
Proof.
  intros final. subst final. rewrite reviewWithGeminiCLI_eq.
  destruct (parsePRUrl prUrl) as [prInfo|e]; [| reflexivity].
  intros repoDir. subst repoDir. split.
  - destruct (try_finally_world json
                (guarded_stages prInfo (repoDir_of process_cwd prInfo) prTitle
                   prDescription requirementFile githubToken)
                (cleanup Ext (repoDir_of process_cwd prInfo))
                (setupTempDir Ext process_cwd prInfo w).1) as [w1 ->].
    apply cleanup_removes.
  - apply try_finally_result. intros w1. apply cleanup_removes.
Qed.

End Workspace.

Section WorkspaceSamples.
Import JS Json Sys GeminiCli.

Definition SAMPLE_URL : string := "https://github.com/acme/widgets/pull/42".
Definition SAMPLE_DIR : string := "/srv/api/temp/acme-widgets-pr42".

Definition starts_with (pat s : string) : bool :=
  match strip_prefix pat s with
  | Some _ => true
  | None => false
  end.

(** A host on which [git clone] fills the workspace, [git fetch] works or
    not, the other [git] commands print nothing, and the review engine
    completes as [tool] says. *)
Definition host (fetch_ok : bool) (tool : completion (string * string))
  : string -> ExecOptions -> oracle unit (string * string) :=
  fun command _ files e =>
    if starts_with "git clone" command then
      (<[join SAMPLE_DIR "README.md" := File "widgets"]> (<[SAMPLE_DIR := Dir]> files),
       e, Return ("", ""))
    else if starts_with "git fetch" command then
      (files, e,
       if fetch_ok then Return ("", "")
       else Throw (ExecException false (Some "128") "" "fatal: could not fetch"))
    else if String.eqb command gemini_command then (files, e, tool)
    else (files, e, Return ("", "")).

Definition always_writable : string -> gmap string node -> bool := fun _ _ => true.

Definition review (fetch_ok : bool) (tool : completion (string * string))
  : World unit * completion json :=
  reviewWithGeminiCLI unit always_writable (host fetch_ok tool) "/srv/api"
    SAMPLE_URL "Add widgets" "A description" None None empty_world.

Definition absent (w : World unit) (p : string) : bool :=
  match fs w !! p with
  | Some _ => false
  | None => true
  end.

(** The clone leaves the directory in place until the end of the pipeline. *)
Example workspace_present_after_clone :
  absent (cloneAndCheckoutPR unit (host true (Return (direct_output, "")))
            (mkPRInfo "acme" "widgets" 42 "https://github.com/acme/widgets.git")
            SAMPLE_DIR None empty_world).1 SAMPLE_DIR
  = false.
Proof. vm_compute. reflexivity. Qed.

Example workspace_absent_after_success :
  (review true (Return (direct_output, ""))).2 = Return (JArr [finding_value "F2"])
  /\ absent (review true (Return (direct_output, ""))).1 SAMPLE_DIR = true
  /\ absent (review true (Return (direct_output, ""))).1 (join SAMPLE_DIR "README.md")
     = true
  /\ absent (review true (Return (direct_output, ""))).1 (join SAMPLE_DIR "GEMINI.md")
     = true.
Proof. repeat split; vm_compute; reflexivity. Qed.

Example workspace_absent_after_timeout :
  (review true (timed_out "")).2 = Return (JArr [])
  /\ absent (review true (timed_out "")).1 SAMPLE_DIR = true.
Proof. repeat split; vm_compute; reflexivity. Qed.

Example workspace_absent_after_failed_fetch :
  (review false (Return (direct_output, ""))).2
  = Throw (ExecException false (Some "128") "" "fatal: could not fetch")
  /\ absent (review false (Return (direct_output, ""))).1 SAMPLE_DIR = true
  /\ absent (review false (Return (direct_output, ""))).1 (join SAMPLE_DIR "README.md")
     = true.
Proof. repeat split; vm_compute; reflexivity. Qed.

Definition SAMPLE_PR : PRInfo :=
  mkPRInfo "acme" "widgets" 42 "https://github.com/acme/widgets.git".

Lemma workspace_released_after_failed_fetch :
  fs (review false (Return (direct_output, ""))).1 !! SAMPLE_DIR = None
  /\ (review false (Return (direct_output, ""))).2
     = (guarded_stages unit always_writable (host false (Return (direct_output, "")))
          SAMPLE_PR SAMPLE_DIR "Add widgets" "A description" None None
          (setupTempDir unit "/srv/api" SAMPLE_PR empty_world).1).2.
Proof.
  exact (workspace_released_on_every_exit unit always_writable
           (host false (Return (direct_output, ""))) "/srv/api"
           SAMPLE_URL "Add widgets" "A description" None None empty_world).
Defined.

End WorkspaceSamples.

(** ** Document indexing *)

Section Indexing.
Import JS Sys Gemini.
Variable Ext : Type.
Variable writable : string -> gmap string node -> bool.
Variable GEMINI_API_KEY : option string.
Variable now : oracle Ext N.
Variable Operation : Type.
Variable done : Operation -> bool.
Variable create : string -> oracle Ext string.
Variable upload : string -> string -> string -> oracle Ext Operation.
Variable get : Operation -> oracle Ext Operation.

Definition UPLOAD : event := EvCall "fileSearchStores.uploadToFileSearchStore".
Definition POLL : event := EvCall "operations.get".

(** [k] turns of the loop: a pause of two seconds, then one poll. *)
Fixpoint cycles (k : nat) : list event :=
  match k with
  | O => []
  | S k' => EvSleep 2000 :: POLL :: cycles k'
  end.

Definition never_done : Prop :=
  forall op files e, exists op', (get op files e).2 = Return op' /\ done op' = false.

Lemma wait_loop_done (n : nat) (op : Operation) (w : World Ext) :
  done op = true -> wait_loop Ext Operation done get n op w = (w, Return op).
Proof. intros H. destruct n; cbn [wait_loop]; now rewrite H. Qed.

Lemma wait_loop_step (n : nat) (op : Operation) (w : World Ext) :
  done op = false ->
  wait_loop Ext Operation done get (S n) op w
  = let polled := mkWorld (fs w) (ext w) (trace w ++ [EvSleep 2000; POLL]) in
    match get op (fs w) (ext w) with
    | (files, e, Return op') =>
        wait_loop Ext Operation done get n op'
          (mkWorld files e (trace polled))
    | (files, e, Throw x) => (mkWorld files e (trace polled), Throw x)
    end.
Proof.
  intros H. cbn [wait_loop]. rewrite H. cbn [negb].
  unfold call, sleep. unfold mbind, M_bind, bindM, log, ask. cbn [fs ext trace].
  rewrite <- app_assoc. cbn [app].
  now destruct (get op (fs w) (ext w)) as [[files e] [op'|x]].
Qed.

Lemma wait_loop_spec (n : nat) (op : Operation) (w : World Ext) :
  exists k,
    (k <= n)%nat
    /\ trace (wait_loop Ext Operation done get n op w).1 = (trace w ++ cycles k)%list
    /\ (forall op',
           (wait_loop Ext Operation done get n op w).2 = Return op' ->
           done op' = false -> k = n).
Proof.
  revert op w; induction n as [|n IH]; intros op w.
  - exists 0%nat. split; [lia |].
    assert (E : wait_loop Ext Operation done get 0 op w = (w, Return op))
      by (cbn [wait_loop]; now destruct (negb (done op))).
    rewrite E. cbn [fst snd cycles]. rewrite app_nil_r. auto.
  - destruct (done op) eqn:D.
    + exists 0%nat. rewrite wait_loop_done by assumption.
      cbn [fst snd cycles]. rewrite app_nil_r.
      split; [lia |]. split; [reflexivity |].
      intros op' H; inversion H; subst. congruence.
    + rewrite wait_loop_step by assumption. cbv zeta. cbn [trace].
      destruct (get op (fs w) (ext w)) as [[files e] [op1|x]].
      * destruct (IH op1 (mkWorld files e (trace w ++ [EvSleep 2000; POLL])))
          as (k & Hk & Ht & Hn).
        exists (S k). split; [lia |]. split.
        { rewrite Ht. cbn [trace cycles]. now rewrite <- app_assoc. }
        intros op' H1 H2. now rewrite (Hn op' H1 H2).
      * exists 1%nat. split; [lia |]. split; [reflexivity |].
        intros op' H. discriminate H.
Qed.

Lemma wait_loop_never_done (n : nat) (op : Operation) (w : World Ext) :
  never_done -> done op = false ->
  exists op', (wait_loop Ext Operation done get n op w).2 = Return op'
              /\ done op' = false.
Proof.
  intros Hnd. revert op w; induction n as [|n IH]; intros op w D.
  - exists op. cbn [wait_loop]. rewrite D. auto.
  - rewrite wait_loop_step by assumption. cbv zeta.
    destruct (Hnd op (fs w) (ext w)) as (op1 & Hget & D1).
    destruct (get op (fs w) (ext w)) as [[files e] r]. cbn [snd] in Hget.
    subst r. now apply IH.
Qed.

(** The [finally] block. *)
Definition remove_temp (tempFilePath : string) : M Ext unit :=
  present ← existsSync tempFilePath;
  if present : bool then unlinkSync tempFilePath else mret tt.

Lemma remove_temp_spec (tempFilePath : string) (w : World Ext) :
  (remove_temp tempFilePath w).2 = Return tt
  /\ fs (remove_temp tempFilePath w).1 !! tempFilePath = None
  /\ trace (remove_temp tempFilePath w).1 = trace w.
Proof.
  unfold remove_temp, mbind, M_bind, bindM, existsSync, unlinkSync, mret, M_ret, ret.
  destruct (bool_decide (is_Some (fs w !! tempFilePath))) eqn:B; cbn [fst snd fs trace].
  - repeat split. apply lookup_delete_eq.
  - repeat split. apply bool_decide_eq_false in B.
    destruct (fs w !! tempFilePath) eqn:L; [| reflexivity].
    exfalso. apply B. eauto.
Qed.

(** The body of the [try]. *)
Definition upload_body (storeName tempFilePath fileName : string) : M Ext string :=
  operation ← call Ext "fileSearchStores.uploadToFileSearchStore"
                 (upload tempFilePath storeName fileName);
  operation ← wait_loop Ext Operation done get maxAttempts operation;
  if negb (done operation) then throw (Error "File processing timeout")
  else mret storeName.

Lemma upload_and_wait_eq (storeName tempFilePath fileName : string) (w : World Ext) :
  upload_and_wait Ext Operation done upload get storeName tempFilePath fileName w
  = let after := upload_body storeName tempFilePath fileName w in
    ((remove_temp tempFilePath after.1).1, after.2).
Proof.
  unfold upload_and_wait. fold (upload_body storeName tempFilePath fileName).
  fold (remove_temp tempFilePath). unfold try_finally. cbv zeta.
  destruct (upload_body storeName tempFilePath fileName w) as [w1 r].
  destruct (remove_temp_spec tempFilePath w1) as (R & _ & _).
  cbn [fst snd].
  change (present ← existsSync tempFilePath;
          if present : bool then unlinkSync tempFilePath else mret tt)
    with (remove_temp tempFilePath).
  destruct (remove_temp tempFilePath w1) as [w2 r2]. cbn [fst snd] in *.
  now subst r2.
Qed.

(** The world in which the loop starts, once the upload has answered. *)
Definition uploaded (w : World Ext) (files : gmap string node) (e : Ext) : World Ext :=
  mkWorld files e (trace w ++ [UPLOAD]).

Lemma upload_body_eq (storeName tempFilePath fileName : string) (w : World Ext) :
  upload_body storeName tempFilePath fileName w
  = match upload tempFilePath storeName fileName (fs w) (ext w) with
    | (files, e, Return op0) =>
        match wait_loop Ext Operation done get maxAttempts op0 (uploaded w files e) with
        | (w2, Return op) =>
            if done op then (w2, Return storeName)
            else (w2, Throw (Error "File processing timeout"))
        | (w2, Throw x) => (w2, Throw x)
        end
    | (files, e, Throw x) => (uploaded w files e, Throw x)
    end.
Proof.
  unfold upload_body, call. unfold mbind, M_bind, bindM, log, ask, throw, mret, M_ret, ret.
  cbn [fs ext trace]. fold UPLOAD.
  destruct (upload tempFilePath storeName fileName (fs w) (ext w))
    as [[files e] [op0|x]]; [| reflexivity].
  fold (uploaded w files e).
  destruct (wait_loop Ext Operation done get maxAttempts op0 (uploaded w files e))
    as [w2 [op|x]]; [| reflexivity].
  now destruct (done op).
Qed.

Lemma upload_body_spec (storeName tempFilePath fileName : string) (w : World Ext) :
  let after := upload_body storeName tempFilePath fileName w in
  (exists k, (k <= maxAttempts)%nat
             /\ trace after.1 = (trace w ++ UPLOAD :: cycles k)%list)
  /\ (forall s, after.2 = Return s -> s = storeName)
  /\ (forall files e op0 op,
         upload tempFilePath storeName fileName (fs w) (ext w) = (files, e, Return op0) ->
         (wait_loop Ext Operation done get maxAttempts op0 (uploaded w files e)).2
         = Return op ->
         (done op = true -> after.2 = Return storeName)
         /\ (done op = false ->
             after.2 = Throw (Error "File processing timeout")
             /\ trace after.1 = (trace w ++ UPLOAD :: cycles maxAttempts)%list))
  /\ ((exists op0, (upload tempFilePath storeName fileName (fs w) (ext w)).2 = Return op0
                   /\ done op0 = false) ->
      never_done ->
      after.2 = Throw (Error "File processing timeout")
      /\ trace after.1 = (trace w ++ UPLOAD :: cycles maxAttempts)%list).
Proof.
  cbv zeta. rewrite upload_body_eq.
  destruct (upload tempFilePath storeName fileName (fs w) (ext w))
    as [[files e] [op0|x]]; cbn [snd].
  - destruct (wait_loop_spec maxAttempts op0 (uploaded w files e)) as (k & Hk & Ht & Hn).
    pose proof (wait_loop_never_done maxAttempts op0 (uploaded w files e)) as Hnd.
    destruct (wait_loop Ext Operation done get maxAttempts op0 (uploaded w files e))
      as [w2 r] eqn:W; cbn [fst snd] in *.
    assert (T : trace w2 = (trace w ++ UPLOAD :: cycles k)%list).
    { rewrite Ht. unfold uploaded. cbn [trace]. now rewrite <- app_assoc. }
    destruct r as [op|x].
    + destruct (done op) eqn:D; cbn [fst snd].
      * split; [eauto |]. split; [intros s H; now inversion H |]. split.
        { intros files' e' op0' op' E1 E2. inversion E1; subst.
          rewrite W in E2. inversion E2; subst.
          split; [reflexivity | intros; congruence]. }
        intros (op1 & H1 & D1) Hall. inversion H1; subst op1.
        destruct (Hnd Hall D1) as (op2 & H2 & D2). inversion H2; subst. congruence.
      * split; [eauto |]. split; [discriminate |].
        assert (Tmax : trace w2 = (trace w ++ UPLOAD :: cycles maxAttempts)%list)
          by now rewrite T, (Hn op eq_refl D).
        split; [| auto].
        intros files' e' op0' op' E1 E2. inversion E1; subst.
        rewrite W in E2. inversion E2; subst.
        split; [intros; congruence | auto].
    + cbn [fst snd]. split; [eauto |]. split; [discriminate |]. split.
      { intros files' e' op0' op' E1 E2. inversion E1; subst.
        rewrite W in E2. discriminate E2. }
      intros (op1 & H1 & D1) Hall. inversion H1; subst op1.
      destruct (Hnd Hall D1) as (op2 & H2 & D2). discriminate H2.
  - cbn [fst snd]. split.
    + exists 0%nat. split; [unfold maxAttempts; lia | reflexivity].
    + split; [discriminate |]. split.
      * intros files' e' op0' op' E1. discriminate E1.
      * intros (op1 & H1 & _). discriminate H1.
Qed.

Lemma uploadToFileSearch_eq (fileBuffer fileName : string) (w : World Ext) :
  uploadToFileSearch Ext writable GEMINI_API_KEY now Operation done create upload get
    fileBuffer fileName w
  = match prepare Ext writable GEMINI_API_KEY now create fileBuffer fileName w with
    | (w1, Return p) =>
        upload_and_wait Ext Operation done upload get p.1 p.2 fileName w1
    | (w1, Throw e) => (w1, Throw e)
    end.
Proof. reflexivity. Qed.

(** C9. Once the store and the temporary file exist, the upload is followed
    by at most 30 turns of the loop, each a pause of 2000 ms and one poll of
    the operation, and by nothing else. When the loop ends on an operation
    that is done the name of the store is returned; when it ends on one that
    is not done, which takes exactly 30 turns, the result is the error
    [File processing timeout]; so it is when the operation is never done.
    On every exit, by return or by exception, the temporary file is gone. *)
Theorem indexing_bounded_and_temp_removed
  (fileBuffer fileName storeName tempFilePath : string) (w w1 : World Ext) :
  prepare Ext writable GEMINI_API_KEY now create fileBuffer fileName w
  = (w1, Return (storeName, tempFilePath)) ->
  let final :=
    uploadToFileSearch Ext writable GEMINI_API_KEY now Operation done create upload
      get fileBuffer fileName w in
  maxAttempts = 30%nat
  /\ fs final.1 !! tempFilePath = None
  /\ (exists k, (k <= maxAttempts)%nat
                /\ trace final.1 = (trace w1 ++ UPLOAD :: cycles k)%list)
  /\ (forall s, final.2 = Return s -> s = storeName)
  /\ (forall files e op0 op,
         upload tempFilePath storeName fileName (fs w1) (ext w1)
         = (files, e, Return op0) ->
         (wait_loop Ext Operation done get maxAttempts op0 (uploaded w1 files e)).2
         = Return op ->
         (done op = true -> final.2 = Return storeName)
         /\ (done op = false ->
             final.2 = Throw (Error "File processing timeout")
             /\ trace final.1 = (trace w1 ++ UPLOAD :: cycles maxAttempts)%list))
  /\ ((exists op0,
          (upload tempFilePath storeName fileName (fs w1) (ext w1)).2 = Return op0
          /\ done op0 = false) ->
      never_done ->
      final.2 = Throw (Error "File processing timeout")
      /\ trace final.1 = (trace w1 ++ UPLOAD :: cycles maxAttempts)%list).
Proof.
  intros Hprep final. subst final.
  rewrite uploadToFileSearch_eq, Hprep. cbn [fst snd].
  rewrite upload_and_wait_eq. cbv zeta. cbn [fst snd].
  destruct (upload_body_spec storeName tempFilePath fileName w1)
    as (Hk & Hs & Hl & Ht).
  destruct (remove_temp_spec tempFilePath
              (upload_body storeName tempFilePath fileName w1).1) as (_ & Hfs & Htr).
  rewrite Htr.
  split; [reflexivity |]. split; [exact Hfs |]. split; [exact Hk |].
  split; [exact Hs |]. split; [exact Hl | exact Ht].
Qed.

End Indexing.

Section IndexingSamples.
Import JS Sys Gemini.

(** A service whose operation needs a fixed number of polls: the operation
    is the number of polls still needed. *)
Definition clock : oracle unit N := fun files e => (files, e, Return 1700000000000%N).

Definition create_store : string -> oracle unit string :=
  fun displayName files e => (files, e, Return ("fileSearchStores/" ++ displayName)).

Definition upload_needing (polls : nat) : string -> string -> string -> oracle unit nat :=
  fun _ _ _ files e => (files, e, Return polls).

Definition poll_once : nat -> oracle unit nat :=
  fun op files e => (files, e, Return (Nat.pred op)).

Definition finished (op : nat) : bool := (op =? 0)%nat.

(** A service that never finishes. *)
Definition poll_stuck : nat -> oracle unit nat :=
  fun op files e => (files, e, Return (S op)).

Definition index_with (polls : nat) (get : nat -> oracle unit nat)
  : World unit * completion string :=
  uploadToFileSearch unit always_writable (Some "key") clock nat finished
    create_store (upload_needing polls) get "requirements" "spec.md" empty_world.

Definition SAMPLE_TEMP : string := "/tmp/ai-pr-review/1700000000000-spec.md".
Definition SAMPLE_STORE : string := "fileSearchStores/pr-review-1700000000000".

Definition prepared : World unit :=
  mkWorld {[ SAMPLE_TEMP := File "requirements" ]} tt
    [EvCall "fileSearchStores.create"].

Lemma indexing_times_out_when_stuck :
  fs (index_with 1 poll_stuck).1 !! SAMPLE_TEMP = None
  /\ (index_with 1 poll_stuck).2 = Throw (Error "File processing timeout")
  /\ trace (index_with 1 poll_stuck).1
     = (trace prepared ++ UPLOAD :: cycles maxAttempts)%list.
Proof.
  assert (P : prepare unit always_writable (Some "key") clock create_store
                "requirements" "spec.md" empty_world
              = (prepared, Return (SAMPLE_STORE, SAMPLE_TEMP)))
    by (vm_compute; reflexivity).
  destruct (indexing_bounded_and_temp_removed unit always_writable (Some "key") clock
              nat finished create_store (upload_needing 1) poll_stuck
              "requirements" "spec.md" SAMPLE_STORE SAMPLE_TEMP empty_world prepared P)
    as (_ & Hfs & _ & _ & _ & Ht).
  split; [exact Hfs |]. apply Ht.
  - exists 1%nat. split; reflexivity.
  - intros op files e. exists (S op). split; reflexivity.
Defined.

Example indexing_boundaries :
  (index_with 3 poll_once).2 = Return SAMPLE_STORE
  /\ trace (index_with 3 poll_once).1
     = (trace prepared ++ UPLOAD :: cycles 3)%list
  /\ (index_with 30 poll_once).2 = Return SAMPLE_STORE
  /\ trace (index_with 30 poll_once).1
     = (trace prepared ++ UPLOAD :: cycles 30)%list
  /\ (index_with 31 poll_once).2 = Throw (Error "File processing timeout")
  /\ trace (index_with 31 poll_once).1
     = (trace prepared ++ UPLOAD :: cycles 30)%list
  /\ absent (index_with 3 poll_once).1 SAMPLE_TEMP = true
  /\ absent (index_with 31 poll_once).1 SAMPLE_TEMP = true.
Proof. repeat split; vm_compute; reflexivity. Qed.

End IndexingSamples.

(** * Further properties of the sources *)

(** ** Paths *)

Section Paths.
Import JS Sys.

(** A segment that [normalize] keeps as it is. *)
Definition plain (segment : string) : bool :=
  truthy_string segment && lacks "/" segment
  && negb (String.eqb segment ".") && negb (String.eqb segment "..").

(** Segments as [normalize] leaves them: for a relative path some [..]
    first, then plain segments only. *)
Fixpoint settled (allowAboveRoot : bool) (l : list string) : bool :=
  match l with
  | [] => true
  | segment :: rest =>
      if allowAboveRoot && String.eqb segment ".." then settled allowAboveRoot rest
      else forallb plain l
  end.

(** A path in normal form that names something: the root mark, then
    settled segments, at least one, and no separator at the end. *)
Definition normal (path : string) : Prop :=
  exists (isAbsolute : bool) (l : list string),
    l <> [] /\ settled (negb isAbsolute) l = true
    /\ path = (if isAbsolute then "/" else "") ++ String.concat "/" l.

Lemma segments_nonempty (path : string) : segments path <> [].
Proof.
  destruct path as [|c rest]; cbn [segments]; [discriminate |].
  destruct (Ascii.eqb c "/"); [discriminate |]. now destruct (segments rest).
Qed.

Lemma segments_plain (k : string) : lacks "/" k = true -> segments k = [k].
Proof.
  unfold lacks. induction k as [|c k IH]; [reflexivity |].
  cbn [forallb_string segments]. intros [Hc Hk]%andb_true_iff.
  apply negb_true_iff in Hc. now rewrite Hc, (IH Hk).
Qed.

Lemma segments_app (a b : string) :
  segments (a ++ "/" ++ b) = (segments a ++ segments b)%list.
Proof.
  induction a as [|c a IH]; [reflexivity |].
  cbn [String.append segments]. cbn [String.append] in IH. rewrite IH.
  destruct (Ascii.eqb c "/"); [reflexivity |].
  pose proof (segments_nonempty a) as N. now destruct (segments a).
Qed.

Lemma segments_lack_slash (path : string) :
  Forall (fun s => lacks "/" s = true) (segments path).
Proof.
  unfold lacks. induction path as [|c rest IH]; cbn [segments].
  - now repeat constructor.
  - destruct (Ascii.eqb c "/") eqn:E; [now constructor |].
    destruct (segments rest) as [|h t]; [now repeat constructor; cbn; rewrite E |].
    inversion IH; subst. constructor; [| assumption].
    cbn [forallb_string]. now rewrite E.
Qed.

Lemma concat_snoc (l : list string) (k : string) :
  l <> [] -> String.concat "/" (l ++ [k]) = String.concat "/" l ++ "/" ++ k.
Proof.
  induction l as [|x l IH]; [congruence |]. intros _.
  destruct l as [|y l]; [reflexivity |].
  change ((x :: y :: l) ++ [k])%list with (x :: ((y :: l) ++ [k]))%list.
  change (String.concat "/" (x :: (y :: l) ++ [k]))
    with (x ++ "/" ++ String.concat "/" ((y :: l) ++ [k])).
  rewrite IH by discriminate.
  change (String.concat "/" (x :: y :: l)) with (x ++ "/" ++ String.concat "/" (y :: l)).
  now rewrite !append_assoc.
Qed.

Lemma plain_inv (k : string) :
  plain k = true ->
  truthy_string k = true /\ lacks "/" k = true
  /\ String.eqb k "." = false /\ String.eqb k ".." = false.
Proof.
  unfold plain. intros [[[H1 H2]%andb_true_iff H3]%andb_true_iff H4]%andb_true_iff.
  apply negb_true_iff in H3, H4. auto.
Qed.

Lemma step_plain (allow : bool) (res : list string) (k : string) :
  plain k = true -> step allow res k = k :: res.
Proof.
  intros (T & _ & D1 & D2)%plain_inv. unfold step. rewrite D1, D2.
  destruct k; [discriminate T | reflexivity].
Qed.

Lemma settled_all_plain (allow : bool) (l : list string) :
  forallb plain l = true -> settled allow l = true.
Proof.
  induction l as [|x l IH]; [reflexivity |]. intros H. cbn [settled].
  destruct (allow && String.eqb x "..") eqn:E; [| exact H].
  cbn [forallb] in H. apply andb_true_iff in H as [Hx _].
  apply plain_inv in Hx as (_ & _ & _ & D). apply andb_true_iff in E as [_ E]. congruence.
Qed.

Lemma settled_snoc_plain (allow : bool) (l : list string) (k : string) :
  settled allow l = true -> plain k = true -> settled allow (l ++ [k]) = true.
Proof.
  intros Hl Hk. induction l as [|x l IH]; cbn [app settled].
  - destruct (allow && String.eqb k ".."); [reflexivity |]. cbn. now rewrite Hk.
  - cbn [settled] in Hl. destruct (allow && String.eqb x "..").
    + now apply IH.
    + change (x :: (l ++ [k]))%list with ((x :: l) ++ [k])%list.
      rewrite forallb_app, Hl. cbn. now rewrite Hk.
Qed.

(** The segments of a settled list are all [..] or end with a plain one. *)
Lemma settled_snoc_inv (allow : bool) (l : list string) (x : string) :
  settled allow (l ++ [x]) = true ->
  settled allow l = true
  /\ (plain x = true
      \/ (allow = true /\ x = ".." /\ Forall (fun s => s = "..") l)).
Proof.
  induction l as [|y l IH]; cbn [app settled].
  - destruct (allow && String.eqb x "..") eqn:E.
    + intros _. split; [reflexivity |]. right.
      apply andb_true_iff in E as [-> E]. apply String.eqb_eq in E. auto.
    + cbn. rewrite andb_true_r. auto.
  - destruct (allow && String.eqb y "..") eqn:E.
    + intros H. destruct (IH H) as [Hl [Hx | (Ha & Hx & Hd)]]; split; auto.
      right. apply andb_true_iff in E as [_ E]. apply String.eqb_eq in E. auto.
    + change (y :: (l ++ [x]))%list with ((y :: l) ++ [x])%list.
      rewrite forallb_app. intros [H1 H2]%andb_true_iff. split; [exact H1 |].
      left. cbn in H2. now rewrite andb_true_r in H2.
Qed.

(** Settled segments pass through [normalizeString] unchanged. *)
Lemma fold_settled (allow : bool) (l : list string) :
  settled allow l = true -> fold_left (step allow) l [] = rev l.
Proof.
  induction l as [|x l IH] using rev_ind; [reflexivity |].
  intros H. apply settled_snoc_inv in H as [Hl Hx].
  rewrite fold_left_app, rev_app_distr, (IH Hl). cbn [fold_left rev app].
  destruct Hx as [Hx | (-> & -> & Hd)]; [now apply step_plain |].
  unfold step. cbn [String.eqb Ascii.eqb Bool.eqb orb].
  destruct (rev l) as [|top before] eqn:R; [reflexivity |].
  assert (T : top = "..").
  { rewrite List.Forall_forall in Hd. apply Hd.
    apply (proj2 (List.in_rev l top)). rewrite R. now left. }
  subst top. reflexivity.
Qed.

(** What [normalizeString] keeps is settled. *)
Lemma fold_step_settled (allow : bool) (l res : list string) :
  Forall (fun s => lacks "/" s = true) l ->
  settled allow (rev res) = true ->
  settled allow (rev (fold_left (step allow) l res)) = true.
Proof.
  intros Hl. revert res. induction Hl as [|x l Hx _ IH]; intros res Hres; [exact Hres |].
  cbn [fold_left]. apply IH. unfold step.
  destruct (String.eqb x "" || String.eqb x ".") eqn:E1; [exact Hres |].
  apply orb_false_iff in E1 as [E0 E1].
  destruct (String.eqb x "..") eqn:E2.
  - destruct res as [|top before].
    + now destruct allow.
    + cbn [rev] in Hres. apply settled_snoc_inv in Hres as [Hb Ht].
      destruct (String.eqb top "..") eqn:E3; [| exact Hb].
      apply String.eqb_eq in E3. subst top.
      destruct allow; [| cbn [rev]; destruct Ht as [Ht | (? & _)]; [| discriminate];
                         apply plain_inv in Ht as (_ & _ & _ & D); discriminate D].
      destruct Ht as [Ht | (_ & _ & Hd)];
        [apply plain_inv in Ht as (_ & _ & _ & D); discriminate D |].
      cbn [rev]. clear -Hd.
      assert (A : forall m, Forall (fun s => s = "..") m -> settled true m = true).
      { induction m as [|y m IHm]; [reflexivity |]. intros F. inversion F; subst.
        cbn [settled andb String.eqb Ascii.eqb Bool.eqb]. auto. }
      apply A. rewrite <- app_assoc. apply Forall_app. split; [exact Hd |].
      now repeat constructor.
  - cbn [rev]. apply settled_snoc_plain; [exact Hres |].
    unfold plain. rewrite Hx, E1, E2. destruct x; [discriminate E0 | reflexivity].
Qed.

Lemma ends_with_slash_app (a k : string) :
  truthy_string k = true -> ends_with_slash (a ++ k) = ends_with_slash k.
Proof.
  intros T. induction a as [|c a IH]; [reflexivity |].
  cbn [String.append ends_with_slash]. destruct (a ++ k) eqn:E; [| exact IH].
  destruct a; [| discriminate E]. cbn in E. subst k. discriminate T.
Qed.

Lemma ends_with_slash_plain (k : string) :
  truthy_string k = true -> lacks "/" k = true -> ends_with_slash k = false.
Proof.
  unfold lacks. induction k as [|c k IH]; [discriminate |]. intros _.
  cbn [forallb_string ends_with_slash]. intros [Hc Hk]%andb_true_iff.
  destruct k as [|d k]; [| now apply IH].
  apply negb_true_iff in Hc. exact Hc.
Qed.

Lemma concat_truthy (l : list string) (x : string) :
  truthy_string x = true -> truthy_string (String.concat "/" (l ++ [x])) = true.
Proof.
  intros T. destruct l as [|y l].
  - cbn. exact T.
  - rewrite concat_snoc by discriminate.
    destruct (String.concat "/" (y :: l)); reflexivity.
Qed.

Lemma starts_with_slash_plain (k : string) :
  lacks "/" k = true -> starts_with_slash k = false.
Proof.
  destruct k as [|d k]; [reflexivity |]. unfold lacks.
  cbn [forallb_string starts_with_slash]. intros [S _]%andb_true_iff.
  now apply negb_true_iff in S.
Qed.

Lemma join_empty (k : string) : plain k = true -> join "" k = k.
Proof.
  intros Hk. pose proof Hk as (T & S & D1 & D2)%plain_inv.
  unfold join. cbn [truthy_string]. rewrite T. unfold normalize. rewrite T.
  rewrite (starts_with_slash_plain _ S), (ends_with_slash_plain _ T S).
  cbv zeta. cbn [negb]. unfold normalizeString. rewrite (segments_plain _ S).
  cbn [fold_left]. rewrite (step_plain _ _ _ Hk). cbn [rev app String.concat].
  rewrite T. cbn [String.append]. apply append_nil_r.
Qed.

(** The segments that [normalizeString] keeps of a directory. *)
Definition kept (dir : string) : list string :=
  rev (fold_left (step (negb (starts_with_slash dir))) (segments dir) []).

Lemma kept_settled (dir : string) :
  settled (negb (starts_with_slash dir)) (kept dir) = true.
Proof. apply fold_step_settled; [apply segments_lack_slash | reflexivity]. Qed.

Lemma join_onto (dir k : string) :
  truthy_string dir = true -> plain k = true ->
  join dir k = (if starts_with_slash dir then "/" else "")
               ++ String.concat "/" (kept dir ++ [k]).
Proof.
  intros Td Hk. pose proof Hk as (T & S & D1 & D2)%plain_inv.
  unfold join. rewrite Td, T.
  assert (Tj : truthy_string (dir ++ "/" ++ k) = true)
    by (destruct dir; [discriminate Td | reflexivity]).
  rewrite Tj. unfold normalize. rewrite Tj. cbv zeta.
  replace (starts_with_slash (dir ++ "/" ++ k)) with (starts_with_slash dir)
    by (destruct dir; [discriminate Td | reflexivity]).
  replace (ends_with_slash (dir ++ "/" ++ k)) with false.
  2:{ rewrite <- append_assoc, ends_with_slash_app by exact T.
      symmetry. now apply ends_with_slash_plain. }
  unfold normalizeString. rewrite segments_app, (segments_plain _ S), fold_left_app.
  cbn [fold_left]. rewrite (step_plain _ _ _ Hk). cbn [rev]. fold (kept dir).
  rewrite (concat_truthy (kept dir) k T). now rewrite append_nil_r.
Qed.

(** The part of [join dir k] before a plain segment [k]. *)
Definition stem (dir : string) : string :=
  if truthy_string dir then
    (if starts_with_slash dir then "/" else "")
    ++ match kept dir with
       | [] => ""
       | _ => String.concat "/" (kept dir) ++ "/"
       end
  else "".

(** Joining a plain segment to any directory: the result ends with the
    segment, after a stem that the directory alone determines, and is in
    normal form. *)
Lemma join_plain_any (dir k : string) :
  plain k = true -> join dir k = stem dir ++ k /\ normal (join dir k).
Proof.
  intros Hk. unfold stem. destruct (truthy_string dir) eqn:Td.
  - rewrite (join_onto _ _ Td Hk). split.
    + destruct (kept dir) as [|y l'] eqn:K.
      * cbn [app String.concat]. now rewrite append_nil_r.
      * rewrite concat_snoc by discriminate. now rewrite !append_assoc.
    + exists (starts_with_slash dir), (kept dir ++ [k])%list.
      split; [now destruct (kept dir) |]. split; [| reflexivity].
      apply settled_snoc_plain; [apply kept_settled | exact Hk].
  - destruct dir; [| discriminate Td]. rewrite (join_empty _ Hk).
    split; [reflexivity |]. exists false, [k]. split; [discriminate |].
    split; [| reflexivity]. cbn [negb settled andb forallb].
    apply plain_inv in Hk as Hk'. destruct Hk' as (_ & _ & _ & D).
    rewrite D. unfold forallb. now rewrite Hk.
Qed.

Lemma segments_concat (l : list string) :
  l <> [] -> Forall (fun s => lacks "/" s = true) l ->
  segments (String.concat "/" l) = l.
Proof.
  induction l as [|x l IH]; [congruence |]. intros _ F. inversion F; subst.
  destruct l as [|y l]; [now apply segments_plain |].
  change (String.concat "/" (x :: y :: l)) with (x ++ "/" ++ String.concat "/" (y :: l)).
  rewrite segments_app, segments_plain by assumption.
  now rewrite IH.
Qed.

Lemma settled_lack_slash (allow : bool) (l : list string) :
  settled allow l = true -> Forall (fun s => lacks "/" s = true) l.
Proof.
  induction l as [|x l IH]; [constructor |]. cbn [settled].
  destruct (allow && String.eqb x "..") eqn:E.
  - intros H. constructor; [| now apply IH].
    apply andb_true_iff in E as [_ E]. apply String.eqb_eq in E. now subst x.
  - intros H. apply List.Forall_forall. intros s Hs.
    rewrite List.forallb_forall in H. specialize (H s Hs).
    now apply plain_inv in H as (_ & S & _).
Qed.

(** Joining a plain segment to a directory in normal form appends it. *)
Lemma join_plain (dir k : string) :
  normal dir -> plain k = true ->
  join dir k = dir ++ "/" ++ k /\ normal (dir ++ "/" ++ k).
Proof.
  intros (abs & l & Hne & Hl & ->) Hk.
  assert (E : join ((if abs then "/" else "") ++ String.concat "/" l) k
              = ((if abs then "/" else "") ++ String.concat "/" l) ++ "/" ++ k).
  { pose proof Hk as (T & S & D1 & D2)%plain_inv.
    set (dir := (if abs then "/" else "") ++ String.concat "/" l).
    assert (Tl : truthy_string (String.concat "/" l) = true).
    { destruct l as [|x l']; [congruence |].
      assert (Tx : truthy_string x = true).
      { cbn [settled] in Hl. destruct (negb abs && String.eqb x "..") eqn:Ex.
        - apply andb_true_iff in Ex as [_ Ex]. apply String.eqb_eq in Ex. now subst x.
        - cbn [forallb] in Hl. apply andb_true_iff in Hl as [Hx _].
          now apply plain_inv in Hx as (Tx & _). }
      destruct l' as [|y l'']; [exact Tx |].
      change (String.concat "/" (x :: y :: l''))
        with (x ++ "/" ++ String.concat "/" (y :: l'')).
      now destruct x. }
    assert (Td : truthy_string dir = true).
    { subst dir. destruct abs; [reflexivity | exact Tl]. }
    assert (A : starts_with_slash dir = abs).
    { subst dir. destruct abs; [reflexivity |]. cbn [String.append].
      destruct l as [|x l']; [congruence |].
      assert (Sx : lacks "/" x = true /\ truthy_string x = true).
      { cbn [settled negb andb] in Hl. destruct (String.eqb x "..") eqn:Ex.
        - apply String.eqb_eq in Ex. now subst x.
        - cbn [forallb] in Hl. apply andb_true_iff in Hl as [Hx _].
          now apply plain_inv in Hx as (Tx & Sx & _). }
      destruct Sx as [Sx Tx]. destruct x as [|c x]; [discriminate Tx |].
      unfold lacks in Sx. cbn [forallb_string] in Sx.
      apply andb_true_iff in Sx as [Sx _]. apply negb_true_iff in Sx.
      destruct l' as [|y l'']; cbn [String.concat String.append starts_with_slash];
        exact Sx. }
    unfold join. rewrite Td, T.
    assert (Tj : truthy_string (dir ++ "/" ++ k) = true)
      by (destruct dir; [discriminate Td | reflexivity]).
    rewrite Tj. unfold normalize. rewrite Tj. cbv zeta.
    replace (starts_with_slash (dir ++ "/" ++ k)) with abs
      by (destruct dir; [discriminate Td | exact (eq_sym A)]).
    replace (ends_with_slash (dir ++ "/" ++ k)) with false.
    2:{ rewrite <- append_assoc, ends_with_slash_app by exact T.
        symmetry. now apply ends_with_slash_plain. }
    unfold normalizeString. rewrite segments_app, (segments_plain _ S), fold_left_app.
    assert (Sd : fold_left (step (negb abs)) (segments dir) [] = rev l).
    { subst dir. destruct abs.
      - change ("/" ++ String.concat "/" l) with (String "/" (String.concat "/" l)).
        cbn [segments Ascii.eqb Bool.eqb].
        rewrite segments_concat by (assumption || eapply settled_lack_slash; eassumption).
        cbn [fold_left]. unfold step at 2. cbn [String.eqb orb].
        now apply fold_settled.
      - cbn [String.append].
        rewrite segments_concat by (assumption || eapply settled_lack_slash; eassumption).
        now apply fold_settled. }
    rewrite Sd. cbn [fold_left]. rewrite step_plain by exact Hk.
    cbn [rev]. rewrite rev_involutive.
    rewrite (concat_truthy l k T), append_nil_r, concat_snoc by assumption.
    subst dir. now rewrite !append_assoc. }
  split; [exact E |].
  exists abs, (l ++ [k])%list. split; [now destruct l |].
  split; [now apply settled_snoc_plain |].
  rewrite concat_snoc by assumption. now rewrite !append_assoc.
Qed.

End Paths.

(** ** The workspace key *)

Section WorkspaceKey.
Import JS Sys GeminiCli.

(** The last segment of the workspace path. *)
Definition workspace_key (prInfo : PRInfo) : string :=
  owner prInfo ++ "-" ++ repo prInfo ++ "-pr" ++ show (pullNumber prInfo).

Lemma repoDir_of_key (cwd : string) (prInfo : PRInfo) :
  repoDir_of cwd prInfo = join (TEMP_DIR cwd) (workspace_key prInfo).
Proof. reflexivity. Qed.

Lemma append_inj_l (a x y : string) : a ++ x = a ++ y -> x = y.
Proof.
  induction a as [|c a IH]; cbn [String.append]; [auto |].
  intros H; inversion H; auto.
Qed.

Lemma forallb_string_app (p : ascii -> bool) (a b : string) :
  forallb_string p (a ++ b) = forallb_string p a && forallb_string p b.
Proof.
  induction a as [|c a IH]; cbn [String.append forallb_string]; [reflexivity |].
  now rewrite IH, andb_assoc.
Qed.

Lemma forallb_string_impl (p q : ascii -> bool) (s : string) :
  (forall c, p c = true -> q c = true) ->
  forallb_string p s = true -> forallb_string q s = true.
Proof.
  intros Hpq. induction s as [|c s IH]; cbn [forallb_string]; [auto |].
  rewrite !andb_true_iff. intros [H1 H2]. auto.
Qed.

Lemma digits_of_uint (d : Decimal.uint) :
  forallb_string is_digit (NilEmpty.string_of_uint d) = true.
Proof. induction d; cbn [NilEmpty.string_of_uint forallb_string]; auto. Qed.

Lemma show_digits (n : N) : forallb_string is_digit (show n) = true.
Proof.
  unfold show, NilZero.string_of_uint.
  destruct (N.to_uint n); try apply digits_of_uint. reflexivity.
Qed.

Lemma show_truthy (n : N) : truthy_string (show n) = true.
Proof.
  unfold show, NilZero.string_of_uint. now destruct (N.to_uint n).
Qed.

Lemma to_uint_nonnil (n : N) : N.to_uint n <> Decimal.Nil.
Proof.
  destruct n as [|p]; [discriminate |]. apply DecimalPos.Unsigned.to_uint_nonnil.
Qed.

Lemma show_inj (a b : N) : show a = show b -> a = b.
Proof.
  unfold show. intros H. apply (f_equal NilZero.uint_of_string) in H.
  rewrite !NilZero.usu in H by apply to_uint_nonnil.
  inversion H. now apply DecimalN.Unsigned.to_uint_inj.
Qed.

Lemma digit_is_no_hyphen (c : ascii) :
  is_digit c = true -> negb (Ascii.eqb c "-") = true.
Proof.
  destruct (Ascii.eqb c "-") eqn:E; [| reflexivity].
  apply Ascii.eqb_eq in E. subst c. discriminate.
Qed.

Lemma digit_is_no_slash (c : ascii) : is_digit c = true -> not_slash c = true.
Proof.
  unfold not_slash. destruct (Ascii.eqb c "/") eqn:E; [| reflexivity].
  apply Ascii.eqb_eq in E. subst c. discriminate.
Qed.

Lemma lacks_no_infix (c : ascii) (a b : string) :
  lacks c (a ++ String c b) = false.
Proof.
  unfold lacks. rewrite forallb_string_app. cbn [forallb_string].
  rewrite Ascii.eqb_refl. cbn [negb andb]. apply andb_false_r.
Qed.

(** A name with a hyphen in it and no slash is a plain segment. *)
Lemma hyphenated_plain (a b : string) :
  lacks "/" a = true -> lacks "/" b = true -> plain (a ++ "-" ++ b) = true.
Proof.
  intros Ha Hb. unfold plain.
  assert (T : truthy_string (a ++ "-" ++ b) = true) by now destruct a.
  assert (S : lacks "/" (a ++ "-" ++ b) = true).
  { unfold lacks in *. rewrite forallb_string_app, Ha.
    cbn [String.append forallb_string]. now rewrite Hb. }
  assert (H : lacks "-" (a ++ "-" ++ b) = false) by apply lacks_no_infix.
  rewrite T, S. cbn [andb].
  destruct (String.eqb (a ++ "-" ++ b) ".") eqn:E1;
    [apply String.eqb_eq in E1; rewrite E1 in H; discriminate H |].
  destruct (String.eqb (a ++ "-" ++ b) "..") eqn:E2;
    [apply String.eqb_eq in E2; rewrite E2 in H; discriminate H |].
  reflexivity.
Qed.

Lemma show_lacks_slash (n : N) : lacks "/" (show n) = true.
Proof.
  exact (forallb_string_impl is_digit not_slash _ digit_is_no_slash (show_digits n)).
Qed.

Lemma workspace_key_plain (prInfo : PRInfo) :
  lacks "/" (owner prInfo) = true -> lacks "/" (repo prInfo) = true ->
  plain (workspace_key prInfo) = true.
Proof.
  intros Ho Hr. apply hyphenated_plain; [exact Ho |].
  unfold lacks in *. rewrite forallb_string_app, Hr.
  change (forallb_string (fun x => negb (Ascii.eqb x "/")) ("-pr" ++ show (pullNumber prInfo)))
    with (lacks "/" (show (pullNumber prInfo))).
  now rewrite show_lacks_slash.
Qed.

Lemma TEMP_DIR_normal (cwd : string) : normal (TEMP_DIR cwd).
Proof. exact (proj2 (join_plain_any cwd "temp" eq_refl)). Qed.

(** For a reference without a slash in its names, as every resolved one,
    [path.join] leaves the workspace name as it is. *)
Lemma repoDir_of_child (cwd : string) (prInfo : PRInfo) :
  lacks "/" (owner prInfo) = true -> lacks "/" (repo prInfo) = true ->
  repoDir_of cwd prInfo = TEMP_DIR cwd ++ "/" ++ workspace_key prInfo
  /\ normal (repoDir_of cwd prInfo).
Proof.
  intros Ho Hr. rewrite repoDir_of_key.
  destruct (join_plain (TEMP_DIR cwd) (workspace_key prInfo) (TEMP_DIR_normal cwd)
              (workspace_key_plain prInfo Ho Hr)) as [E N].
  now rewrite E.
Qed.

(** The names of a resolved reference hold no slash. *)
Lemma resolved_lacks_slash (url : string) (prInfo : PRInfo) :
  parsePRUrl url = Return prInfo ->
  lacks "/" (owner prInfo) = true /\ lacks "/" (repo prInfo) = true.
Proof.
  unfold parsePRUrl.
  destruct (Github.regex_match url) as [[[g1 g2] g3]|] eqn:M; [| discriminate].
  intros [= <-]. cbn [owner repo].
  apply regex_match_sound in M as (pre & rest & _ & Ho & Hr & _).
  apply segment_ok_inv in Ho as [_ Ho]. apply segment_ok_inv in Hr as [_ Hr].
  split; assumption.
Qed.

(** A plain name below a directory in normal form is left as it is. *)
Lemma join_child (dir k : string) :
  normal dir -> plain k = true -> join dir k = dir ++ "/" ++ k.
Proof. intros N K. exact (proj1 (join_plain dir k N K)). Qed.

End WorkspaceKey.

(** ** What [setupTempDir] and [cleanup] touch *)

Section WorkspaceFrame.
Import JS Sys GeminiCli.
Variable Ext : Type.
Variable process_cwd : string.

Lemma rmSync_keeps (p x : string) (w : World Ext) :
  within p x = false -> fs (rmSync p w).1 !! x = fs w !! x.
Proof.
  intros H. unfold rmSync. cbn [fst fs].
  destruct (fs w !! x) as [v|] eqn:L.
  - apply map_lookup_filter_Some_2; [assumption | exact H].
  - apply map_lookup_filter_None_2. now left.
Qed.

Lemma append_longer (a b : string) :
  (String.length a < String.length (a ++ "/" ++ b))%nat.
Proof. rewrite length_append. cbn [String.append String.length]. lia. Qed.

(** The directory above a path is not below it. *)
Lemma within_parent (dir name : string) : within (dir ++ "/" ++ name) dir = false.
Proof.
  unfold within. apply orb_false_iff. split.
  - apply String.eqb_neq. intros E.
    pose proof (append_longer dir name) as L. rewrite <- E in L. lia.
  - destruct (strip_prefix ((dir ++ "/" ++ name) ++ "/") dir) as [r|] eqn:S;
      [| reflexivity].
    apply strip_prefix_length in S. pose proof (append_longer dir name) as L.
    rewrite length_append in S. lia.
Qed.

Lemma setupTempDir_eq (prInfo : PRInfo) (w : World Ext) :
  setupTempDir Ext process_cwd prInfo w
  = let repoDir := repoDir_of process_cwd prInfo in
    let cleared :=
      if bool_decide (is_Some (fs w !! repoDir)) then (rmSync repoDir w).1 else w in
    (if bool_decide (is_Some (fs cleared !! TEMP_DIR process_cwd)) then cleared
     else (mkdirSync (TEMP_DIR process_cwd) cleared).1,
     Return repoDir).
Proof.
  unfold setupTempDir, mbind, M_bind, bindM, existsSync, mret, M_ret, ret.
  cbv zeta.
  destruct (bool_decide (is_Some (fs w !! repoDir_of process_cwd prInfo)));
    cbn [rmSync mkdirSync fst fs];
    match goal with
    | |- context [bool_decide ?P] => destruct (bool_decide P)
    end; reflexivity.
Qed.

(** X1. For a reference without a slash in its owner and repository, as
    every resolved reference is, [setupTempDir] returns the workspace path
    and never throws. After it nothing is at that path, and nothing below it
    when a stale directory was there; the temporary root exists; every other
    entry of the file system, an existing temporary root included, is as
    before. *)
Theorem setupTempDir_prepares_workspace (prInfo : PRInfo) (w : World Ext) :
  lacks "/" (owner prInfo) = true ->
  lacks "/" (repo prInfo) = true ->
  let after := setupTempDir Ext process_cwd prInfo w in
  let repoDir := repoDir_of process_cwd prInfo in
  after.2 = Return repoDir
  /\ fs after.1 !! repoDir = None
  /\ (is_Some (fs w !! repoDir) ->
      forall p, within repoDir p = true -> fs after.1 !! p = None)
  /\ is_Some (fs after.1 !! TEMP_DIR process_cwd)
  /\ (forall p, within repoDir p = false ->
                p <> TEMP_DIR process_cwd \/ is_Some (fs w !! p) ->
                fs after.1 !! p = fs w !! p)
  /\ ext after.1 = ext w
  /\ trace after.1 = trace w.
Proof.
  intros Howner Hrepo.
  cbv zeta. rewrite setupTempDir_eq. cbv zeta. cbn [fst snd].
  set (repoDir := repoDir_of process_cwd prInfo).
  set (cleared := if bool_decide (is_Some (fs w !! repoDir))
                  then (rmSync repoDir w).1 else w).
  assert (Hparent : within repoDir (TEMP_DIR process_cwd) = false).
  { subst repoDir. rewrite (proj1 (repoDir_of_child process_cwd prInfo Howner Hrepo)).
    apply within_parent. }
  assert (Hgone : fs cleared !! repoDir = None).
  { subst cleared. destruct (bool_decide (is_Some (fs w !! repoDir))) eqn:B.
    - apply rmSync_removes, within_refl.
    - apply bool_decide_eq_false in B.
      destruct (fs w !! repoDir) eqn:L; [exfalso; apply B; eauto | reflexivity]. }
  assert (Htree : is_Some (fs w !! repoDir) ->
                  forall p, within repoDir p = true -> fs cleared !! p = None).
  { intros Hs p Hp. subst cleared. rewrite bool_decide_eq_true_2 by assumption.
    now apply rmSync_removes. }
  assert (Hkeep : forall p, within repoDir p = false -> fs cleared !! p = fs w !! p).
  { intros p Hp. subst cleared. destruct (bool_decide _); [| reflexivity].
    now apply rmSync_keeps. }
  assert (Hext : ext cleared = ext w /\ trace cleared = trace w).
  { subst cleared. now destruct (bool_decide _). }
  assert (Hne : repoDir <> TEMP_DIR process_cwd).
  { intros E. rewrite <- E, within_refl in Hparent. discriminate. }
  destruct (bool_decide (is_Some (fs cleared !! TEMP_DIR process_cwd))) eqn:B.
  - apply bool_decide_eq_true in B.
    split; [reflexivity |]. split; [assumption |]. split; [assumption |].
    split; [assumption |]. split; [intros p Hp _; now apply Hkeep |]. exact Hext.
  - apply bool_decide_eq_false in B. cbn [mkdirSync fst fs ext trace].
    split; [reflexivity |].
    split; [rewrite lookup_insert_ne by congruence; assumption |].
    split.
    { intros Hs p Hp. rewrite lookup_insert_ne; [now apply Htree |].
      intros E. subst p. rewrite Hparent in Hp. discriminate. }
    split; [rewrite lookup_insert_eq; eauto |].
    split; [| exact Hext].
    intros p Hp [Hq | Hs].
    + rewrite lookup_insert_ne by congruence. now apply Hkeep.
    + destruct (decide (p = TEMP_DIR process_cwd)) as [-> | Hq].
      * exfalso. apply B. now rewrite Hkeep.
      * rewrite lookup_insert_ne by congruence. now apply Hkeep.
Qed.

(** X2. [cleanup] never throws and touches the workspace only: entries that
    are neither the workspace directory nor below it are kept; when the
    directory exists, it and everything below it are removed; when it does
    not, nothing changes, so a second [cleanup] is a no-op. *)
Theorem cleanup_removes_only_workspace (repoDir : string) (w : World Ext) :
  let after := cleanup Ext repoDir w in
  after.2 = Return tt
  /\ (forall p, within repoDir p = false -> fs after.1 !! p = fs w !! p)
  /\ (is_Some (fs w !! repoDir) ->
      forall p, within repoDir p = true -> fs after.1 !! p = None)
  /\ (fs w !! repoDir = None -> after.1 = w)
  /\ cleanup Ext repoDir after.1 = (after.1, Return tt)
  /\ ext after.1 = ext w
  /\ trace after.1 = trace w.
Proof.
  cbv zeta.
  assert (Habsent : forall w0 : World Ext,
             fs w0 !! repoDir = None -> cleanup Ext repoDir w0 = (w0, Return tt)).
  { intros w0 H0.
    unfold cleanup, mbind, M_bind, bindM, existsSync, mret, M_ret, ret.
    rewrite bool_decide_eq_false_2; [reflexivity |].
    rewrite H0. intros [x Hx]. discriminate. }
  destruct (cleanup_removes Ext repoDir w) as [Hret Hgone].
  split; [exact Hret |].
  split.
  { intros p Hp. destruct (fs w !! repoDir) eqn:L.
    - unfold cleanup, mbind, M_bind, bindM, existsSync, mret, M_ret, ret.
      rewrite bool_decide_eq_true_2 by eauto. now apply rmSync_keeps.
    - now rewrite Habsent. }
  split; [intros Hs p Hp; now apply cleanup_removes_tree |].
  split; [intros H0; now rewrite Habsent |].
  split; [now apply Habsent |].
  unfold cleanup, mbind, M_bind, bindM, existsSync, mret, M_ret, ret.
  now destruct (bool_decide _).
Qed.

End WorkspaceFrame.

Section WorkspaceFrameSample.
Import JS Sys GeminiCli.

(** A file system in which an earlier review left its clone. *)
Definition stale_world : World unit :=
  mkWorld (<[join SAMPLE_DIR "README.md" := File "widgets"]>
             (<[SAMPLE_DIR := Dir]> (<["/srv/api/temp" := Dir]> ∅))) tt [].

Lemma setupTempDir_clears_stale_clone :
  (setupTempDir unit "/srv/api" SAMPLE_PR stale_world).2 = Return SAMPLE_DIR
  /\ fs (setupTempDir unit "/srv/api" SAMPLE_PR stale_world).1 !! SAMPLE_DIR = None
  /\ fs (setupTempDir unit "/srv/api" SAMPLE_PR stale_world).1
        !! join SAMPLE_DIR "README.md" = None.
Proof.
  pose proof (setupTempDir_prepares_workspace unit "/srv/api" SAMPLE_PR stale_world
                eq_refl eq_refl) as H.
  cbv zeta in H. destruct H as (H1 & H2 & H3 & _).
  split; [exact H1 |]. split; [exact H2 |].
  apply H3; [exists Dir |]; reflexivity.
Defined.

(** A record with dot segments in its owner, which no locator resolves to:
    [path.join] resolves them, and the workspace is the working directory,
    above the temporary root. *)
Example workspace_of_climbing_owner :
  repoDir_of "/srv/a-b-pr1" (mkPRInfo "../../a" "b" 1 "") = "/srv/a-b-pr1"
  /\ within (repoDir_of "/srv/a-b-pr1" (mkPRInfo "../../a" "b" 1 ""))
       (TEMP_DIR "/srv/a-b-pr1") = true.
Proof. split; vm_compute; reflexivity. Qed.

End WorkspaceFrameSample.

(** ** Workspaces of different references *)

Section WorkspaceNames.
Import JS Sys GeminiCli.

(** A repository name, the mark and a number can be read back from the end:
    the number holds no hyphen. *)
Lemma key_tail_inj (r1 r2 d1 d2 : string) :
  lacks "-" d1 = true -> lacks "-" d2 = true ->
  r1 ++ "-pr" ++ d1 = r2 ++ "-pr" ++ d2 -> r1 = r2 /\ d1 = d2.
Proof.
  intros H1 H2. revert r2; induction r1 as [|c r1 IH]; intros [|c2 r2] E.
  - cbn [String.append] in E. inversion E. auto.
  - cbn [String.append] in E. inversion E as [[Ec Et]]. exfalso.
    assert (L : lacks "-" (String "p" (String "r" d1)) = true)
      by (unfold lacks in *; cbn [forallb_string]; now rewrite H1).
    rewrite Et in L. now rewrite lacks_no_infix in L.
  - cbn [String.append] in E. inversion E as [[Ec Et]]. exfalso.
    assert (L : lacks "-" (String "p" (String "r" d2)) = true)
      by (unfold lacks in *; cbn [forallb_string]; now rewrite H2).
    rewrite <- Et in L. now rewrite lacks_no_infix in L.
  - cbn [String.append] in E. inversion E as [[Ec Et]].
    destruct (IH r2 Et) as [-> ->]. auto.
Qed.

(** X3. Two references without a slash in their names, as every resolved
    reference is, and whose owners hold no hyphen share a workspace only
    when they are the same owner, repository and pull number: reviews of
    different pull requests of such owners never meet in one directory. *)
Theorem workspace_distinct_without_hyphen (cwd : string) (a b : PRInfo) :
  lacks "/" (owner a) = true -> lacks "/" (repo a) = true ->
  lacks "/" (owner b) = true -> lacks "/" (repo b) = true ->
  lacks "-" (owner a) = true -> lacks "-" (owner b) = true ->
  repoDir_of cwd a = repoDir_of cwd b ->
  owner a = owner b /\ repo a = repo b /\ pullNumber a = pullNumber b.
Proof.
  intros Sa Ra Sb Rb Ha Hb E.
  rewrite (proj1 (repoDir_of_child cwd a Sa Ra)) in E.
  rewrite (proj1 (repoDir_of_child cwd b Sb Rb)) in E.
  apply append_inj_l in E. cbn [String.append] in E. inversion E as [K].
  unfold workspace_key in K.
  pose proof (f_equal (span (fun x => negb (Ascii.eqb x "-"))) K) as S.
  rewrite !span_exact in S by (assumption || reflexivity).
  inversion S as [[Ho Hr]]. split; [congruence |].
  apply (key_tail_inj (repo a) (repo b)) in Hr as [Hr Hn].
  - split; [assumption | now apply show_inj].
  - eapply forallb_string_impl; [apply digit_is_no_hyphen | apply show_digits].
  - eapply forallb_string_impl; [apply digit_is_no_hyphen | apply show_digits].
Qed.

Lemma workspace_distinct_sample :
  owner (mkPRInfo "acme" "widgets" 42 "https://github.com/acme/widgets.git")
  = owner (mkPRInfo "acme" "widgets" 42 "git@github.com:acme/widgets.git")
  /\ repo (mkPRInfo "acme" "widgets" 42 "https://github.com/acme/widgets.git")
     = repo (mkPRInfo "acme" "widgets" 42 "git@github.com:acme/widgets.git")
  /\ pullNumber (mkPRInfo "acme" "widgets" 42 "https://github.com/acme/widgets.git")
     = pullNumber (mkPRInfo "acme" "widgets" 42 "git@github.com:acme/widgets.git").
Proof.
  apply (workspace_distinct_without_hyphen "/srv/api"); reflexivity.
Defined.

(** Without that condition the names are not told apart: [path.join]
    resolves the dot segments of a name. *)
Example workspace_of_dotted_owner :
  repoDir_of "/srv/api" (mkPRInfo "x/../acme" "widgets" 42 "")
  = repoDir_of "/srv/api" (mkPRInfo "acme" "widgets" 42 "").
Proof. vm_compute. reflexivity. Qed.

Lemma segment_ok_hyphenated (a b : string) :
  segment_ok a = true -> segment_ok b = true -> segment_ok (a ++ "-" ++ b) = true.
Proof.
  intros [Ta Fa]%segment_ok_inv [Tb Fb]%segment_ok_inv. unfold segment_ok.
  rewrite (truthy_append _ _ Ta), forallb_string_app, Fa.
  cbn [String.append forallb_string]. now rewrite Fb.
Qed.

Lemma append_not_self (a b : string) : a ++ "-" ++ b <> a.
Proof.
  intros E. apply (f_equal String.length) in E. rewrite length_append in E.
  cbn [String.append String.length] in E. lia.
Qed.

(** X4. A hyphen can move between the owner and the repository without
    changing the workspace: the pull requests [o-x/r#n] and [o/x-r#n] are
    different references that both resolve, and they are given the same
    workspace directory. *)
Theorem workspace_shared_across_hyphen (cwd o x r ds : string) :
  segment_ok o = true -> segment_ok x = true -> segment_ok r = true ->
  number_ok ds = true ->
  exists a b,
    parsePRUrl (locator "https://" (o ++ "-" ++ x) r ds "") = Return a
    /\ parsePRUrl (locator "https://" o (x ++ "-" ++ r) ds "") = Return b
    /\ owner a <> owner b
    /\ pullNumber a = pullNumber b
    /\ repoDir_of cwd a = repoDir_of cwd b.
Proof.
  intros Ho Hx Hr Hd.
  pose proof (regex_match_leftmost "https://" (o ++ "-" ++ x) r ds "" eq_refl
                (segment_ok_hyphenated o x Ho Hx) Hr Hd eq_refl) as M1.
  pose proof (regex_match_leftmost "https://" o (x ++ "-" ++ r) ds "" eq_refl
                Ho (segment_ok_hyphenated x r Hx Hr) Hd eq_refl) as M2.
  unfold parsePRUrl. rewrite M1, M2.
  eexists. eexists. split; [reflexivity |]. split; [reflexivity |].
  cbn [owner repo pullNumber]. split; [apply append_not_self |].
  split; [reflexivity |].
  unfold repoDir_of. cbn [owner repo pullNumber].
  f_equal. now rewrite !append_assoc.
Qed.

Lemma workspace_shared_sample :
  exists a b,
    parsePRUrl "https://github.com/rust-lang/book/pull/7" = Return a
    /\ parsePRUrl "https://github.com/rust/lang-book/pull/7" = Return b
    /\ owner a <> owner b
    /\ pullNumber a = pullNumber b
    /\ repoDir_of "/srv/api" a = repoDir_of "/srv/api" b.
Proof.
  exact (workspace_shared_across_hyphen "/srv/api" "rust" "lang" "book" "7"
           eq_refl eq_refl eq_refl eq_refl).
Defined.

(** X5. For every locator that resolves, the workspace name holds no slash
    and is neither empty nor a dot segment, so [path.join] leaves it as it
    is: the workspace path, which [existsSync] and [rmSync] receive as it
    is, is the temporary root, a separator and that name, a direct child of
    the temporary root. This is a statement about the path alone; the
    command line of [git clone], in which the path is written without
    quotes, is no part of it. *)
Theorem workspace_is_child_of_temp (cwd url : string) (prInfo : PRInfo) :
  parsePRUrl url = Return prInfo ->
  lacks "/" (workspace_key prInfo) = true
  /\ workspace_key prInfo <> ""
  /\ workspace_key prInfo <> "."
  /\ workspace_key prInfo <> ".."
  /\ repoDir_of cwd prInfo = TEMP_DIR cwd ++ "/" ++ workspace_key prInfo
  /\ within (TEMP_DIR cwd) (repoDir_of cwd prInfo) = true
  /\ within (repoDir_of cwd prInfo) (TEMP_DIR cwd) = false.
Proof.
  unfold parsePRUrl.
  destruct (Github.regex_match url) as [[[g1 g2] g3]|] eqn:M; [| discriminate].
  intros H; inversion H; subst; clear H.
  apply regex_match_sound in M as (pre & rest & _ & Ho & Hr & _).
  apply segment_ok_inv in Ho as [_ Ho]. apply segment_ok_inv in Hr as [_ Hr].
  match goal with
  | |- context [workspace_key ?i] => set (info := i)
  end.
  assert (Hp : plain (workspace_key info) = true) by now apply workspace_key_plain.
  apply plain_inv in Hp as (T & S & D1 & D2).
  split; [exact S |].
  split; [intros E; rewrite E in T; discriminate |].
  split; [intros E; rewrite E in D1; discriminate |].
  split; [intros E; rewrite E in D2; discriminate |].
  destruct (repoDir_of_child cwd info Ho Hr) as [E _].
  split; [exact E |]. rewrite E. split; [| apply within_parent].
  unfold within. apply orb_true_iff. right.
  rewrite <- append_assoc. now rewrite strip_prefix_app.
Qed.

Lemma workspace_is_child_sample :
  lacks "/" (workspace_key SAMPLE_PR) = true
  /\ workspace_key SAMPLE_PR <> ""
  /\ workspace_key SAMPLE_PR <> "."
  /\ workspace_key SAMPLE_PR <> ".."
  /\ repoDir_of "/srv/api" SAMPLE_PR
     = TEMP_DIR "/srv/api" ++ "/" ++ workspace_key SAMPLE_PR
  /\ within (TEMP_DIR "/srv/api") (repoDir_of "/srv/api" SAMPLE_PR) = true
  /\ within (repoDir_of "/srv/api" SAMPLE_PR) (TEMP_DIR "/srv/api") = false.
Proof.
  exact (workspace_is_child_of_temp "/srv/api" SAMPLE_URL SAMPLE_PR eq_refl).
Defined.

End WorkspaceNames.

(** ** Acquisition of the pull request *)

Section Acquisition.
Import JS Sys GeminiCli.
Variable Ext : Type.
Variable run : string -> ExecOptions -> oracle Ext (string * string).

(** The address handed to [git clone]. *)
Definition clone_address (prInfo : PRInfo) (githubToken : option string) : string :=
  if given githubToken
  then replace "https://" ("https://" ++ text_of githubToken ++ "@") (cloneUrl prInfo)
  else cloneUrl prInfo.

Definition cloned (prInfo : PRInfo) (repoDir : string) (githubToken : option string)
  : event :=
  EvExec ("git clone --depth 50 " ++ clone_address prInfo githubToken ++ " " ++ repoDir)
    (mkExecOptions None None None).

Definition fetched (prInfo : PRInfo) (repoDir : string) : event :=
  EvExec ("git fetch origin pull/" ++ show (pullNumber prInfo) ++ "/head:pr-"
          ++ show (pullNumber prInfo))
    (mkExecOptions (Some repoDir) None None).

Definition checked_out (prInfo : PRInfo) (repoDir : string) : event :=
  EvExec ("git checkout pr-" ++ show (pullNumber prInfo))
    (mkExecOptions (Some repoDir) None None).

(** Running the command of an event. *)
Definition perform (ev : event) (w : World Ext) : World Ext * completion (string * string) :=
  match ev with
  | EvExec command options => execAsync run command options w
  | _ => (w, Throw (Error "not a command"))
  end.

Lemma execAsync_trace (command : string) (options : ExecOptions) (w : World Ext) :
  trace (execAsync run command options w).1 = (trace w ++ [EvExec command options])%list.
Proof.
  unfold execAsync, bindM, log, ask. cbn [fs ext trace].
  now destruct (run _ _ (fs w) (ext w)) as [[? ?] ?].
Qed.

Lemma mbind_eq (A B : Type) (m : M Ext A) (k : A -> M Ext B) (w : World Ext) :
  (m ≫= k) w
  = match m w with
    | (w', Return a) => k a w'
    | (w', Throw e) => (w', Throw e)
    end.
Proof. reflexivity. Qed.

Lemma cloneAndCheckoutPR_eq (prInfo : PRInfo) (repoDir : string)
  (githubToken : option string) (w : World Ext) :
  cloneAndCheckoutPR Ext run prInfo repoDir githubToken w
  = match perform (cloned prInfo repoDir githubToken) w with
    | (w1, Throw e) => (w1, Throw e)
    | (w1, Return _) =>
        match perform (fetched prInfo repoDir) w1 with
        | (w2, Throw e) => (w2, Throw e)
        | (w2, Return _) =>
            match perform (checked_out prInfo repoDir) w2 with
            | (w3, Throw e) => (w3, Throw e)
            | (w3, Return _) => (w3, Return tt)
            end
        end
    end.
Proof.
  unfold cloneAndCheckoutPR, perform, cloned, fetched, checked_out, clone_address.
  rewrite mbind_eq.
  destruct (execAsync run _ _ w) as [w1 [o1|e1]]; [| reflexivity].
  rewrite mbind_eq.
  destruct (execAsync run _ _ w1) as [w2 [o2|e2]]; [| reflexivity].
  rewrite mbind_eq.
  now destruct (execAsync run _ _ w2) as [w3 [o3|e3]].
Qed.

(** X6. The pull request is acquired by three commands in a fixed order:
    clone into the workspace, fetch the head of the pull request inside the
    workspace, check it out there. The first command that fails ends the
    acquisition with its error, and no later command is run; the acquisition
    returns exactly when all three succeeded. *)
Theorem acquisition_in_order (prInfo : PRInfo) (repoDir : string)
  (githubToken : option string) (w : World Ext) :
  let c := cloned prInfo repoDir githubToken in
  let f := fetched prInfo repoDir in
  let k := checked_out prInfo repoDir in
  let s1 := perform c w in
  let s2 := perform f s1.1 in
  let s3 := perform k s2.1 in
  let final := cloneAndCheckoutPR Ext run prInfo repoDir githubToken w in
  (forall e, s1.2 = Throw e ->
             final = (s1.1, Throw e) /\ trace final.1 = (trace w ++ [c])%list)
  /\ (forall o1 e, s1.2 = Return o1 -> s2.2 = Throw e ->
                   final = (s2.1, Throw e) /\ trace final.1 = (trace w ++ [c; f])%list)
  /\ (forall o1 o2 e, s1.2 = Return o1 -> s2.2 = Return o2 -> s3.2 = Throw e ->
                      final = (s3.1, Throw e)
                      /\ trace final.1 = (trace w ++ [c; f; k])%list)
  /\ (final.2 = Return tt <->
      exists o1 o2 o3, s1.2 = Return o1 /\ s2.2 = Return o2 /\ s3.2 = Return o3)
  /\ (final.2 = Return tt ->
      final.1 = s3.1 /\ trace final.1 = (trace w ++ [c; f; k])%list).
Proof.
  intros c f k s1 s2 s3 final.
  pose proof (execAsync_trace ("git clone --depth 50 "
                               ++ clone_address prInfo githubToken ++ " " ++ repoDir)
                (mkExecOptions None None None) w) as T1.
  pose proof (execAsync_trace ("git fetch origin pull/" ++ show (pullNumber prInfo)
                               ++ "/head:pr-" ++ show (pullNumber prInfo))
                (mkExecOptions (Some repoDir) None None) s1.1) as T2.
  pose proof (execAsync_trace ("git checkout pr-" ++ show (pullNumber prInfo))
                (mkExecOptions (Some repoDir) None None) s2.1) as T3.
  change (trace s1.1 = (trace w ++ [c])%list) in T1.
  change (trace s2.1 = (trace s1.1 ++ [f])%list) in T2.
  change (trace s3.1 = (trace s2.1 ++ [k])%list) in T3.
  rewrite T1 in T2. rewrite T2 in T3. rewrite <- app_assoc in T2, T3.
  rewrite <- app_assoc in T3. cbn [app] in T2, T3.
  subst final. rewrite cloneAndCheckoutPR_eq. fold c f k. fold s1.
  destruct s1 as [w1 r1] eqn:E1. cbn [fst snd] in *. subst s2.
  destruct (perform f w1) as [w2 r2] eqn:E2. cbn [fst snd] in *. subst s3.
  destruct (perform k w2) as [w3 r3] eqn:E3. cbn [fst snd] in *.
  split; [intros ? ->; now split |].
  split; [intros ? ? -> ->; now split |].
  split; [intros ? ? ? -> -> ->; now split |].
  split; [split |].
  - destruct r1 as [o1|e1]; [| discriminate].
    destruct r2 as [o2|e2]; [| discriminate].
    destruct r3 as [o3|e3]; [| discriminate]. intros _. eauto 7.
  - intros (o1 & o2 & o3 & -> & -> & ->). reflexivity.
  - destruct r1 as [o1|e1]; [| discriminate].
    destruct r2 as [o2|e2]; [| discriminate].
    destruct r3 as [o3|e3]; [| discriminate]. intros _. now split.
Qed.

Lemma replace_at_start (pat by_ rest : string) :
  replace pat by_ (pat ++ rest) = by_ ++ rest.
Proof.
  destruct (pat ++ rest) as [|c s] eqn:E; cbn [replace]; rewrite <- E;
    now rewrite strip_prefix_app.
Qed.

(** X7. For a resolved reference, a non-empty token (free of the
    replacement escape [$]) is placed between the scheme and the host of the
    clone address, and the first command run is the clone of that address
    into the workspace; without a token, or with an empty one, the address is
    the plain repository address. *)
Theorem clone_address_carries_token (url : string) (prInfo : PRInfo)
  (repoDir token : string) (w : World Ext) :
  parsePRUrl url = Return prInfo ->
  truthy_string token = true ->
  lacks "$" token = true ->
  let address :=
    "https://" ++ token ++ "@github.com/" ++ owner prInfo ++ "/" ++ repo prInfo ++ ".git" in
  let plain := "https://github.com/" ++ owner prInfo ++ "/" ++ repo prInfo ++ ".git" in
  clone_address prInfo (Some token) = address
  /\ clone_address prInfo None = plain
  /\ clone_address prInfo (Some "") = plain
  /\ trace (perform (cloned prInfo repoDir (Some token)) w).1
     = (trace w ++ [EvExec ("git clone --depth 50 " ++ address ++ " " ++ repoDir)
                      (mkExecOptions None None None)])%list
  /\ exists rest,
      trace (cloneAndCheckoutPR Ext run prInfo repoDir (Some token) w).1
      = (trace w ++ EvExec ("git clone --depth 50 " ++ address ++ " " ++ repoDir)
                      (mkExecOptions None None None) :: rest)%list.
Proof.
  unfold parsePRUrl.
  destruct (Github.regex_match url) as [[[g1 g2] g3]|]; [| discriminate].
  intros [= <-] Ht _.
  match goal with
  | |- context [cloned ?i _ _] => set (info := i)
  end.
  change (owner info) with g1. change (repo info) with g2. cbv zeta.
  set (address := "https://" ++ token ++ "@github.com/" ++ g1 ++ "/" ++ g2 ++ ".git").
  assert (A : clone_address info (Some token) = address).
  { unfold clone_address. cbn [given text_of]. rewrite Ht.
    change (cloneUrl info)
      with ("https://" ++ ("github.com/" ++ g1 ++ "/" ++ g2 ++ ".git")).
    rewrite replace_at_start. subst address. now rewrite !append_assoc. }
  split; [exact A |]. split; [reflexivity |]. split; [reflexivity |].
  split.
  { unfold perform, cloned. rewrite A. apply execAsync_trace. }
  rewrite cloneAndCheckoutPR_eq. unfold cloned at 1. rewrite A.
  unfold perform at 1.
  pose proof (execAsync_trace ("git clone --depth 50 " ++ address ++ " " ++ repoDir)
                (mkExecOptions None None None) w) as T1.
  destruct (execAsync run _ _ w) as [w1 [o1|e1]]; cbn [fst] in T1.
  2:{ exists []. exact T1. }
  pose proof (execAsync_trace
                ("git fetch origin pull/" ++ show (pullNumber info) ++ "/head:pr-"
                 ++ show (pullNumber info))
                (mkExecOptions (Some repoDir) None None) w1) as T2.
  unfold perform at 1, fetched.
  destruct (execAsync run _ _ w1) as [w2 [o2|e2]]; cbn [fst] in T2.
  2:{ cbn [fst]. rewrite T2, T1, <- app_assoc. eexists. reflexivity. }
  pose proof (execAsync_trace ("git checkout pr-" ++ show (pullNumber info))
                (mkExecOptions (Some repoDir) None None) w2) as T3.
  unfold perform, checked_out.
  destruct (execAsync run _ _ w2) as [w3 [o3|e3]]; cbn [fst] in *;
    rewrite T3, T2, T1, <- !app_assoc; eexists; reflexivity.
Qed.

End Acquisition.

(** ** The stages of a review *)

Section Stages.
Import JS Json Sys GeminiCli.
Variable Ext : Type.
Variable writable : string -> gmap string node -> bool.
Variable run : string -> ExecOptions -> oracle Ext (string * string).
Variable process_cwd : string.

Definition with_file (p content : string) (w : World Ext) : World Ext :=
  mkWorld (<[p := File content]> (fs w)) (ext w) (trace w).

(** The name under which the requirement document is mentioned. *)
Definition requirement_name (requirementFile : option (string * string))
  : option string :=
  match requirementFile with
  | Some (_, name) => Some ("REQUIREMENTS-" ++ name)
  | None => None
  end.

Definition requirement_path (repoDir : string)
  (requirementFile : option (string * string)) : option string :=
  match requirement_name requirementFile with
  | Some name => Some (join repoDir name)
  | None => None
  end.

Definition requirement_writable (repoDir : string)
  (requirementFile : option (string * string)) (w : World Ext) : bool :=
  match requirement_path repoDir requirementFile with
  | Some p => writable p (fs w)
  | None => true
  end.

Definition requirement_written (repoDir : string)
  (requirementFile : option (string * string)) (w : World Ext) : World Ext :=
  match requirementFile with
  | Some (buffer, name) => with_file (join repoDir ("REQUIREMENTS-" ++ name)) buffer w
  | None => w
  end.

Definition context_path (repoDir : string) : string := join repoDir "GEMINI.md".

Definition engine_run (repoDir : string) : event :=
  EvExec gemini_command (gemini_options repoDir).

Definition is_engine (ev : event) : bool :=
  match ev with
  | EvExec command _ => String.eqb command gemini_command
  | _ => false
  end.

Lemma guarded_stages_eq (prInfo : PRInfo) (repoDir prTitle prDescription : string)
  (requirementFile : option (string * string)) (githubToken : option string)
  (w0 : World Ext) :
  guarded_stages Ext writable run prInfo repoDir prTitle prDescription
    requirementFile githubToken w0
  = match cloneAndCheckoutPR Ext run prInfo repoDir githubToken w0 with
    | (w1, Throw e) => (w1, Throw e)
    | (w1, Return _) =>
        if requirement_writable repoDir requirementFile w1 then
          match getDiffFromRepo Ext run repoDir
                  (requirement_written repoDir requirementFile w1) with
          | (w2, Throw e) => (w2, Throw e)
          | (w2, Return diff) =>
              if writable (context_path repoDir) (fs w2) then
                runGeminiCLI Ext run repoDir
                  (with_file (context_path repoDir)
                     (contextContent prTitle prDescription diff
                        (requirement_name requirementFile)) w2)
              else (w2, Throw (Error ("EACCES: " ++ context_path repoDir)))
          end
        else (w1, Throw (Error ("EACCES: "
                                ++ text_of (requirement_path repoDir requirementFile))))
    end.
Proof.
  unfold guarded_stages. rewrite mbind_eq.
  destruct (cloneAndCheckoutPR Ext run prInfo repoDir githubToken w0)
    as [w1 [[]|e]]; [| reflexivity].
  rewrite mbind_eq.
  unfold requirement_writable, requirement_written, requirement_path, requirement_name.
  destruct requirementFile as [[buffer name]|].
  - rewrite mbind_eq. unfold copyRequirementFile. rewrite mbind_eq.
    unfold writeFileSync at 1. cbn [text_of].
    destruct (writable (join repoDir ("REQUIREMENTS-" ++ name)) (fs w1));
      [| reflexivity].
    cbn [mret M_ret ret]. rewrite mbind_eq.
    fold (with_file (join repoDir ("REQUIREMENTS-" ++ name)) buffer w1).
    destruct (getDiffFromRepo Ext run repoDir _) as [w2 [diff|e]]; [| reflexivity].
    rewrite mbind_eq. unfold createGeminiContext, writeFileSync. fold (context_path repoDir).
    now destruct (writable (context_path repoDir) (fs w2)).
  - cbn [mret M_ret ret]. rewrite mbind_eq.
    destruct (getDiffFromRepo Ext run repoDir _) as [w2 [diff|e]]; [| reflexivity].
    rewrite mbind_eq. unfold createGeminiContext, writeFileSync. fold (context_path repoDir).
    now destruct (writable (context_path repoDir) (fs w2)).
Qed.

Lemma cleanup_eq (repoDir : string) (w : World Ext) :
  cleanup Ext repoDir w
  = (if bool_decide (is_Some (fs w !! repoDir)) then (rmSync repoDir w).1 else w,
     Return tt).
Proof.
  unfold cleanup, mbind, M_bind, bindM, existsSync, mret, M_ret, ret.
  now destruct (bool_decide (is_Some (fs w !! repoDir))).
Qed.

Lemma cleanup_trace (repoDir : string) (w : World Ext) :
  trace (cleanup Ext repoDir w).1 = trace w.
Proof.
  rewrite cleanup_eq. cbn [fst].
  now destruct (bool_decide (is_Some (fs w !! repoDir))).
Qed.

Lemma setupTempDir_trace (prInfo : PRInfo) (w : World Ext) :
  trace (setupTempDir Ext process_cwd prInfo w).1 = trace w.
Proof.
  rewrite setupTempDir_eq. cbv zeta. cbn [fst].
  destruct (bool_decide (is_Some (fs w !! repoDir_of process_cwd prInfo)));
    match goal with
    | |- context [bool_decide ?P] => destruct (bool_decide P)
    end; reflexivity.
Qed.

(** A review of a resolved reference: the guarded stages, then [cleanup]. *)
Lemma review_resolved (prUrl prTitle prDescription : string)
  (requirementFile : option (string * string)) (githubToken : option string)
  (prInfo : PRInfo) (w : World Ext) :
  parsePRUrl prUrl = Return prInfo ->
  reviewWithGeminiCLI Ext writable run process_cwd prUrl prTitle prDescription
    requirementFile githubToken w
  = let stages :=
      guarded_stages Ext writable run prInfo (repoDir_of process_cwd prInfo) prTitle
        prDescription requirementFile githubToken
        (setupTempDir Ext process_cwd prInfo w).1 in
    ((cleanup Ext (repoDir_of process_cwd prInfo) stages.1).1, stages.2).
Proof.
  intros P. rewrite reviewWithGeminiCLI_eq, P. unfold try_finally. cbv zeta.
  destruct (guarded_stages _ _ _ _ _ _ _ _ _ _) as [w1 r]. cbn [fst snd].
  now rewrite cleanup_eq.
Qed.

Lemma cloneAndCheckoutPR_trace (prInfo : PRInfo) (repoDir : string)
  (githubToken : option string) (w : World Ext) :
  exists n,
    (1 <= n <= 3)%nat
    /\ trace (cloneAndCheckoutPR Ext run prInfo repoDir githubToken w).1
       = (trace w ++ firstn n [cloned prInfo repoDir githubToken;
                               fetched prInfo repoDir;
                               checked_out prInfo repoDir])%list
    /\ ((cloneAndCheckoutPR Ext run prInfo repoDir githubToken w).2 = Return tt -> n = 3).
Proof.
  rewrite cloneAndCheckoutPR_eq. unfold perform, cloned, fetched, checked_out.
  pose proof (execAsync_trace Ext run
                ("git clone --depth 50 " ++ clone_address prInfo githubToken
                 ++ " " ++ repoDir) (mkExecOptions None None None) w) as T1.
  destruct (execAsync run _ _ w) as [w1 [o1|e1]]; cbn [fst] in T1.
  2:{ exists 1. cbn [fst snd firstn]. split; [lia |]. split; [exact T1 | discriminate]. }
  pose proof (execAsync_trace Ext run
                ("git fetch origin pull/" ++ show (pullNumber prInfo) ++ "/head:pr-"
                 ++ show (pullNumber prInfo))
                (mkExecOptions (Some repoDir) None None) w1) as T2.
  destruct (execAsync run _ _ w1) as [w2 [o2|e2]]; cbn [fst] in T2.
  2:{ exists 2. cbn [fst snd firstn]. split; [lia |].
      split; [| discriminate]. now rewrite T2, T1, <- app_assoc. }
  pose proof (execAsync_trace Ext run ("git checkout pr-" ++ show (pullNumber prInfo))
                (mkExecOptions (Some repoDir) None None) w2) as T3.
  destruct (execAsync run _ _ w2) as [w3 [o3|e3]]; cbn [fst] in T3;
    exists 3; cbn [fst snd firstn]; (split; [lia |]);
    (split; [| reflexivity]); now rewrite T3, T2, T1, <- !app_assoc.
Qed.

(** X8. When the clone, the fetch or the checkout fails, the review fails
    with that very error after removing the workspace: the requirement
    document is not written, no diff is taken and the review engine is not
    run, the commands executed being the one to three acquisition commands
    run so far. *)
Theorem review_stops_at_failed_acquisition (prUrl prTitle prDescription : string)
  (requirementFile : option (string * string)) (githubToken : option string)
  (prInfo : PRInfo) (w w1 : World Ext) (e : exn) :
  parsePRUrl prUrl = Return prInfo ->
  cloneAndCheckoutPR Ext run prInfo (repoDir_of process_cwd prInfo) githubToken
    (setupTempDir Ext process_cwd prInfo w).1 = (w1, Throw e) ->
  let repoDir := repoDir_of process_cwd prInfo in
  let final :=
    reviewWithGeminiCLI Ext writable run process_cwd prUrl prTitle prDescription
      requirementFile githubToken w in
  final = ((cleanup Ext repoDir w1).1, Throw e)
  /\ fs final.1 !! repoDir = None
  /\ exists n,
      (1 <= n <= 3)%nat
      /\ trace final.1
         = (trace w ++ firstn n [cloned prInfo repoDir githubToken;
                                 fetched prInfo repoDir;
                                 checked_out prInfo repoDir])%list.
Proof.
  intros P A repoDir final. subst final repoDir.
  rewrite (review_resolved _ _ _ _ _ _ _ P). cbv zeta.
  rewrite guarded_stages_eq, A. cbn [fst snd].
  split; [reflexivity |]. split; [apply cleanup_removes |].
  rewrite cleanup_trace.
  destruct (cloneAndCheckoutPR_trace prInfo (repoDir_of process_cwd prInfo) githubToken
              (setupTempDir Ext process_cwd prInfo w).1) as (n & Hn & T & _).
  rewrite A in T. cbn [fst] in T.
  rewrite setupTempDir_trace in T. now exists n.
Qed.

(** X9. When the acquisition and the diff succeed and the workspace can be
    written, the requirement document is written, before the diff is taken,
    at the path that [path.join] makes of the workspace and
    [REQUIREMENTS-<name>], which for a name without a slash is the file of
    that name in the workspace; the review engine then runs in a world whose
    [GEMINI.md], in the workspace, is made of the title, the description,
    that diff and that document name; what the review returns is what
    [runGeminiCLI] returns there, namely what the output of the engine is
    recovered to, and [cleanup] runs afterwards. *)
Theorem review_runs_engine_on_context (prUrl prTitle prDescription diff : string)
  (requirementFile : option (string * string)) (githubToken : option string)
  (prInfo : PRInfo) (w w1 w2 : World Ext) :
  parsePRUrl prUrl = Return prInfo ->
  let repoDir := repoDir_of process_cwd prInfo in
  cloneAndCheckoutPR Ext run prInfo repoDir githubToken
    (setupTempDir Ext process_cwd prInfo w).1 = (w1, Return tt) ->
  requirement_writable repoDir requirementFile w1 = true ->
  getDiffFromRepo Ext run repoDir (requirement_written repoDir requirementFile w1)
  = (w2, Return diff) ->
  writable (context_path repoDir) (fs w2) = true ->
  let content :=
    contextContent prTitle prDescription diff (requirement_name requirementFile) in
  let engine := runGeminiCLI Ext run repoDir (with_file (context_path repoDir) content w2) in
  reviewWithGeminiCLI Ext writable run process_cwd prUrl prTitle prDescription
    requirementFile githubToken w
  = ((cleanup Ext repoDir engine.1).1, engine.2)
  /\ fs (with_file (context_path repoDir) content w2) !! context_path repoDir
     = Some (File content)
  /\ context_path repoDir = repoDir ++ "/GEMINI.md"
  /\ (forall buffer name,
         requirementFile = Some (buffer, name) ->
         fs (requirement_written repoDir requirementFile w1)
            !! join repoDir ("REQUIREMENTS-" ++ name) = Some (File buffer)
         /\ (lacks "/" name = true ->
             join repoDir ("REQUIREMENTS-" ++ name)
             = repoDir ++ "/REQUIREMENTS-" ++ name))
  /\ engine.2 = outcome_findings
                  (run gemini_command (gemini_options repoDir)
                     (<[context_path repoDir := File content]> (fs w2)) (ext w2)).2.
Proof.
  intros P repoDir A Hreq D Hctx content engine. subst engine content repoDir.
  destruct (resolved_lacks_slash _ _ P) as [Ho Hr].
  destruct (repoDir_of_child process_cwd prInfo Ho Hr) as [_ N].
  rewrite (review_resolved _ _ _ _ _ _ _ P). cbv zeta.
  rewrite guarded_stages_eq, A, Hreq, D, Hctx.
  split; [reflexivity |].
  split; [apply lookup_insert_eq |].
  split; [exact (join_child _ "GEMINI.md" N eq_refl) |].
  split.
  - intros buffer name ->. cbn [requirement_written with_file fs].
    split; [apply lookup_insert_eq |].
    intros S. apply (join_child _ ("REQUIREMENTS" ++ "-" ++ name) N).
    now apply hyphenated_plain.
  - now rewrite runGeminiCLI_result.
Qed.

(** An upload name with dot segments: the document is not written as
    [REQUIREMENTS-<name>] in the workspace. *)
Example requirement_name_with_dot_segments :
  join "/srv/api/temp/acme-widgets-pr42" ("REQUIREMENTS-" ++ "a/../x.md")
  = "/srv/api/temp/acme-widgets-pr42/x.md"
  /\ join "/srv/api/temp/acme-widgets-pr42" ("REQUIREMENTS-" ++ "a/../../../x.md")
     = "/srv/api/x.md".
Proof. split; vm_compute; reflexivity. Qed.

Lemma git_is_not_engine (rest : string) (options : ExecOptions) :
  is_engine (EvExec ("git " ++ rest) options) = false.
Proof. reflexivity. Qed.

Lemma getDiffFromRepo_trace (repoDir : string) (w : World Ext) :
  exists n,
    (1 <= n <= 3)%nat
    /\ trace (getDiffFromRepo Ext run repoDir w).1
       = (trace w ++ firstn n [attempted PRIMARY repoDir; attempted SECONDARY repoDir;
                               attempted LAST_RESORT repoDir])%list.
Proof.
  rewrite getDiffFromRepo_eq.
  pose proof (attempt_trace Ext run PRIMARY repoDir w) as T1.
  destruct (attempt Ext run PRIMARY repoDir w) as [w1 [o1|e1]]; cbn [fst] in T1.
  { exists 1. split; [lia | exact T1]. }
  pose proof (attempt_trace Ext run SECONDARY repoDir w1) as T2.
  destruct (attempt Ext run SECONDARY repoDir w1) as [w2 [o2|e2]]; cbn [fst] in T2.
  { exists 2. split; [lia |]. cbn [fst firstn]. now rewrite T2, T1, <- app_assoc. }
  pose proof (attempt_trace Ext run LAST_RESORT repoDir w2) as T3.
  destruct (attempt Ext run LAST_RESORT repoDir w2) as [w3 [o3|e3]]; cbn [fst] in T3;
    exists 3; (split; [lia |]); cbn [fst firstn]; now rewrite T3, T2, T1, <- !app_assoc.
Qed.

Lemma firstn_quiet (n : nat) (evs : list event) :
  Forall (fun ev => is_engine ev = false) evs ->
  Forall (fun ev => is_engine ev = false) (firstn n evs).
Proof.
  intros H. revert n.
  induction H as [|ev evs Hev _ IH]; intros [|n]; cbn [firstn]; constructor; auto.
Qed.

(** X10. A review returns exactly when the review engine was run: the
    engine is then the last command executed, it ran once, and the result is
    a sequence. When the review throws, the engine was not run at all. No
    other command of the pipeline is the engine command. *)
Theorem review_returns_iff_engine_ran (prUrl prTitle prDescription : string)
  (requirementFile : option (string * string)) (githubToken : option string)
  (w : World Ext) :
  let final :=
    reviewWithGeminiCLI Ext writable run process_cwd prUrl prTitle prDescription
      requirementFile githubToken w in
  exists front,
    Forall (fun ev => is_engine ev = false) front
    /\ match final.2 with
       | Return v =>
           (exists items, v = JArr items)
           /\ exists prInfo,
               parsePRUrl prUrl = Return prInfo
               /\ trace final.1
                  = (trace w ++ front ++ [engine_run (repoDir_of process_cwd prInfo)])%list
       | Throw _ => trace final.1 = (trace w ++ front)%list
       end.
Proof.
  intros final. subst final.
  destruct (parsePRUrl prUrl) as [prInfo|e0] eqn:P.
  2:{ rewrite reviewWithGeminiCLI_eq, P. exists []. split; [constructor |].
      cbn [fst snd]. now rewrite app_nil_r. }
  rewrite (review_resolved _ _ _ _ _ _ _ P). cbv zeta. cbn [fst snd].
  rewrite cleanup_trace, guarded_stages_eq.
  set (repoDir := repoDir_of process_cwd prInfo).
  destruct (cloneAndCheckoutPR_trace prInfo repoDir githubToken
              (setupTempDir Ext process_cwd prInfo w).1) as (n & _ & T1 & _).
  rewrite setupTempDir_trace in T1.
  assert (Q1 : Forall (fun ev => is_engine ev = false)
                 (firstn n [cloned prInfo repoDir githubToken; fetched prInfo repoDir;
                            checked_out prInfo repoDir])).
  { apply firstn_quiet. repeat constructor. }
  destruct (cloneAndCheckoutPR Ext run prInfo repoDir githubToken _)
    as [w1 [[]|e1]]; cbn [fst] in T1.
  2:{ eexists. split; [exact Q1 | exact T1]. }
  destruct (requirement_writable repoDir requirementFile w1).
  2:{ eexists. split; [exact Q1 | exact T1]. }
  destruct (getDiffFromRepo_trace repoDir (requirement_written repoDir requirementFile w1))
    as (d & _ & T2).
  assert (T1' : trace (requirement_written repoDir requirementFile w1) = trace w1).
  { unfold requirement_written. now destruct requirementFile as [[? ?]|]. }
  rewrite T1', T1, <- app_assoc in T2.
  assert (Q2 : Forall (fun ev => is_engine ev = false)
                 (firstn n [cloned prInfo repoDir githubToken; fetched prInfo repoDir;
                            checked_out prInfo repoDir]
                  ++ firstn d [attempted PRIMARY repoDir; attempted SECONDARY repoDir;
                               attempted LAST_RESORT repoDir])%list).
  { apply Forall_app. split; [exact Q1 |]. apply firstn_quiet. repeat constructor. }
  destruct (getDiffFromRepo Ext run repoDir _) as [w2 [diff|e2]]; cbn [fst] in T2.
  2:{ eexists. split; [exact Q2 | exact T2]. }
  destruct (writable (context_path repoDir) (fs w2)).
  2:{ eexists. split; [exact Q2 | exact T2]. }
  rewrite runGeminiCLI_eq. cbn [with_file fs ext trace].
  destruct (run gemini_command (gemini_options repoDir) _ (ext w2)) as [[fs' ext'] r].
  cbn [fst snd trace].
  assert (S : is_sequence (outcome_findings r)).
  { destruct r as [out|err]; [apply recover_output_sequence | apply recover_partial_sequence]. }
  destruct S as [items ->].
  eexists. split; [exact Q2 |]. split; [now exists items |].
  exists prInfo. split; [reflexivity |]. rewrite T2. now rewrite <- app_assoc.
Qed.

End Stages.

Section StagesSamples.
Import JS Json Sys GeminiCli.

Definition SAMPLE_TOKEN : string := "ghp_0123456789".

Definition SAMPLE_REQUIREMENT : option (string * string) :=
  Some ("As a buyer I can list widgets.", "stories.md").

(** The world in which the acquisition of the sample starts. *)
Definition prepared_world : World unit :=
  (setupTempDir unit "/srv/api" SAMPLE_PR empty_world).1.

Definition acquired (fetch_ok : bool) (githubToken : option string)
  : World unit * completion unit :=
  cloneAndCheckoutPR unit (host fetch_ok (Return (direct_output, ""))) SAMPLE_PR
    SAMPLE_DIR githubToken prepared_world.

Definition sample_diffed : World unit * completion string :=
  getDiffFromRepo unit (host true (Return (direct_output, ""))) SAMPLE_DIR
    (requirement_written unit SAMPLE_DIR SAMPLE_REQUIREMENT (acquired true None).1).

Lemma clone_address_carries_token_sample :
  clone_address SAMPLE_PR (Some SAMPLE_TOKEN)
  = "https://ghp_0123456789@github.com/acme/widgets.git"
  /\ clone_address SAMPLE_PR None = "https://github.com/acme/widgets.git".
Proof.
  pose proof (clone_address_carries_token unit (host true (Return (direct_output, "")))
                SAMPLE_URL SAMPLE_PR SAMPLE_DIR SAMPLE_TOKEN empty_world
                eq_refl eq_refl eq_refl) as H.
  exact (conj (proj1 H) (proj1 (proj2 H))).
Defined.

Lemma review_stops_at_failed_fetch :
  review false (Return (direct_output, ""))
  = ((cleanup unit SAMPLE_DIR (acquired false None).1).1,
     Throw (ExecException false (Some "128") "" "fatal: could not fetch")).
Proof.
  exact (proj1 (review_stops_at_failed_acquisition unit always_writable
                  (host false (Return (direct_output, ""))) "/srv/api"
                  SAMPLE_URL "Add widgets" "A description" None None SAMPLE_PR
                  empty_world (acquired false None).1
                  (ExecException false (Some "128") "" "fatal: could not fetch")
                  eq_refl eq_refl)).
Defined.

Lemma review_runs_engine_on_sample_context :
  reviewWithGeminiCLI unit always_writable (host true (Return (direct_output, "")))
    "/srv/api" SAMPLE_URL "Add widgets" "A description" SAMPLE_REQUIREMENT None
    empty_world
  = let engine :=
      runGeminiCLI unit (host true (Return (direct_output, ""))) SAMPLE_DIR
        (with_file unit (context_path SAMPLE_DIR)
           (contextContent "Add widgets" "A description" ""
              (Some "REQUIREMENTS-stories.md")) sample_diffed.1) in
    ((cleanup unit SAMPLE_DIR engine.1).1, engine.2).
Proof.
  exact (proj1 (review_runs_engine_on_context unit always_writable
                  (host true (Return (direct_output, ""))) "/srv/api"
                  SAMPLE_URL "Add widgets" "A description" "" SAMPLE_REQUIREMENT None
                  SAMPLE_PR empty_world (acquired true None).1 sample_diffed.1
                  eq_refl eq_refl eq_refl eq_refl eq_refl)).
Defined.

End StagesSamples.

(** ** What the first-bracket fallback can recover *)

Section FlatFallback.
Import JS Json RegExp Types GeminiCli.

(** The closing brackets of a text. *)
Fixpoint closes (s : string) : nat :=
  match s with
  | EmptyString => 0
  | String c s' => (if Ascii.eqb c "]" then 1 else 0) + closes s'
  end.

(** The arrays of a value, itself included. *)
Fixpoint arrays (v : json) : nat :=
  match v with
  | JArr items =>
      S ((fix sum (l : list json) : nat :=
            match l with
            | [] => 0
            | x :: l' => arrays x + sum l'
            end) items)
  | JObj fields =>
      (fix sum (l : list (string * json)) : nat :=
         match l with
         | [] => 0
         | (_, x) :: l' => arrays x + sum l'
         end) fields
  | _ => 0
  end.

Definition arrays_of_items (items : list json) : nat :=
  list_sum (map arrays items).

Definition arrays_of_fields (fields : list (string * json)) : nat :=
  list_sum (map (fun kv => arrays kv.2) fields).

Lemma list_sum_cons (x : nat) (l : list nat) : list_sum (x :: l) = (x + list_sum l)%nat.
Proof. reflexivity. Qed.

Lemma list_sum_nil : list_sum [] = 0%nat.
Proof. reflexivity. Qed.

Lemma arrays_JArr (items : list json) : arrays (JArr items) = S (arrays_of_items items).
Proof.
  cbn [arrays]. f_equal. unfold arrays_of_items.
  induction items as [|x l IH]; [reflexivity |]. cbn [map]; rewrite ?list_sum_cons, ?list_sum_nil. now rewrite IH.
Qed.

Lemma arrays_JObj (fields : list (string * json)) :
  arrays (JObj fields) = arrays_of_fields fields.
Proof.
  cbn [arrays]. unfold arrays_of_fields.
  induction fields as [|[k x] l IH]; [reflexivity |]. cbn [map snd]; rewrite ?list_sum_cons, ?list_sum_nil. now rewrite IH.
Qed.

Lemma closes_tail (c : ascii) (s : string) : (closes s <= closes (String c s))%nat.
Proof. cbn [closes]. lia. Qed.

Lemma closes_app (a b : string) : closes (a ++ b) = (closes a + closes b)%nat.
Proof.
  induction a as [|c a IH]; [reflexivity |].
  cbn [String.append closes]. rewrite IH. lia.
Qed.

Lemma closes_lacks (s : string) : lacks "]" s = true -> closes s = 0%nat.
Proof.
  unfold lacks. induction s as [|c s IH]; [reflexivity |].
  cbn [forallb_string closes]. intros [Hc Hs]%andb_true_iff.
  apply negb_true_iff in Hc. rewrite Hc, (IH Hs). reflexivity.
Qed.

Lemma skip_ws_closes (s : string) : (closes (skip_ws s) <= closes s)%nat.
Proof.
  induction s as [|c s IH]; cbn [skip_ws]; [lia |].
  destruct (is_ws c); [| lia]. pose proof (closes_tail c s). lia.
Qed.

Lemma strip_prefix_closes (p s r : string) :
  strip_prefix p s = Some r -> closes s = (closes p + closes r)%nat.
Proof. intros H. apply strip_prefix_Some in H. subst. apply closes_app. Qed.

Lemma span_closes (p : ascii -> bool) (s a b : string) :
  span p s = (a, b) -> (closes b <= closes s)%nat.
Proof. intros H. apply span_app in H as [-> _]. rewrite closes_app. lia. Qed.

Lemma parse_escape_closes (s e r : string) :
  parse_escape s = Some (e, r) -> (closes r <= closes s)%nat.
Proof.
  destruct s as [|c s]; [discriminate |]. unfold parse_escape.
  pose proof (closes_tail c s) as Hc.
  destruct c as [[] [] [] [] [] [] [] []]; cbn -[closes];
    try discriminate; try (intros H; inversion H; subst; exact Hc).
  destruct s as [|h1 [|h2 [|h3 [|h4 s]]]]; try discriminate.
  destruct (hex_value h1), (hex_value h2), (hex_value h3), (hex_value h4);
    try discriminate.
  intros H; inversion H; subst.
  pose proof (closes_tail h4 r). pose proof (closes_tail h3 (String h4 r)).
  pose proof (closes_tail h2 (String h3 (String h4 r))).
  pose proof (closes_tail h1 (String h2 (String h3 (String h4 r)))). lia.
Qed.

Lemma parse_chars_closes (fuel : nat) (s t r : string) :
  parse_chars fuel s = Some (t, r) -> (closes r <= closes s)%nat.
Proof.
  revert s t r; induction fuel as [|fuel IH]; intros s t r; [discriminate |].
  cbn [parse_chars]. destruct s as [|c s]; [discriminate |].
  pose proof (closes_tail c s) as Hc.
  destruct (nat_of_ascii c =? 34)%nat.
  { intros H; inversion H; subst. exact Hc. }
  destruct (nat_of_ascii c =? 92)%nat.
  { destruct (parse_escape s) as [[e s1]|] eqn:E; [| discriminate].
    destruct (parse_chars fuel s1) as [[t1 r1]|] eqn:C; [| discriminate].
    intros H; inversion H; subst.
    apply parse_escape_closes in E. apply IH in C. lia. }
  destruct (nat_of_ascii c <? 32)%nat; [discriminate |].
  destruct (parse_chars fuel s) as [[t1 r1]|] eqn:C; [| discriminate].
  intros H; inversion H; subst. apply IH in C. lia.
Qed.

Lemma parse_sign_closes (plus : bool) (s : string) :
  (closes (parse_sign plus s).2 <= closes s)%nat.
Proof.
  unfold parse_sign. destruct (strip_prefix "-" s) as [r|] eqn:P.
  - apply strip_prefix_closes in P. cbn [snd]. lia.
  - destruct plus; [| cbn [snd]; lia].
    destruct (strip_prefix "+" s) as [r|] eqn:Q; cbn [snd]; [| lia].
    apply strip_prefix_closes in Q. lia.
Qed.

Lemma parse_number_closes (s r : string) (q : Q) :
  parse_number s = Some (q, r) -> (closes r <= closes s)%nat.
Proof.
  unfold parse_number.
  pose proof (parse_sign_closes false s) as Hs.
  destruct (parse_sign false s) as [neg s1]. cbn [snd] in Hs.
  unfold parse_int. destruct (span is_digit s1) as [ip s2] eqn:I.
  apply span_closes in I.
  assert (F : forall fp s3, parse_frac s2 = Some (fp, s3) -> (closes s3 <= closes s2)%nat).
  { intros fp s3. unfold parse_frac.
    destruct (strip_prefix "." s2) as [rest|] eqn:P.
    - apply strip_prefix_closes in P.
      destruct (span is_digit rest) as [a b] eqn:S. apply span_closes in S.
      destruct (truthy_string a); [| discriminate].
      intros H; inversion H; subst. lia.
    - intros H; inversion H; subst. lia. }
  assert (E : forall s3 e s4, parse_exp s3 = Some (e, s4) -> (closes s4 <= closes s3)%nat).
  { intros s3 e s4. unfold parse_exp. destruct s3 as [|c s3]; [intros H; inversion H; lia |].
    destruct (Ascii.eqb c "e" || Ascii.eqb c "E");
      [| intros H; inversion H; subst; lia].
    pose proof (parse_sign_closes true s3) as Hs3. pose proof (closes_tail c s3).
    destruct (parse_sign true s3) as [neg' s5]. cbn [snd] in Hs3.
    destruct (span is_digit s5) as [a b] eqn:S. apply span_closes in S.
    destruct (truthy_string a); [| discriminate].
    intros H'; inversion H'; subst. lia. }
  assert (G : forall ip', match parse_frac s2 with
                          | None => None
                          | Some (fp, s3) =>
                              match parse_exp s3 with
                              | None => None
                              | Some (e, s4) =>
                                  Some (if neg
                                        then Qopp (decimal (digits_value (ip' ++ fp))
                                                     (e - Z.of_nat (String.length fp)))
                                        else decimal (digits_value (ip' ++ fp))
                                               (e - Z.of_nat (String.length fp)), s4)
                              end
                          end = Some (q, r) -> (closes r <= closes s)%nat).
  { intros ip'. destruct (parse_frac s2) as [[fp s3]|] eqn:Fq; [| discriminate].
    destruct (parse_exp s3) as [[e s4]|] eqn:Eq; [| discriminate].
    specialize (F fp s3 eq_refl). apply E in Eq. intros H; inversion H; subst. lia. }
  destruct ip as [|c [|d ip]]; [discriminate | apply G |].
  destruct (Ascii.eqb c "0"); [discriminate | apply G].
Qed.

Lemma parse_literal_closes (lit : string) (v v' : json) (s r : string) :
  parse_literal lit v s = Some (v', r) -> v' = v /\ (closes r <= closes s)%nat.
Proof.
  unfold parse_literal.
  destruct (strip_prefix lit s) as [rest|] eqn:P; [| discriminate].
  apply strip_prefix_closes in P. intros H; inversion H; subst. split; [reflexivity | lia].
Qed.

(** Each array of a parsed value has spent a closing bracket of the text. *)
Lemma parse_spends_closes (fuel : nat) :
  (forall s v r, parse_value fuel s = Some (v, r) ->
                 (closes r + arrays v <= closes s)%nat)
  /\ (forall s vs r, parse_elements fuel s = Some (vs, r) ->
                     (closes r + S (arrays_of_items vs) <= closes s)%nat)
  /\ (forall s fs r, parse_members fuel s = Some (fs, r) ->
                     (closes r + arrays_of_fields fs <= closes s)%nat).
Proof.
  induction fuel as [|fuel (IHv & IHe & IHm)];
    [repeat split; intros; discriminate |].
  split; [| split].
  - intros s v r. cbn [parse_value].
    pose proof (skip_ws_closes s) as Hs.
    destruct (skip_ws s) as [|c rest]; [discriminate |].
    pose proof (closes_tail c rest) as Hc.
    destruct (classify c).
    + pose proof (skip_ws_closes rest) as Hr.
      destruct (strip_prefix "]" (skip_ws rest)) as [rest'|] eqn:P.
      * apply strip_prefix_closes in P. cbn [closes Ascii.eqb Bool.eqb] in P.
        intros H; inversion H; subst. rewrite arrays_JArr. cbn. lia.
      * destruct (parse_elements fuel rest) as [[items rest']|] eqn:E; [| discriminate].
        apply IHe in E. intros H; inversion H; subst. rewrite arrays_JArr. lia.
    + pose proof (skip_ws_closes rest) as Hr.
      destruct (strip_prefix "}" (skip_ws rest)) as [rest'|] eqn:P.
      * apply strip_prefix_closes in P. intros H; inversion H; subst. cbn. lia.
      * destruct (parse_members fuel rest) as [[fields rest']|] eqn:E; [| discriminate].
        apply IHm in E. intros H; inversion H; subst. rewrite arrays_JObj. lia.
    + destruct (parse_string rest) as [[str rest']|] eqn:E; [| discriminate].
      apply parse_chars_closes in E. intros H; inversion H; subst. cbn [arrays]. lia.
    + intros H. apply parse_literal_closes in H as [-> H]. cbn [arrays]. lia.
    + intros H. apply parse_literal_closes in H as [-> H]. cbn [arrays]. lia.
    + intros H. apply parse_literal_closes in H as [-> H]. cbn [arrays]. lia.
    + destruct (parse_number (String c rest)) as [[q rest']|] eqn:E; [| discriminate].
      apply parse_number_closes in E.
      intros H; inversion H; subst. cbn [arrays]. lia.
  - intros s vs r. cbn [parse_elements].
    destruct (parse_value fuel s) as [[v rest]|] eqn:V; [| discriminate].
    apply IHv in V. pose proof (skip_ws_closes rest) as Hr.
    destruct (strip_prefix "," (skip_ws rest)) as [rest'|] eqn:P.
    + apply strip_prefix_closes in P.
      destruct (parse_elements fuel rest') as [[vs' rest'']|] eqn:E; [| discriminate].
      apply IHe in E. intros H; inversion H; subst.
      unfold arrays_of_items in *. cbn [map]; rewrite ?list_sum_cons, ?list_sum_nil. lia.
    + destruct (strip_prefix "]" (skip_ws rest)) as [rest'|] eqn:Q; [| discriminate].
      apply strip_prefix_closes in Q. cbn [closes Ascii.eqb Bool.eqb] in Q.
      intros H; inversion H; subst.
      unfold arrays_of_items. cbn [map]; rewrite ?list_sum_cons, ?list_sum_nil. cbn in Q. lia.
  - intros s fs r. cbn [parse_members].
    pose proof (skip_ws_closes s) as Hs.
    destruct (strip_prefix dquote (skip_ws s)) as [rest|] eqn:P0; [| discriminate].
    apply strip_prefix_closes in P0.
    destruct (parse_string rest) as [[key rest1]|] eqn:K; [| discriminate].
    apply parse_chars_closes in K.
    pose proof (skip_ws_closes rest1) as H1.
    destruct (strip_prefix ":" (skip_ws rest1)) as [rest2|] eqn:P1; [| discriminate].
    apply strip_prefix_closes in P1.
    destruct (parse_value fuel rest2) as [[v rest3]|] eqn:V; [| discriminate].
    apply IHv in V. pose proof (skip_ws_closes rest3) as H3.
    destruct (strip_prefix "," (skip_ws rest3)) as [rest4|] eqn:P3.
    + apply strip_prefix_closes in P3.
      destruct (parse_members fuel rest4) as [[fs' rest5]|] eqn:E; [| discriminate].
      apply IHm in E. intros H; inversion H; subst.
      unfold arrays_of_fields in *. cbn [map snd]; rewrite ?list_sum_cons, ?list_sum_nil. lia.
    + destruct (strip_prefix "}" (skip_ws rest3)) as [rest4|] eqn:Q; [| discriminate].
      apply strip_prefix_closes in Q. intros H; inversion H; subst.
      unfold arrays_of_fields. cbn [map snd]; rewrite ?list_sum_cons, ?list_sum_nil. lia.
Qed.

Lemma parse_arrays (text : string) (v : json) :
  parse text = Some v -> (arrays v <= closes text)%nat.
Proof.
  unfold parse.
  destruct (parse_value _ text) as [[v' rest]|] eqn:V; [| discriminate].
  apply (proj1 (parse_spends_closes _)) in V.
  destruct (skip_ws rest); [| discriminate].
  intros H; inversion H; subst. lia.
Qed.

Lemma lookup_arrays (key : string) (fields : list (string * json)) (x : json) :
  lookup key fields = Some x -> (arrays x <= arrays_of_fields fields)%nat.
Proof.
  unfold arrays_of_fields.
  induction fields as [|[k v] l IH]; cbn [lookup map snd]; rewrite ?list_sum_cons, ?list_sum_nil; [discriminate |].
  destruct (lookup key l) as [v'|].
  - intros H. specialize (IH H). lia.
  - destruct (String.eqb k key); [| discriminate].
    intros H; inversion H; subst. lia.
Qed.

(** A value without an array has no [evidence] array, so it is no
    [Finding]. *)
Lemma flat_is_no_finding (v : json) : arrays v = 0%nat -> FindingSchema v = false.
Proof.
  destruct v as [| | | | |fields]; try reflexivity.
  rewrite arrays_JObj. intros H. unfold FindingSchema.
  assert (E : required (array_of EvidenceSchema) (lookup "evidence" fields) = false).
  { destruct (lookup "evidence" fields) as [x|] eqn:L; [| reflexivity].
    apply lookup_arrays in L. destruct x; try reflexivity.
    rewrite arrays_JArr in L. lia. }
  rewrite E, andb_false_r. reflexivity.
Qed.

Definition flat (item : json) : Prop := arrays item = 0%nat /\ FindingSchema item = false.

Lemma items_flat (items : list json) :
  arrays_of_items items = 0%nat -> Forall flat items.
Proof.
  unfold arrays_of_items. induction items as [|x l IH]; [constructor |].
  cbn [map]; rewrite ?list_sum_cons, ?list_sum_nil. intros H. constructor.
  - split; [lia | apply flat_is_no_finding; lia].
  - apply IH. lia.
Qed.

Lemma lazy_piece_flat (s m : string) (v : json) :
  match_lazy s = Some m -> parse m = Some v ->
  exists items, v = JArr items /\ Forall flat items.
Proof.
  intros M P.
  destruct (match_lazy_first _ _ M) as (pre & body & post & _ & _ & Hb & ->).
  pose proof (parse_arrays _ _ P) as A.
  apply parse_open_bracket in P as [items ->]. exists items. split; [reflexivity |].
  rewrite arrays_JArr in A.
  change ("[" ++ body ++ "]") with (String "[" (body ++ "]")) in A.
  cbn [closes Ascii.eqb Bool.eqb] in A. rewrite closes_app, (closes_lacks _ Hb) in A.
  cbn in A. apply items_flat. lia.
Qed.

(** X11. The fallback on the raw text, and the recovery from the output of
    a failed run, parse the piece that ends at the first closing bracket.
    Whatever they return is therefore a sequence of items that hold no
    array at any depth: no item has an [evidence] array, so none of them is
    a [Finding] in the sense of [FindingSchema]. *)
Theorem fallback_findings_hold_no_array :
  (forall stdout, exists items,
      extract_from_raw stdout = Return (JArr items) /\ Forall flat items)
  /\ (forall error, exists items,
         recover_partial error = Return (JArr items) /\ Forall flat items)
  /\ (forall stdout, parse stdout = None -> exists items,
         recover_output stdout = Return (JArr items) /\ Forall flat items).
Proof.
  assert (R : forall stdout, exists items,
               extract_from_raw stdout = Return (JArr items) /\ Forall flat items).
  { intros stdout. rewrite extract_from_raw_eq.
    destruct (match_lazy stdout) as [m|] eqn:M; [| exists []; split; [reflexivity | constructor]].
    destruct (parse m) as [v|] eqn:P; [| exists []; split; [reflexivity | constructor]].
    destruct (lazy_piece_flat _ _ _ M P) as (items & -> & F). now exists items. }
  split; [exact R |]. split.
  - intros error. rewrite recover_partial_eq.
    destruct (error_stdout error) as [out|]; [| exists []; split; [reflexivity | constructor]].
    destruct (match_lazy out) as [m|] eqn:M; [| exists []; split; [reflexivity | constructor]].
    destruct (parse m) as [v|] eqn:P; [| exists []; split; [reflexivity | constructor]].
    destruct (lazy_piece_flat _ _ _ M P) as (items & -> & F). now exists items.
  - intros stdout N. unfold recover_output, extract_from_response, JSON_parse.
    rewrite N. cbn [bind try_catch]. apply R.
Qed.

(** A complete, valid answer printed before a timeout: the first closing
    bracket is the one of its [evidence], and nothing is recovered. *)
Example valid_partial_output_is_lost :
  FindingSchema (finding_value "F1") = true
  /\ recover_partial (ExecException true None ("[" ++ finding_text "F1" ++ "]") "")
     = Return (JArr []).
Proof. split; vm_compute; reflexivity. Qed.

End FlatFallback.

(** ** The widest bracketed piece of the response text *)

Section GreedySpan.
Import JS Json RegExp GeminiCli.

Lemma after_open_first (pre rest : string) :
  lacks "[" pre = true -> after_open (pre ++ "[" ++ rest) = Some rest.
Proof.
  unfold lacks. induction pre as [|c pre IH]; [reflexivity |].
  cbn [forallb_string String.append after_open].
  intros [Hc Hp]%andb_true_iff. apply negb_true_iff in Hc. rewrite Hc. now apply IH.
Qed.

Lemma upto_last_close_none (post : string) :
  lacks "]" post = true -> upto_last_close post = None.
Proof.
  unfold lacks. induction post as [|c post IH]; [reflexivity |].
  cbn [forallb_string upto_last_close].
  intros [Hc Hp]%andb_true_iff. apply negb_true_iff in Hc. now rewrite (IH Hp), Hc.
Qed.

Lemma upto_last_close_last (body post : string) :
  lacks "]" post = true -> upto_last_close (body ++ "]" ++ post) = Some (body ++ "]").
Proof.
  intros Hp. induction body as [|c body IH].
  - cbn [String.append upto_last_close]. now rewrite (upto_last_close_none _ Hp).
  - cbn [String.append upto_last_close] in *. now rewrite IH.
Qed.

Lemma match_greedy_widest (pre body post : string) :
  lacks "[" pre = true -> lacks "]" post = true ->
  match_greedy (pre ++ "[" ++ body ++ "]" ++ post) = Some ("[" ++ body ++ "]").
Proof.
  intros Hpre Hpost. unfold match_greedy.
  now rewrite (after_open_first _ _ Hpre), (upto_last_close_last _ _ Hpost).
Qed.

(** X12. When the output is a document whose [response] text holds an
    opening bracket and a closing bracket after it, the piece that is
    parsed runs from the first opening bracket to the last closing bracket
    of that text, whatever the brackets in between. Text before it that
    has no opening bracket and text after it that has no closing bracket
    is dropped; when the piece parses, its value is the result, and when it
    does not, the result is that of the scan of the raw output. *)
Theorem response_piece_is_widest (stdout pre body post : string)
  (fields : list (string * json)) :
  parse stdout = Some (JObj fields) ->
  lookup "response" fields = Some (JStr (pre ++ "[" ++ body ++ "]" ++ post)) ->
  lacks "[" pre = true ->
  lacks "]" post = true ->
  match_greedy (pre ++ "[" ++ body ++ "]" ++ post) = Some ("[" ++ body ++ "]")
  /\ recover_output stdout
     = match parse ("[" ++ body ++ "]") with
       | Some v => Return v
       | None => extract_from_raw stdout
       end.
Proof.
  intros P L Hpre Hpost.
  pose proof (match_greedy_widest pre body post Hpre Hpost) as G.
  split; [exact G |].
  destruct (parse ("[" ++ body ++ "]")) as [v|] eqn:Pm.
  - exact (recover_from_response_field _ _ _ _ _ P L G Pm).
  - unfold recover_output, extract_from_response, JSON_parse.
    rewrite P. cbn [bind get_prop]. rewrite L.
    assert (T : truthy (JStr (pre ++ "[" ++ body ++ "]" ++ post)) = true).
    { cbn [truthy]. now destruct pre. }
    rewrite T. cbn [match_method bind]. rewrite G.
    change ("[" ++ body ++ "]") with (String "[" (body ++ "]")) in *.
    rewrite parse_findings_bracket, Pm. reflexivity.
Qed.

(** An answer that cites a source after the findings: the piece runs up to
    the bracket of the citation. *)
Definition cited_output : string :=
  "{" ++ member "response" (quoted ("Findings: [1, 2] as in [3] of the guide")) ++ "}".

Lemma response_piece_is_widest_cited :
  match_greedy "Findings: [1, 2] as in [3] of the guide" = Some "[1, 2] as in [3]"
  /\ recover_output cited_output = extract_from_raw cited_output.
Proof.
  exact (response_piece_is_widest cited_output "Findings: " "1, 2] as in [3"
           " of the guide"
           [("response", JStr "Findings: [1, 2] as in [3] of the guide")]
           eq_refl eq_refl eq_refl eq_refl).
Defined.

End GreedySpan.

(** ** What the draft comment reads of a finding *)

Section DraftCommentReads.
Import JS Types Gemini.

(** The part of a finding that the comment is made of. *)
Definition same_shown (f g : Finding) : Prop :=
  status f = status g
  /\ summary f = summary g
  /\ head (evidence f) = head (evidence g)
  /\ reason f = reason g
  /\ suggestion f = suggestion g
  /\ approved f = approved g.

Lemma same_shown_block (f g : Finding) : same_shown f g -> block f = block g.
Proof.
  intros (Hs & Hm & He & Hr & Hg & _). unfold block, add_finding.
  rewrite Hs, Hm, Hr, Hg.
  destruct (evidence f) as [|ef efs], (evidence g) as [|eg egs];
    cbn [head] in He; try discriminate; [reflexivity |].
  inversion He; subst. reflexivity.
Qed.

Lemma same_shown_filter (fs gs : list Finding) :
  Forall2 same_shown fs gs ->
  Forall2 same_shown (List.filter approved fs) (List.filter approved gs).
Proof.
  induction 1 as [|f g fs gs Hfg _ IH]; [constructor |].
  cbn [List.filter]. destruct Hfg as (Hs & Hm & He & Hr & Hg & Ha).
  rewrite <- Ha. destruct (approved f) eqn:E; [| exact IH].
  constructor; [| exact IH]. unfold same_shown. repeat split; congruence.
Qed.

Lemma same_shown_blocks (fs gs : list Finding) :
  Forall2 same_shown fs gs -> blocks fs = blocks gs.
Proof.
  unfold blocks. induction 1 as [|f g fs gs Hfg _ IH]; [reflexivity |].
  cbn [map]. now rewrite !concat_cons, IH, (same_shown_block _ _ Hfg).
Qed.

(** X13. The draft comment is made of the status, the summary, the first
    evidence entry, the reason, the suggestion and the decision of each
    finding, and of nothing else: findings that agree on these give the
    same comment, whatever their id, criteria, confidence, proposed comment,
    note and further evidence entries. *)
Theorem draft_comment_reads_shown_fields (fs gs : list Finding) :
  Forall2 same_shown fs gs -> generateDraftComment fs = generateDraftComment gs.
Proof.
  intros H. rewrite !generateDraftComment_render.
  pose proof (same_shown_filter _ _ H) as F.
  pose proof (same_shown_blocks _ _ F) as B.
  destruct F as [|f g fs' gs' Hfg F']; [reflexivity |]. now rewrite B.
Qed.

(** The sample finding with another id, confidence, comment, note and a
    second evidence entry. *)
Definition reworded_finding : Finding :=
  {| id := "F7";
     storyId := Some "S1";
     criteriaId := Some "AC2";
     status := FAIL;
     summary := "Missing null check";
     reason := Some "The handler reads a field of an optional value";
     suggestion := None;
     evidence := [mkEvidence "src/a.ts" (Some 10%Z) (Some 12%Z);
                  mkEvidence "src/b.ts" None None];
     confidence := 1 # 10;
     proposedComment := "Another comment";
     userDecision := None;
     userNote := Some "checked" |}.

Lemma draft_comment_ignores_proposed_comment :
  generateDraftComment [sample_finding "F1" None]
  = generateDraftComment [reworded_finding].
Proof.
  apply draft_comment_reads_shown_fields.
  constructor; [| constructor]. repeat split.
Defined.

End DraftCommentReads.

(** ** The request handler *)

Section SubmitPr.
Import JS Sys Github GithubApi Index.
Variable Ext : Type.
Variable writable : string -> gmap string node -> bool.
Variable run : string -> ExecOptions -> oracle Ext (string * string).
Variable process_cwd : string.
Variable fetch : string -> list (string * string) -> oracle Ext Response.
Variable GITHUB_TOKEN : option string.
Variable generateTalkScript : Json.json -> M Ext string.
Variable generateDraftComment : Json.json -> M Ext string.
Variable other_message : exn -> string.
Variable positive : Json.json -> bool.

Definition handle : option string -> option (string * string) -> M Ext (N * payload) :=
  submit_pr Ext writable run process_cwd fetch GITHUB_TOKEN generateTalkScript
    generateDraftComment other_message positive.

(** The two checks of the handler on the locator. *)
Definition admitted (prUrl : option string) : bool :=
  GeminiCli.given prUrl
  && occurs "github.com" (GeminiCli.text_of prUrl)
  && occurs "/pull/" (GeminiCli.text_of prUrl).

Definition DETAILS_ACCEPT : string := "application/vnd.github.v3+json".

(** The request that [fetchPRDetails] sends for a reference. *)
Definition details_request (prInfo : PRInfo) (w : World Ext)
  : gmap string node * Ext * completion Response :=
  fetch (apiUrl_of prInfo) (headers_of DETAILS_ACCEPT GITHUB_TOKEN) (fs w) (ext w).

Definition requested (prInfo : PRInfo) : event :=
  EvCall ("fetch " ++ apiUrl_of prInfo).

Lemma occurs_app (pat pre post : string) : occurs pat (pre ++ pat ++ post) = true.
Proof.
  induction pre as [|c pre IH].
  - cbn [String.append]. destruct (pat ++ post) eqn:E; cbn [occurs]; rewrite <- E;
      now rewrite strip_prefix_app.
  - cbn [String.append occurs]. rewrite IH. now destruct (strip_prefix pat _).
Qed.

Lemma resolved_is_admitted (url : string) (prInfo : PRInfo) :
  parsePRUrl url = Return prInfo -> admitted (Some url) = true.
Proof.
  unfold parsePRUrl.
  destruct (regex_match url) as [[[g1 g2] g3]|] eqn:M; [| discriminate]. intros _.
  apply regex_match_sound in M as (pre & rest & -> & _).
  unfold admitted, locator. cbn [GeminiCli.given GeminiCli.text_of].
  apply andb_true_iff. split; [apply andb_true_iff; split |].
  - now destruct pre.
  - change (pre ++ "github.com/" ++ g1 ++ "/" ++ g2 ++ "/pull/" ++ g3 ++ rest)
      with (pre ++ "github.com" ++ ("/" ++ g1 ++ "/" ++ g2 ++ "/pull/" ++ g3 ++ rest)).
    apply occurs_app.
  - replace (pre ++ "github.com/" ++ g1 ++ "/" ++ g2 ++ "/pull/" ++ g3 ++ rest)
      with ((pre ++ "github.com/" ++ g1 ++ "/" ++ g2) ++ "/pull/" ++ (g3 ++ rest)).
    + apply occurs_app.
    + rewrite !append_assoc. reflexivity.
Qed.

Lemma fetchPRDetails_eq (prUrl : string) (w : World Ext) :
  fetchPRDetails Ext fetch prUrl GITHUB_TOKEN w
  = match parsePRUrl prUrl with
    | Throw e => (w, Throw e)
    | Return prInfo =>
        let '(fs', ext', r) := details_request prInfo w in
        let w1 := mkWorld fs' ext' (trace w ++ [requested prInfo]) in
        match r with
        | Throw e => (w1, Throw e)
        | Return response =>
            if ok response then
              match json response with
              | Throw e => (w1, Throw e)
              | Return data =>
                  (w1, Return {| title := data_title data;
                                 body := body_or_empty (data_body data);
                                 additions := data_additions data;
                                 deletions := data_deletions data;
                                 changedFiles := data_changed_files data |})
              end
            else (w1, Throw (Error ("Failed to fetch PR details: "
                                    ++ GeminiCli.show (status response) ++ " "
                                    ++ statusText response)))
        end
    end.
Proof.
  unfold fetchPRDetails. rewrite mbind_lift.
  destruct (parsePRUrl prUrl) as [prInfo|e]; [| reflexivity].
  cbv zeta. rewrite mbind_eq. unfold request. rewrite mbind_eq.
  unfold log, ask, details_request, requested, DETAILS_ACCEPT. cbn [fs ext trace].
  destruct (fetch _ _ (fs w) (ext w)) as [[fs' ext'] [response|e]]; [| reflexivity].
  destruct (ok response); cbn [negb]; [| reflexivity].
  rewrite mbind_lift. now destruct (json response).
Qed.

Lemma handle_eq (prUrl : option string) (requirementFile : option (string * string))
  (w : World Ext) :
  handle prUrl requirementFile w
  = if negb (GeminiCli.given prUrl)
    then (w, Return (400%N, ErrorBody "prUrl is required"))
    else if negb (occurs "github.com" (GeminiCli.text_of prUrl))
            || negb (occurs "/pull/" (GeminiCli.text_of prUrl))
    then (w, Return (400%N, ErrorBody "Invalid GitHub PR URL format"))
    else
      let url := GeminiCli.text_of prUrl in
      let failed (w' : World Ext) (e : exn) : World Ext * completion (N * payload) :=
        (w', Return (500%N, ErrorBody (message_of other_message e))) in
      match fetchPRDetails Ext fetch url GITHUB_TOKEN w with
      | (w1, Throw e) => failed w1 e
      | (w1, Return prDetails) =>
          match GeminiCli.reviewWithGeminiCLI Ext writable run process_cwd url
                  (title prDetails) (body prDetails)
                  match requirementFile with
                  | Some (content, name) =>
                      if truthy_string content then Some (content, name) else None
                  | None => None
                  end GITHUB_TOKEN w1 with
          | (w2, Throw e) => failed w2 e
          | (w2, Return findings) =>
              match has_items positive findings with
              | Throw e => failed w2 e
              | Return nonempty =>
                  match (if nonempty : bool then generateTalkScript findings
                         else mret NO_FINDINGS_SCRIPT) w2 with
                  | (w3, Throw e) => failed w3 e
                  | (w3, Return talkScript) =>
                      match generateDraftComment findings w3 with
                      | (w4, Throw e) => failed w4 e
                      | (w4, Return draftComment) =>
                          (w4, Return (200%N,
                                       ResultBody url findings talkScript draftComment))
                      end
                  end
              end
          end
      end.
Proof.
  unfold handle, submit_pr, tryM.
  destruct (GeminiCli.given prUrl); cbn [negb]; [| reflexivity].
  destruct (negb (occurs "github.com" (GeminiCli.text_of prUrl))
            || negb (occurs "/pull/" (GeminiCli.text_of prUrl))); [reflexivity |].
  cbv zeta. rewrite mbind_eq.
  destruct (fetchPRDetails Ext fetch _ GITHUB_TOKEN w) as [w1 [prDetails|e]];
    [| reflexivity].
  rewrite mbind_eq.
  destruct (GeminiCli.reviewWithGeminiCLI _ _ _ _ _ _ _ _ _ w1) as [w2 [findings|e]];
    [| reflexivity].
  rewrite mbind_lift. destruct (has_items positive findings) as [nonempty|e]; [| reflexivity].
  rewrite mbind_eq.
  destruct ((if nonempty then generateTalkScript findings else mret NO_FINDINGS_SCRIPT) w2)
    as [w3 [talkScript|e]]; [| reflexivity].
  rewrite mbind_eq.
  now destruct (generateDraftComment findings w3) as [w4 [draftComment|e]].
Qed.

(** X14. The checks of the handler admit every locator that resolves, so a
    resolvable locator is never answered with status 400. They admit more: a
    locator that passes them and does not resolve is answered with status
    500 and the invalid-URL message, and a request refused by the checks
    with status 400; in both cases nothing was requested, executed or
    written. *)
Theorem locator_checks_admit_resolvable (prUrl : option string)
  (requirementFile : option (string * string)) (w : World Ext) :
  (forall url prInfo, parsePRUrl url = Return prInfo -> admitted (Some url) = true)
  /\ (admitted prUrl = false ->
      exists message, handle prUrl requirementFile w
                      = (w, Return (400%N, ErrorBody message)))
  /\ (forall e, admitted prUrl = true ->
                parsePRUrl (GeminiCli.text_of prUrl) = Throw e ->
                handle prUrl requirementFile w
                = (w, Return (500%N,
                              ErrorBody ("Invalid GitHub PR URL: "
                                         ++ GeminiCli.text_of prUrl)))).
Proof.
  split; [exact resolved_is_admitted |]. split.
  - unfold admitted. intros A. rewrite handle_eq.
    destruct (GeminiCli.given prUrl); cbn [negb andb] in *; [| eauto].
    destruct (occurs "github.com" _); cbn [negb orb andb] in *; [| eauto].
    rewrite A. cbn [negb]. eauto.
  - unfold admitted. intros e [[G H]%andb_true_iff P]%andb_true_iff Hp.
    rewrite handle_eq, G, H, P. cbn [negb orb]. cbv zeta.
    rewrite fetchPRDetails_eq.
    unfold parsePRUrl in *.
    destruct (regex_match (GeminiCli.text_of prUrl)) as [[[g1 g2] g3]|];
      [discriminate | reflexivity].
Qed.

(** A locator with the host and the path marker and no number. *)
Example unnumbered_locator_is_admitted :
  admitted (Some "https://github.com/acme/widgets/pull/") = true
  /\ parsePRUrl "https://github.com/acme/widgets/pull/"
     = Throw (Error "Invalid GitHub PR URL: https://github.com/acme/widgets/pull/").
Proof. split; vm_compute; reflexivity. Qed.

(** X15. When the pull-request endpoint answers a resolved, admitted
    locator with a status that is not OK, the handler answers with status
    500 and a message that names that status; the one request, to the
    endpoint of the reference and with the token of the process as its
    bearer, is all that happened: nothing is cloned and the review engine
    is not run. *)
Theorem failed_lookup_ends_request (url : string)
  (requirementFile : option (string * string)) (prInfo : PRInfo)
  (w : World Ext) (fs' : gmap string node) (ext' : Ext) (response : Response) :
  parsePRUrl url = Return prInfo ->
  details_request prInfo w = (fs', ext', Return response) ->
  ok response = false ->
  handle (Some url) requirementFile w
  = (mkWorld fs' ext' (trace w ++ [requested prInfo]),
     Return (500%N,
             ErrorBody ("Failed to fetch PR details: " ++ GeminiCli.show (status response)
                        ++ " " ++ statusText response)))
  /\ apiUrl_of prInfo
     = "https://api.github.com/repos/" ++ owner prInfo ++ "/" ++ repo prInfo
       ++ "/pulls/" ++ GeminiCli.show (pullNumber prInfo)
  /\ (forall token, GITHUB_TOKEN = Some token -> truthy_string token = true ->
                    headers_of DETAILS_ACCEPT GITHUB_TOKEN
                    = [("Accept", DETAILS_ACCEPT); ("User-Agent", "AI-PR-Review-App");
                       ("Authorization", "Bearer " ++ token)])
  /\ (GeminiCli.given GITHUB_TOKEN = false ->
      headers_of DETAILS_ACCEPT GITHUB_TOKEN
      = [("Accept", DETAILS_ACCEPT); ("User-Agent", "AI-PR-Review-App")]).
Proof.
  intros P R K.
  pose proof (resolved_is_admitted _ _ P) as A. unfold admitted in A.
  apply andb_true_iff in A as [[G H]%andb_true_iff Q].
  split.
  - rewrite handle_eq, G, H, Q. cbn [negb orb]. cbv zeta.
    cbn [GeminiCli.text_of]. rewrite fetchPRDetails_eq, P, R, K. reflexivity.
  - split; [reflexivity |]. split.
    + intros token -> T. unfold headers_of. cbn [GeminiCli.given GeminiCli.text_of].
      now rewrite T.
    + intros N. unfold headers_of. now rewrite N.
Qed.

(** X16. The handler answers every request: with status 400, 500 or 200,
    an error body with the first two and the review result with the last.
    When the review returns no finding, the answer is the result with the
    fixed talk script, made without consulting [generateTalkScript]. *)
Theorem handler_always_answers (prUrl : option string)
  (requirementFile : option (string * string)) (w : World Ext) :
  (exists code content,
      (handle prUrl requirementFile w).2 = Return (code, content)
      /\ match content with
         | ErrorBody _ => code = 400%N \/ code = 500%N
         | ResultBody url _ _ _ => code = 200%N /\ prUrl = Some url
         end
      /\ (code = 400%N -> (handle prUrl requirementFile w).1 = w))
  /\ (forall url prDetails w1 w2 w3 draft,
         prUrl = Some url ->
         admitted prUrl = true ->
         fetchPRDetails Ext fetch url GITHUB_TOKEN w = (w1, Return prDetails) ->
         GeminiCli.reviewWithGeminiCLI Ext writable run process_cwd url
           (title prDetails) (body prDetails)
           match requirementFile with
           | Some (content, name) =>
               if truthy_string content then Some (content, name) else None
           | None => None
           end GITHUB_TOKEN w1 = (w2, Return (Json.JArr [])) ->
         generateDraftComment (Json.JArr []) w2 = (w3, Return draft) ->
         handle prUrl requirementFile w
         = (w3, Return (200%N, ResultBody url (Json.JArr []) NO_FINDINGS_SCRIPT draft))).
Proof.
  split.
  - rewrite handle_eq.
    destruct (GeminiCli.given prUrl) eqn:G; cbn [negb].
    2:{ eexists _, _. split; [reflexivity |]. split; [now left | reflexivity]. }
    destruct (negb (occurs "github.com" (GeminiCli.text_of prUrl))
              || negb (occurs "/pull/" (GeminiCli.text_of prUrl))).
    { eexists _, _. split; [reflexivity |]. split; [now left | reflexivity]. }
    cbv zeta.
    assert (U : prUrl = Some (GeminiCli.text_of prUrl)).
    { destruct prUrl; [reflexivity | discriminate]. }
    destruct (fetchPRDetails _ _ _ _ w) as [w1 [prDetails|e]].
    2:{ eexists _, _. split; [reflexivity |]. split; [now right | discriminate]. }
    destruct (GeminiCli.reviewWithGeminiCLI _ _ _ _ _ _ _ _ _ w1) as [w2 [findings|e]].
    2:{ eexists _, _. split; [reflexivity |]. split; [now right | discriminate]. }
    destruct (has_items positive findings) as [nonempty|e].
    2:{ eexists _, _. split; [reflexivity |]. split; [now right | discriminate]. }
    destruct ((if nonempty then generateTalkScript findings else mret NO_FINDINGS_SCRIPT) w2)
      as [w3 [talkScript|e]].
    2:{ eexists _, _. split; [reflexivity |]. split; [now right | discriminate]. }
    destruct (generateDraftComment findings w3) as [w4 [draftComment|e]].
    2:{ eexists _, _. split; [reflexivity |]. split; [now right | discriminate]. }
    eexists _, _. split; [reflexivity |]. split; [now split | discriminate].
  - intros url prDetails w1 w2 w3 draft -> A F R D.
    unfold admitted in A. apply andb_true_iff in A as [[G H]%andb_true_iff Q].
    rewrite handle_eq, G, H, Q. cbn [negb orb]. cbv zeta.
    cbn [GeminiCli.text_of]. rewrite F, R. cbn [has_items length Nat.eqb negb].
    cbn [mret M_ret ret]. unfold ret. now rewrite D.
Qed.

End SubmitPr.

(** ** Before the upload *)

Section BeforeUpload.
Import JS Sys Gemini.
Variable Ext : Type.
Variable writable : string -> gmap string node -> bool.
Variable GEMINI_API_KEY : option string.
Variable now : oracle Ext N.
Variable Operation : Type.
Variable done : Operation -> bool.
Variable create : string -> oracle Ext string.
Variable upload : string -> string -> string -> oracle Ext Operation.
Variable get : Operation -> oracle Ext Operation.

Definition KEY_REQUIRED : exn := Error "GEMINI_API_KEY environment variable is required".

Definition CREATED : event := EvCall "fileSearchStores.create".

Definition index (fileBuffer fileName : string) : M Ext string :=
  uploadToFileSearch Ext writable GEMINI_API_KEY now Operation done create upload get
    fileBuffer fileName.

Lemma call_eq (A : Type) (method : string) (o : oracle Ext A) (w : World Ext) :
  call Ext method o w
  = let '(fs', ext', r) := o (fs w) (ext w) in
    (mkWorld fs' ext' (trace w ++ [EvCall method]), r).
Proof. reflexivity. Qed.

Lemma prepare_outcome (fileBuffer fileName : string) (w w1 : World Ext)
  (r : completion (string * string)) :
  prepare Ext writable GEMINI_API_KEY now create fileBuffer fileName w = (w1, r) ->
  match r with
  | Throw e =>
      (truthy_text GEMINI_API_KEY = false /\ w1 = w /\ e = KEY_REQUIRED)
      \/ (truthy_text GEMINI_API_KEY = true
          /\ (trace w1 = trace w \/ trace w1 = (trace w ++ [CREATED])%list))
  | Return (storeName, tempFilePath) =>
      truthy_text GEMINI_API_KEY = true
      /\ fs w1 !! tempFilePath = Some (File fileBuffer)
      /\ trace w1 = (trace w ++ [CREATED])%list
      /\ exists t,
          tempFilePath = join TEMP_DIR (GeminiCli.show t ++ "-" ++ fileName)
          /\ (lacks "/" fileName = true ->
              tempFilePath = TEMP_DIR ++ "/" ++ GeminiCli.show t ++ "-" ++ fileName)
  end.
Proof.
  unfold prepare, getAI. rewrite mbind_eq.
  destruct (truthy_text GEMINI_API_KEY).
  2:{ cbn [throw]. intros [= <- <-]. left. auto. }
  cbn [mret M_ret ret]. rewrite mbind_eq. unfold ask at 1.
  destruct (now (fs w) (ext w)) as [[fs0 ext0] [t0|e0]].
  2:{ intros [= <- <-]. right. split; [reflexivity | now left]. }
  rewrite mbind_eq, call_eq. cbn [fs ext trace].
  destruct (create _ fs0 ext0) as [[fs1 ext1] [storeName|e1]].
  2:{ intros [= <- <-]. right. split; [reflexivity | now right]. }
  rewrite mbind_eq. unfold ask at 1. cbn [fs ext trace].
  destruct (now fs1 ext1) as [[fs2 ext2] [t1|e2]].
  2:{ intros [= <- <-]. right. split; [reflexivity | now right]. }
  cbv zeta. rewrite mbind_eq. unfold writeFileSync. cbn [fs ext trace].
  destruct (writable _ fs2).
  2:{ intros [= <- <-]. right. split; [reflexivity | now right]. }
  intros [= <- <-]. split; [reflexivity |].
  cbn [fs trace]. split; [apply lookup_insert_eq |]. split; [reflexivity |].
  exists t1. split; [reflexivity |]. intros S.
  apply join_child.
  - exists true, ["tmp"; "ai-pr-review"]. repeat split. discriminate.
  - apply hyphenated_plain; [apply show_lacks_slash | exact S].
Qed.

(** X17. What [uploadToFileSearch] does before the upload. Without an API
    key it throws the configuration error and nothing has happened. When the
    store cannot be created it throws that error and no file was written.
    When the temporary file cannot be written it throws after the store was
    created, and no upload is attempted; the store is left behind. Otherwise
    the document is in the temporary file, at the path that [path.join]
    makes of the temporary directory and [<time>-<fileName>], which for a
    file name without a slash is the file of that name in the temporary
    directory, and the one call made so far created the store. *)
Theorem upload_preparation (fileBuffer fileName : string) (w : World Ext) :
  let before := prepare Ext writable GEMINI_API_KEY now create fileBuffer fileName w in
  (truthy_text GEMINI_API_KEY = false ->
   index fileBuffer fileName w = (w, Throw KEY_REQUIRED))
  /\ (forall e, before.2 = Throw e ->
                index fileBuffer fileName w = (before.1, Throw e)
                /\ (trace before.1 = trace w \/ trace before.1 = (trace w ++ [CREATED])%list))
  /\ (forall storeName tempFilePath,
         before.2 = Return (storeName, tempFilePath) ->
         truthy_text GEMINI_API_KEY = true
         /\ fs before.1 !! tempFilePath = Some (File fileBuffer)
         /\ trace before.1 = (trace w ++ [CREATED])%list
         /\ exists t,
             tempFilePath = join TEMP_DIR (GeminiCli.show t ++ "-" ++ fileName)
             /\ (lacks "/" fileName = true ->
                 tempFilePath
                 = "/tmp/ai-pr-review/" ++ GeminiCli.show t ++ "-" ++ fileName)).
Proof.
  intros before. subst before. unfold index. rewrite uploadToFileSearch_eq.
  destruct (prepare Ext writable GEMINI_API_KEY now create fileBuffer fileName w)
    as [w1 r] eqn:E.
  apply prepare_outcome in E. cbn [fst snd].
  split; [| split].
  - intros K. destruct r as [[s p]|e].
    + destruct E as [E _]. congruence.
    + destruct E as [(_ & -> & ->)|[E _]]; [reflexivity | congruence].
  - intros e ->. split; [reflexivity |].
    destruct E as [(_ & -> & _)|[_ E]]; [now left | exact E].
  - intros s p ->. exact E.
Qed.

(** A file name with dot segments: the temporary file is not the file of
    that name in the temporary directory. *)
Example temporary_name_with_dot_segments :
  join TEMP_DIR (GeminiCli.show 1700000000000 ++ "-" ++ "a/../x.md")
  = "/tmp/ai-pr-review/x.md"
  /\ join TEMP_DIR (GeminiCli.show 1700000000000 ++ "-" ++ "a/../../x.md")
     = "/tmp/x.md".
Proof. split; vm_compute; reflexivity. Qed.

End BeforeUpload.

(** ** The review through the API *)

Section ApiReview.
Import JS Json RegExp Sys Gemini GeminiReview.
Variable Ext : Type.
Variable GEMINI_API_KEY : option string.
Variable generateContent : string -> string -> list string -> oracle Ext (option string).

Definition GENERATED : event := EvCall "models.generateContent".

(** What [reviewPR] makes of the text of the response. *)
Definition findings_of_text (text : string) : json :=
  match match_greedy text with
  | Some m =>
      match parse m with
      | Some v => v
      | None => JArr []
      end
  | None => JArr []
  end.

Lemma findings_of_text_sequence (text : string) :
  exists items, findings_of_text text = JArr items.
Proof.
  unfold findings_of_text.
  destruct (match_greedy text) as [m|] eqn:G; [| now exists []].
  destruct (match_greedy_opens _ _ G) as [t ->].
  destruct (parse (String "[" t)) as [v|] eqn:P; [| now exists []].
  apply parse_open_bracket in P as [items ->]. now exists items.
Qed.

(** X18. [reviewPR] without an API key throws the configuration error
    before any call. With a key it makes one call, with the whole diff in
    the prompt, between the same two texts whatever the diff. A failure of
    the call is passed on to the caller; an answer always yields a sequence:
    what the piece from the first opening to the last closing bracket of the
    text parses to, and the empty sequence when there is no such piece, when
    it does not parse, or when the answer has no text. *)
Theorem reviewPR_outcomes (diff prTitle prDescription : string)
  (fileSearchStoreName : option string) (w : World Ext) :
  let prompt := review_prompt diff prTitle prDescription fileSearchStoreName in
  let answer :=
    generateContent "gemini-2.5-flash" prompt (tools_of fileSearchStoreName)
      (fs w) (ext w) in
  let after := mkWorld answer.1.1 answer.1.2 (trace w ++ [GENERATED]) in
  let final :=
    reviewPR Ext GEMINI_API_KEY generateContent diff prTitle prDescription
      fileSearchStoreName w in
  (truthy_text GEMINI_API_KEY = false -> final = (w, Throw KEY_REQUIRED))
  /\ (truthy_text GEMINI_API_KEY = true ->
      match answer.2 with
      | Throw e => final = (after, Throw e)
      | Return response =>
          final = (after, Return (findings_of_text (text_or_empty response)))
          /\ exists items, findings_of_text (text_or_empty response) = JArr items
      end)
  /\ (exists head tail, forall d,
         review_prompt d prTitle prDescription fileSearchStoreName = head ++ d ++ tail)
  /\ findings_of_text "" = JArr [].
Proof.
  intros prompt answer after final. subst final after answer prompt.
  unfold reviewPR, getAI. rewrite mbind_eq.
  split; [| split; [| split]].
  - intros ->. reflexivity.
  - intros ->. cbn [mret M_ret ret]. cbv zeta.
    rewrite mbind_eq, call_eq.
    destruct (generateContent _ _ _ (fs w) (ext w)) as [[fs' ext'] [response|e]];
      cbn [fst snd]; [| reflexivity].
    split; [| apply findings_of_text_sequence].
    unfold findings_of_text.
    destruct (match_greedy (text_or_empty response)) as [m|]; [| reflexivity].
    unfold lift, JSON_parse. now destruct (parse m).
  - unfold review_prompt.
    exists (PROMPT_TITLE ++ prTitle ++ PROMPT_DESCRIPTION ++ prDescription ++ PROMPT_DIFF).
    eexists. intros d. rewrite !append_assoc. reflexivity.
  - reflexivity.
Qed.

End ApiReview.

(** ** Decisions on the review screen *)

Section Decisions.
Import JS Types Gemini Frontend.

Lemma handleFindingAction_findings (i : string) (a : FindingAction) (s : ReviewScreen) :
  findings (handleFindingAction i a s)
  = map (fun f => if String.eqb (id f) i then with_decision f a else f) (findings s).
Proof. reflexivity. Qed.

(** X19. A decision on the review screen sets the decision of every finding
    that bears the id, duplicates included, and of no other finding; the
    findings keep their number, order, ids and every other field. A later
    decision on the same id replaces an earlier one, decisions on different
    ids commute, and no decision made here is EDITED. *)
Theorem decision_marks_findings_of_id (i : string) (a : FindingAction) (s : ReviewScreen) :
  let after := handleFindingAction i a s in
  map id (findings after) = map id (findings s)
  /\ (forall n f, nth_error (findings s) n = Some f ->
                  nth_error (findings after) n
                  = Some (if String.eqb (id f) i then with_decision f a else f))
  /\ (forall f, In f (findings after) -> id f = i ->
                userDecision f = Some (decision_of a) /\ userDecision f <> Some EDITED)
  /\ (forall f, In f (findings after) -> id f <> i -> In f (findings s))
  /\ (forall b, handleFindingAction i b after = handleFindingAction i b s)
  /\ (forall j b, j <> i ->
                  handleFindingAction j b after
                  = handleFindingAction i a (handleFindingAction j b s)).
Proof.
  intros after. subst after.
  split; [| split; [| split; [| split; [| split]]]].
  - rewrite handleFindingAction_findings, map_map. apply map_ext.
    intros f. now destruct (String.eqb (id f) i).
  - intros n f H. rewrite handleFindingAction_findings.
    now rewrite nth_error_map, H.
  - intros f Hin Hid. rewrite handleFindingAction_findings in Hin.
    apply in_map_iff in Hin as (g & <- & _).
    destruct (String.eqb (id g) i) eqn:E.
    + cbn [with_decision userDecision]. split; [reflexivity |]. now destruct a.
    + apply String.eqb_neq in E. contradiction.
  - intros f Hin Hid. rewrite handleFindingAction_findings in Hin.
    apply in_map_iff in Hin as (g & <- & Hg).
    destruct (String.eqb (id g) i) eqn:E; [| exact Hg].
    apply String.eqb_eq in E. cbn [with_decision id] in Hid. contradiction.
  - intros b. unfold handleFindingAction. cbn [isMicActive draftComment findings].
    f_equal. rewrite map_map. apply map_ext. intros f.
    destruct (String.eqb (id f) i) eqn:E; [| now rewrite E].
    cbn [with_decision id]. now rewrite E.
  - intros j b Hj. unfold handleFindingAction. cbn [isMicActive draftComment findings].
    f_equal. rewrite !map_map. apply map_ext. intros f.
    destruct (String.eqb (id f) i) eqn:E, (String.eqb (id f) j) eqn:F;
      cbn [with_decision id]; rewrite ?E, ?F; try reflexivity.
    apply String.eqb_eq in E, F. congruence.
Qed.

Lemma block_nonempty (f : Finding) : (0 < String.length (block f))%nat.
Proof.
  unfold block, add_finding. cbv zeta.
  match goal with
  | |- (0 < String.length (?x ++ ?y))%nat => rewrite (length_append x y)
  end.
  change (String.length newline) with 1%nat. lia.
Qed.

Lemma blocks_cons (f : Finding) (fs : list Finding) :
  blocks (f :: fs) = block f ++ blocks fs.
Proof. unfold blocks. cbn [map]. apply concat_cons. Qed.

(** Dropping findings shortens the blocks, strictly when one is dropped. *)
Lemma blocks_filter_length (p : Finding -> bool) (fs : list Finding) :
  (String.length (blocks (List.filter p fs)) <= String.length (blocks fs))%nat
  /\ ((exists f, In f fs /\ p f = false) ->
      (String.length (blocks (List.filter p fs)) < String.length (blocks fs))%nat).
Proof.
  induction fs as [|f fs [IH1 IH2]].
  - split; [reflexivity |]. intros (f & [] & _).
  - cbn [List.filter]. pose proof (block_nonempty f) as B.
    destruct (p f) eqn:E; rewrite !blocks_cons, ?length_append.
    + split; [lia |]. intros (g & [->|Hg] & Hp); [congruence |].
      assert (String.length (blocks (List.filter p fs)) < String.length (blocks fs))%nat
        by (apply IH2; eauto). lia.
    + split; [lia |]. intros _. lia.
Qed.

(** The findings that stay in the comment after a dismissal. *)
Definition stays (i : string) (f : Finding) : bool :=
  negb (String.eqb (id f) i).

Lemma dismissed_filter (i : string) (fs : list Finding) :
  List.filter approved
    (map (fun f => if String.eqb (id f) i then with_decision f ActionDismissed else f) fs)
  = List.filter (stays i) (List.filter approved fs).
Proof.
  induction fs as [|f fs IH]; [reflexivity |].
  cbn [map List.filter].
  destruct (String.eqb (id f) i) eqn:E.
  - change (approved (with_decision f ActionDismissed)) with false. cbv iota.
    destruct (approved f); [| exact IH].
    cbn [List.filter]. unfold stays at 1. rewrite E. exact IH.
  - destruct (approved f); [| exact IH].
    cbn [List.filter]. unfold stays at 1. rewrite E. cbn [negb]. now rewrite IH.
Qed.

(** X20. A decision on the review screen leaves the draft comment as it
    is. When the screen opens with the comment that the server drafted from
    its findings, dismissing a finding that the comment includes makes the
    comment differ from the one its findings would now give: the dismissal
    does not reach the comment shown. *)
Theorem dismissal_does_not_reach_comment (r : ReviewResult) (f : Finding) :
  result_draftComment r = Some (generateDraftComment (result_findings r)) ->
  In f (result_findings r) ->
  approved f = true ->
  let after := handleFindingAction (id f) ActionDismissed (mount (Some r)) in
  draftComment after = generateDraftComment (result_findings r)
  /\ draftComment after <> generateDraftComment (findings after)
  /\ (forall i a s, draftComment (handleFindingAction i a s) = draftComment s).
Proof.
  intros Hd Hin Ha after. subst after.
  split; [| split; [| reflexivity]].
  - cbn [handleFindingAction mount draftComment]. now rewrite Hd.
  - cbn [handleFindingAction mount draftComment findings]. rewrite Hd.
    cbn [Gemini.text_of]. rewrite !generateDraftComment_render, dismissed_filter.
    assert (Hf : In f (List.filter approved (result_findings r)))
      by (apply filter_In; auto).
    destruct (blocks_filter_length (stays (id f))
                (List.filter approved (result_findings r))) as [_ L].
    assert (L' : (String.length
                    (blocks (List.filter (stays (id f))
                               (List.filter approved (result_findings r))))
                  < String.length (blocks (List.filter approved (result_findings r))))%nat).
    { apply L. exists f. split; [exact Hf |]. unfold stays. now rewrite String.eqb_refl. }
    destruct (List.filter approved (result_findings r)) as [|g gs] eqn:E1;
      [destruct Hf |].
    destruct (List.filter (stays (id f)) (g :: gs)) as [|h hs] eqn:E2.
    + intros H. apply (f_equal (fun x => String.get 12 x)) in H.
      vm_compute in H. discriminate H.
    + intros H. apply (f_equal String.length) in H.
      rewrite !length_append in H. lia.
Qed.

Definition sample_result : ReviewResult :=
  {| prUrl := "https://github.com/acme/widgets/pull/42";
     result_findings := [sample_finding "F1" None; sample_finding "F2" None];
     talkScript := None;
     result_draftComment :=
       Some (generateDraftComment [sample_finding "F1" None; sample_finding "F2" None]) |}.

Lemma dismissal_does_not_reach_sample_comment :
  draftComment (handleFindingAction "F1" ActionDismissed (mount (Some sample_result)))
  <> generateDraftComment
       (findings (handleFindingAction "F1" ActionDismissed (mount (Some sample_result)))).
Proof.
  exact (proj1 (proj2 (dismissal_does_not_reach_comment sample_result
                         (sample_finding "F1" None) eq_refl (or_introl eq_refl) eq_refl))).
Defined.

End Decisions.

Section SubmitPrSamples.
Import JS Sys Github GithubApi Index.

(** An endpoint that knows no pull request. *)
Definition not_found : string -> list (string * string) -> oracle unit Response :=
  fun _ _ files e =>
    (files, e, Return (mkResponse false 404 "Not Found" (Throw SyntaxError))).

Definition silent : Json.json -> M unit string := fun _ => mret "".

Definition plain_message : exn -> string := fun _ => "error".

Definition never_positive : Json.json -> bool := fun _ => false.

Lemma failed_lookup_of_sample :
  handle unit always_writable (host true (Return (direct_output, ""))) "/srv/api"
    not_found None silent silent plain_message never_positive (Some SAMPLE_URL) None
    empty_world
  = (mkWorld ∅ tt [EvCall "fetch https://api.github.com/repos/acme/widgets/pulls/42"],
     Return (500%N, ErrorBody "Failed to fetch PR details: 404 Not Found")).
Proof.
  exact (proj1 (failed_lookup_ends_request unit always_writable
                  (host true (Return (direct_output, ""))) "/srv/api"
                  not_found None silent silent plain_message never_positive SAMPLE_URL None
                  (Github.mkPRInfo "acme" "widgets" 42) empty_world ∅ tt
                  (mkResponse false 404 "Not Found" (Throw SyntaxError))
                  eq_refl eq_refl eq_refl)).
Defined.

End SubmitPrSamples.

(** ** From the request to the answer *)

Section EndToEnd.
Import JS Json Sys GithubApi Index.
Variable Ext : Type.
Variable writable : string -> gmap string node -> bool.
Variable run : string -> ExecOptions -> oracle Ext (string * string).
Variable process_cwd : string.
Variable fetch : string -> list (string * string) -> oracle Ext Response.
Variable GITHUB_TOKEN : option string.
Variable generateTalkScript : Json.json -> M Ext string.
Variable generateDraftComment : Json.json -> M Ext string.
Variable other_message : exn -> string.
Variable positive : Json.json -> bool.

(** The requirement file that the handler passes on: an empty upload is
    dropped. *)
Definition passed_on (requirementFile : option (string * string))
  : option (string * string) :=
  match requirementFile with
  | Some (content, name) => if truthy_string content then Some (content, name) else None
  | None => None
  end.

Lemma both_resolve (url : string) (prInfo : GeminiCli.PRInfo) :
  GeminiCli.parsePRUrl url = Return prInfo ->
  Github.parsePRUrl url
  = Return (Github.mkPRInfo (GeminiCli.owner prInfo) (GeminiCli.repo prInfo)
              (GeminiCli.pullNumber prInfo)).
Proof.
  unfold GeminiCli.parsePRUrl, Github.parsePRUrl.
  destruct (Github.regex_match url) as [[[g1 g2] g3]|]; [| discriminate].
  now intros [= <-].
Qed.

(** X21. A review engine that fails without having printed anything is
    answered like a clean review. When the lookup, the acquisition, the diff
    and the context succeed and the engine command then fails with an empty
    standard output (a timeout, a crash, a missing executable), the handler
    answers with status 200, no findings and the fixed sentence that no
    issues were found; the workspace is removed before the comment is
    drafted. *)
Theorem failed_engine_reads_as_clean_review (url diff stderr : string)
  (requirementFile : option (string * string)) (prInfo : GeminiCli.PRInfo)
  (prDetails : PRDetails) (w w1 wa wb w3 : World Ext)
  (fs' : gmap string node) (ext' : Ext) (killed : bool) (code : option string)
  (draft : string) :
  GeminiCli.parsePRUrl url = Return prInfo ->
  fetchPRDetails Ext fetch url GITHUB_TOKEN w = (w1, Return prDetails) ->
  let repoDir := GeminiCli.repoDir_of process_cwd prInfo in
  let requirement := passed_on requirementFile in
  GeminiCli.cloneAndCheckoutPR Ext run prInfo repoDir GITHUB_TOKEN
    (GeminiCli.setupTempDir Ext process_cwd prInfo w1).1 = (wa, Return tt) ->
  requirement_writable Ext writable repoDir requirement wa = true ->
  GeminiCli.getDiffFromRepo Ext run repoDir
    (requirement_written Ext repoDir requirement wa) = (wb, Return diff) ->
  writable (context_path repoDir) (fs wb) = true ->
  run GeminiCli.gemini_command (gemini_options repoDir)
    (<[context_path repoDir :=
         File (GeminiCli.contextContent (title prDetails) (body prDetails) diff
                 (requirement_name requirement))]> (fs wb))
    (ext wb)
  = (fs', ext', Throw (ExecException killed code "" stderr)) ->
  let released :=
    (GeminiCli.cleanup Ext repoDir
       (mkWorld fs' ext' (trace wb ++ [engine_run repoDir]))).1 in
  generateDraftComment (JArr []) released = (w3, Return draft) ->
  handle Ext writable run process_cwd fetch GITHUB_TOKEN generateTalkScript
    generateDraftComment other_message positive (Some url) requirementFile w
  = (w3, Return (200%N, ResultBody url (JArr []) NO_FINDINGS_SCRIPT draft))
  /\ fs released !! repoDir = None.
Proof.
  intros P F repoDir requirement A Hreq D Hctx E released G.
  subst released requirement repoDir.
  split; [| apply cleanup_removes].
  pose proof (resolved_is_admitted _ _ (both_resolve _ _ P)) as Adm.
  unfold admitted in Adm. apply andb_true_iff in Adm as [[Hg Hh]%andb_true_iff Hp].
  rewrite handle_eq, Hg, Hh, Hp. cbn [negb orb]. cbv zeta. cbn [GeminiCli.text_of].
  rewrite F. fold (passed_on requirementFile).
  rewrite (review_resolved _ _ _ _ _ _ _ _ _ _ _ P). cbv zeta.
  rewrite guarded_stages_eq, A, Hreq, D, Hctx, runGeminiCLI_eq.
  cbn [with_file fs ext trace]. rewrite E. cbn [fst snd outcome_findings].
  rewrite recover_partial_eq. cbn [GeminiCli.error_stdout].
  change (RegExp.match_lazy "") with (@None string). cbv iota.
  cbn [has_items length Nat.eqb negb]. cbn [mret M_ret ret]. unfold ret.
  unfold engine_run in G. now rewrite G.
Qed.

End EndToEnd.

Section EndToEndSamples.
Import JS Json Sys GithubApi Index.

(** An endpoint that knows the sample pull request. *)
Definition found : string -> list (string * string) -> oracle unit Response :=
  fun _ _ files e =>
    (files, e,
     Return (mkResponse true 200 "OK"
               (Return (mkPullData "Add widgets" None 10 2 3)))).

(** A drafting function that reports how many findings it was given. *)
Definition counting : Json.json -> M unit string :=
  fun findings =>
    mret (match findings with
          | JArr [] => "none"
          | _ => "some"
          end).

Definition sample_request (tool : completion (string * string))
  : World unit * completion (N * payload) :=
  handle unit always_writable (host true tool) "/srv/api" found None silent counting
    plain_message never_positive (Some SAMPLE_URL) SAMPLE_REQUIREMENT empty_world.

Definition looked_up : World unit :=
  (fetchPRDetails unit found SAMPLE_URL None empty_world).1.

Definition timed_out_host : string -> ExecOptions -> oracle unit (string * string) :=
  host true (timed_out "").

Definition sample_acquired : World unit :=
  (GeminiCli.cloneAndCheckoutPR unit timed_out_host SAMPLE_PR SAMPLE_DIR None
     (GeminiCli.setupTempDir unit "/srv/api" SAMPLE_PR looked_up).1).1.

Definition sample_compared : World unit :=
  (GeminiCli.getDiffFromRepo unit timed_out_host SAMPLE_DIR
     (requirement_written unit SAMPLE_DIR SAMPLE_REQUIREMENT sample_acquired)).1.

Definition sample_context : string :=
  GeminiCli.contextContent "Add widgets" "" "" (Some "REQUIREMENTS-stories.md").

Definition sample_released : World unit :=
  (GeminiCli.cleanup unit SAMPLE_DIR
     (mkWorld (<[context_path SAMPLE_DIR := File sample_context]> (fs sample_compared)) tt
        (trace sample_compared ++ [engine_run SAMPLE_DIR]))).1.

Lemma timed_out_engine_reads_as_clean_review :
  sample_request (timed_out "")
  = (sample_released, Return (200%N, ResultBody SAMPLE_URL (JArr []) NO_FINDINGS_SCRIPT "none")).
Proof.
  exact (proj1 (failed_engine_reads_as_clean_review unit always_writable timed_out_host
                  "/srv/api" found None silent counting plain_message never_positive
                  SAMPLE_URL "" "" SAMPLE_REQUIREMENT SAMPLE_PR
                  (mkPRDetails "Add widgets" "" 10 2 3)
                  empty_world looked_up sample_acquired sample_compared sample_released
                  (<[context_path SAMPLE_DIR := File sample_context]> (fs sample_compared))
                  tt true None "none"
                  eq_refl eq_refl eq_refl eq_refl eq_refl eq_refl eq_refl eq_refl)).
Defined.

End EndToEndSamples.
